(** * Premier-league infringing-IP detector: detection and attribution stages

    A shallow embedding of
      - [model_one]            (dags/scripts/pl_uk_ip_piracy_report_detection)
      - [construct_output_df]  (dags/scripts/pl_uk_ip_piracy_report_traffic)
    together with the pandas / NumPy / scikit-learn operations they call.

    Numbers.  The source computes with IEEE doubles; here a column value is
    an exact rational ([Q]) and pandas' NaN is [None].  Statements about
    numeric values are therefore statements about the exact arithmetic the
    code performs, up to [Qeq].

    Frames.  A DataFrame is kept column-major: an index (row labels) and a
    list of named columns, every column as long as the index. *)

From Stdlib Require Import String Ascii.
From Stdlib Require Import List ZArith QArith Qminmax Qround Bool Lia.
From Stdlib Require Import Permutation Sorted Lqa OrderedTypeEx.
From Stdlib Require SpecFloat.
Import ListNotations.

Local Open Scope Z_scope.

(* ------------------------------------------------------------------ *)
(** ** Python and pandas primitives *)

(** A float cell: [None] is NaN. *)
Definition cell := option Q.

(** Python slice bounds: a negative bound counts from the end, and both
    bounds are clamped to the length. *)
Definition slice_bound (n i : Z) : Z :=
  if i <? 0 then Z.max (i + n) 0 else Z.min i n.

(** [l[a:b]] (positional, step 1). *)
Definition py_slice {A : Type} (l : list A) (a b : Z) : list A :=
  let n := Z.of_nat (length l) in
  let lo := slice_bound n a in
  let hi := slice_bound n b in
  firstn (Z.to_nat (hi - lo)) (skipn (Z.to_nat lo) l).

(** The positions [l[a:b]] reads in a list of length [n], in order. *)
Definition window_positions (n : nat) (a b : Z) : list nat :=
  let lo := slice_bound (Z.of_nat n) a in
  let hi := slice_bound (Z.of_nat n) b in
  seq (Z.to_nat lo) (Z.to_nat (hi - lo)).

(** [int(x)] on a float: truncation toward zero. *)
Definition py_int (x : Q) : Z :=
  if Qle_bool 0 x then Qfloor x else Qceiling x.

(** [int(s)] on a text.  A text is a sequence of characters below U+0100,
    one [ascii] for each (its code point); texts with other characters are
    not represented.  Surrounding whitespace is dropped, one sign may lead,
    and the decimal digits may be separated by single underscores; any other
    text is the [ValueError] of the source ([None]).  Below U+0100 the
    decimal digits are [0]-[9], and the whitespace [int] drops is TAB, LF,
    VT, FF, CR and the space (C's [isspace]) with U+0085 and U+00A0, which
    CPython turns into spaces first; the separators U+001C-U+001F, which
    [str.strip] would drop, are not among them. *)
Definition digit_of_ascii (c : ascii) : option Z :=
  let n := Z.of_nat (nat_of_ascii c) in
  if (48 <=? n) && (n <=? 57) then Some (n - 48) else None.

Definition is_space (c : ascii) : bool :=
  let n := Z.of_nat (nat_of_ascii c) in
  ((9 <=? n) && (n <=? 13)) || (n =? 32) || (n =? 133) || (n =? 160).

Fixpoint drop_spaces (l : list ascii) : list ascii :=
  match l with
  | c :: l' => if is_space c then drop_spaces l' else l
  | [] => []
  end.

Definition strip (l : list ascii) : list ascii :=
  rev (drop_spaces (rev (drop_spaces l))).

Fixpoint digits_value (acc : Z) (after_digit : bool) (l : list ascii)
  : option Z :=
  match l with
  | [] => if after_digit then Some acc else None
  | c :: l' =>
      match digit_of_ascii c with
      | Some d => digits_value (10 * acc + d) true l'
      | None =>
          if Ascii.eqb c "_"%char && after_digit
          then digits_value acc false l'
          else None
      end
  end.

Definition py_int_of_string (s : string) : option Z :=
  match strip (list_ascii_of_string s) with
  | "+"%char :: l => digits_value 0 false l
  | "-"%char :: l => option_map Z.opp (digits_value 0 false l)
  | l => digits_value 0 false l
  end.

(** [s[a:b]] on a string, for [0 <= a <= b]. *)
Definition str_slice (s : string) (a b : nat) : string :=
  substring a (b - a) s.

(** [s.replace(c, '')] for a one-character pattern. *)
Fixpoint str_remove (c : ascii) (s : string) : string :=
  match s with
  | EmptyString => EmptyString
  | String d s' =>
      if Ascii.eqb c d then str_remove c s' else String d (str_remove c s')
  end.

(** Comparison of a float cell with a scalar: [NaN > x] is [False]. *)
Definition Qlt_bool (x y : Q) : bool := negb (Qle_bool y x).

Definition gt_scalar (v : cell) (th : Q) : bool :=
  match v with
  | Some x => Qlt_bool th x
  | None => false
  end.

(** Sum of a list of rationals. *)
Definition Qsum (l : list Q) : Q := fold_right Qplus 0%Q l.

(** All cells of a window, when none of them is NaN. *)
Fixpoint all_present (l : list cell) : option (list Q) :=
  match l with
  | [] => Some []
  | Some x :: l' =>
      match all_present l' with
      | Some xs => Some (x :: xs)
      | None => None
      end
  | None :: _ => None
  end.

(** [Series.rolling(window=w).mean()]: [min_periods] defaults to the window
    size, so position [i] holds the mean of the [w] cells ending at [i]
    when there are [w] of them and none is NaN, and NaN otherwise. *)
Definition rolling_window (w : nat) (l : list cell) (i : nat) : list cell :=
  firstn w (skipn (i + 1 - w) l).

Definition rolling_mean_at (w : nat) (l : list cell) (i : nat) : cell :=
  if (w <=? i + 1)%nat then
    match all_present (rolling_window w l i) with
    | Some xs => Some (Qsum xs / inject_Z (Z.of_nat w))%Q
    | None => None
    end
  else None.

Definition rolling_mean (w : nat) (l : list cell) : list cell :=
  map (rolling_mean_at w l) (seq 0 (length l)).

(** [Series.shift(periods=p)]: rows move down by [p] (up for negative [p]);
    the vacated rows are NaN and the length is kept. *)
Definition shift (p : Z) (l : list cell) : list cell :=
  let n := length l in
  if p <? 0 then
    let k := Nat.min (Z.to_nat (- p)) n in
    skipn k l ++ repeat None k
  else
    let k := Nat.min (Z.to_nat p) n in
    repeat None k ++ firstn (n - k) l.

Definition cell_sub (a b : cell) : cell :=
  match a, b with
  | Some x, Some y => Some (x - y)%Q
  | _, _ => None
  end.

Fixpoint map2 {A B C : Type} (f : A -> B -> C) (l : list A) (m : list B)
  : list C :=
  match l, m with
  | a :: l', b :: m' => f a b :: map2 f l' m'
  | _, _ => []
  end.

(** [Series.diff(periods=p)] is [s - s.shift(p)]. *)
Definition diff (p : Z) (l : list cell) : list cell :=
  map2 cell_sub l (shift p l).

(** [fillna(0)]. *)
Definition fillna0 (v : cell) : Q :=
  match v with
  | Some x => x
  | None => 0%Q
  end.

(** Mean of the defined cells of a group, NaN when it has none. *)
Fixpoint present (l : list cell) : list Q :=
  match l with
  | [] => []
  | Some x :: l' => x :: present l'
  | None :: l' => present l'
  end.

Definition cell_mean (l : list cell) : cell :=
  match present l with
  | [] => None
  | xs => Some (Qsum xs / inject_Z (Z.of_nat (length xs)))%Q
  end.

(** The cells of a column on the rows labelled [key]. *)
Definition rows_at (idx : list Z) (key : Z) (col : list cell) : list cell :=
  map snd (filter (fun p => fst p =? key) (combine idx col)).

(** Two cells agree when both are NaN or both hold the same number. *)
Definition cell_eq (a b : cell) : Prop :=
  match a, b with
  | Some x, Some y => (x == y)%Q
  | None, None => True
  | _, _ => False
  end.

(* ------------------------------------------------------------------ *)
(** ** Sorting, as pandas delegates it to NumPy *)

(** [sort_values] is called with its default [kind='quicksort'].  NumPy
    documents that kind as not stable: the result is an index permutation
    that puts the keys in ascending order, and nothing is promised about
    the order of equal keys.  A sort kind is any function with that
    contract. *)
Record sort_kind : Type := {
  argsort : list Z -> list nat;
  argsort_perm : forall l, Permutation (argsort l) (seq 0 (length l));
  argsort_sorted :
    forall l, StronglySorted Z.le (map (fun i => nth i l 0) (argsort l))
}.

(** [a[idx]] (NumPy take). *)
Definition take {A : Type} (d : A) (l : list A) (idx : list nat) : list A :=
  map (fun i => nth i l d) idx.

(** Positions of the NaN and of the non-NaN keys. *)
Definition is_nan (v : option Z) : bool :=
  match v with None => true | Some _ => false end.

Definition nan_idx (items : list (option Z)) : list nat :=
  filter (fun i => is_nan (nth i items None)) (seq 0 (length items)).

Definition non_nan_idx (items : list (option Z)) : list nat :=
  filter (fun i => negb (is_nan (nth i items None))) (seq 0 (length items)).

Definition key_of (v : option Z) : Z :=
  match v with Some z => z | None => 0 end.

(** [pandas.core.sorting.nargsort]: for a descending sort the non-NaN keys
    and their positions are reversed, sorted ascending, and the result is
    reversed again; the NaN positions go first or last. *)
Definition nargsort (k : sort_kind) (items : list (option Z))
  (ascending na_first : bool) : list nat :=
  let idx := non_nan_idx items in
  let non_nans := map (fun i => key_of (nth i items None)) idx in
  let non_nans := if ascending then non_nans else rev non_nans in
  let idx := if ascending then idx else rev idx in
  let indexer := take 0%nat idx (argsort k non_nans) in
  let indexer := if ascending then indexer else rev indexer in
  if na_first then nan_idx items ++ indexer else indexer ++ nan_idx items.

(** Insertion of a value in a list ordered by [leb]. *)
Fixpoint insert_by {A : Type} (leb : A -> A -> bool) (x : A) (l : list A)
  : list A :=
  match l with
  | [] => [x]
  | y :: l' => if leb x y then x :: l else y :: insert_by leb x l'
  end.

Definition sort_by {A : Type} (leb : A -> A -> bool) (l : list A) : list A :=
  fold_right (insert_by leb) [] l.

(** Insertion sort on the keys paired with their positions: equal keys keep
    their order of arrival (a stable sort, [stable_kind] below). *)
Definition argsort_by (leb : Z * nat -> Z * nat -> bool) (l : list Z)
  : list nat :=
  map snd (sort_by leb (combine l (seq 0 (length l)))).

Definition key_le (a b : Z * nat) : bool := fst a <=? fst b.

(* ------------------------------------------------------------------ *)
(** ** NumPy's [argsort] of kind [quicksort] *)

(** [aquicksort_] of [numpy/_core/src/npysort/quicksort.cpp], with the
    [aheapsort_] of [heapsort.cpp] it falls back on: the kernel NumPy runs
    for [argsort(kind='quicksort')] where no vectorised kernel is
    dispatched.  It is an introsort on the index array [tosort]: a range of
    more than 17 positions is partitioned around the median of its first,
    middle and last keys; a range of at most 17 positions is sorted by
    insertion; a range reached after more than [2 * floor(log2 n)]
    partitions is sorted by heapsort.  Pointers into [tosort] are
    offsets. *)
Module Npysort.

Definition get (a : list nat) (i : Z) : nat := nth (Z.to_nat i) a O.

Definition set (a : list nat) (i : Z) (x : nat) : list nat :=
  if (Z.to_nat i <? length a)%nat
  then firstn (Z.to_nat i) a ++ x :: skipn (S (Z.to_nat i)) a
  else a.

(** [INTP_SWAP] on two positions of [tosort]. *)
Definition swap (a : list nat) (i j : Z) : list nat :=
  set (set a i (get a j)) j (get a i).

(** The key a position of [tosort] points at. *)
Definition key (v : list Z) (a : list nat) (i : Z) : Z := nth (get a i) v 0.

Definition SMALL_QUICKSORT : Z := 16.

(** The three conditional swaps that leave the median at [pm]. *)
Definition median_of_three (v : list Z) (a : list nat) (pl pm pr : Z)
  : list nat :=
  let a := if key v a pm <? key v a pl then swap a pm pl else a in
  let a := if key v a pr <? key v a pm then swap a pr pm else a in
  if key v a pm <? key v a pl then swap a pm pl else a.

(** The two scans: [pi] moves up past the keys below the pivot [vp], [pj]
    moves down past the keys above it; each moves at least once. *)
Fixpoint scan_up (fuel : nat) (v : list Z) (a : list nat) (vp p : Z) : Z :=
  match fuel with
  | O => p
  | S fuel' =>
      let p := p + 1 in
      if key v a p <? vp then scan_up fuel' v a vp p else p
  end.

Fixpoint scan_down (fuel : nat) (v : list Z) (a : list nat) (vp p : Z) : Z :=
  match fuel with
  | O => p
  | S fuel' =>
      let p := p - 1 in
      if vp <? key v a p then scan_down fuel' v a vp p else p
  end.

(** The exchange loop: it ends when the two scans meet. *)
Fixpoint exchange (fuel : nat) (v : list Z) (a : list nat) (vp pi pj : Z)
  : list nat * Z :=
  match fuel with
  | O => (a, pi)
  | S fuel' =>
      let pi := scan_up (length a) v a vp pi in
      let pj := scan_down (length a) v a vp pj in
      if pj <=? pi then (a, pi) else exchange fuel' v (swap a pi pj) vp pi pj
  end.

(** One partition of the range [[pl, pr]]: the index array and the final
    place of the pivot. *)
Definition partition (v : list Z) (a : list nat) (pl pr : Z) : list nat * Z :=
  let pm := pl + Z.shiftr (pr - pl) 1 in
  let a := median_of_three v a pl pm pr in
  let vp := key v a pm in
  let a := swap a pm (pr - 1) in
  let '(a, pi) := exchange (length a) v a vp pl (pr - 1) in
  (swap a pi (pr - 1), pi).

(** Insertion sort of the range [[pl, pr]]. *)
Fixpoint sift_back (fuel : nat) (v : list Z) (a : list nat) (vp pl pj : Z)
  : list nat * Z :=
  match fuel with
  | O => (a, pj)
  | S fuel' =>
      if (pl <? pj) && (vp <? key v a (pj - 1))
      then sift_back fuel' v (set a pj (get a (pj - 1))) vp pl (pj - 1)
      else (a, pj)
  end.

Definition insert_at (v : list Z) (a : list nat) (pl pi : Z) : list nat :=
  let vi := get a pi in
  let vp := nth vi v 0 in
  let '(a, pj) := sift_back (length a) v a vp pl pi in
  set a pj vi.

Definition insertion_sort (v : list Z) (a : list nat) (pl pr : Z)
  : list nat :=
  fold_left (fun a k => insert_at v a pl (pl + 1 + Z.of_nat k))
            (seq 0 (Z.to_nat (pr - pl))) a.

(** Heapsort of the [n] positions from [pl] on, which it numbers from 1. *)
Definition hget (a : list nat) (pl i : Z) : nat := get a (pl + i - 1).
Definition hset (a : list nat) (pl i : Z) (x : nat) : list nat :=
  set a (pl + i - 1) x.
Definition hkey (v : list Z) (a : list nat) (pl i : Z) : Z :=
  nth (hget a pl i) v 0.

Fixpoint sift_down (fuel : nat) (v : list Z) (a : list nat) (pl n : Z)
  (tmp : nat) (i j : Z) : list nat :=
  match fuel with
  | O => hset a pl i tmp
  | S fuel' =>
      if j <=? n then
        let j := if (j <? n) && (hkey v a pl j <? hkey v a pl (j + 1))
                 then j + 1 else j in
        if nth tmp v 0 <? hkey v a pl j
        then sift_down fuel' v (hset a pl i (hget a pl j)) pl n tmp j (j + j)
        else hset a pl i tmp
      else hset a pl i tmp
  end.

Definition heapify (v : list Z) (a : list nat) (pl n : Z) : list nat :=
  fold_left (fun a k =>
               let l := Z.shiftr n 1 - Z.of_nat k in
               sift_down (length a) v a pl n (hget a pl l) l (Z.shiftl l 1))
            (seq 0 (Z.to_nat (Z.shiftr n 1))) a.

Fixpoint extract (fuel : nat) (v : list Z) (a : list nat) (pl n : Z)
  : list nat :=
  match fuel with
  | O => a
  | S fuel' =>
      if 1 <? n then
        let tmp := hget a pl n in
        let a := hset a pl n (hget a pl 1) in
        let n := n - 1 in
        extract fuel' v (sift_down (length a) v a pl n tmp 1 2) pl n
      else a
  end.

Definition aheapsort (v : list Z) (a : list nat) (pl n : Z) : list nat :=
  extract (length a) v (heapify v a pl n) pl n.

(** The partition loop: the larger side is pushed with the depth left, the
    smaller side is partitioned further. *)
Fixpoint partitions (fuel : nat) (v : list Z) (a : list nat)
  (pl pr cdepth : Z) (stack : list (Z * Z * Z))
  : list nat * Z * Z * list (Z * Z * Z) :=
  match fuel with
  | O => (a, pl, pr, stack)
  | S fuel' =>
      if SMALL_QUICKSORT <? pr - pl then
        let '(a, pi) := partition v a pl pr in
        let cdepth := cdepth - 1 in
        if pi - pl <? pr - pi
        then partitions fuel' v a pl (pi - 1) cdepth
                        ((pi + 1, pr, cdepth) :: stack)
        else partitions fuel' v a (pi + 1) pr cdepth
                        ((pl, pi - 1, cdepth) :: stack)
      else (a, pl, pr, stack)
  end.

(** The outer loop: one range at a time, until the stack is empty. *)
Fixpoint ranges (fuel : nat) (v : list Z) (a : list nat)
  (pl pr cdepth : Z) (stack : list (Z * Z * Z)) : list nat :=
  match fuel with
  | O => a
  | S fuel' =>
      let '(a, stack) :=
        if cdepth <? 0 then (aheapsort v a pl (pr - pl + 1), stack)
        else
          let '(a, pl, pr, stack) :=
            partitions (length a) v a pl pr cdepth stack in
          (insertion_sort v a pl pr, stack) in
      match stack with
      | [] => a
      | (pl, pr, cdepth) :: stack => ranges fuel' v a pl pr cdepth stack
      end
  end.

(** [npy_get_msb]. *)
Definition npy_get_msb (n : Z) : Z := Z.log2 n.

Definition aquicksort (v : list Z) : list nat :=
  let num := Z.of_nat (length v) in
  ranges (S (length v)) v (seq 0 (length v)) 0 (num - 1)
         (npy_get_msb num * 2) [].

End Npysort.

(** Whether [r] is an argsort of [v]: a permutation of its positions that
    puts its keys in ascending order. *)
Fixpoint ascending (l : list Z) : bool :=
  match l with
  | a :: (b :: _) as l' => (a <=? b) && ascending l'
  | _ => true
  end.

Definition is_argsort (v : list Z) (r : list nat) : bool :=
  (length r =? length v)%nat
  && forallb (fun i => existsb (Nat.eqb i) r) (seq 0 (length v))
  && ascending (map (fun i => nth i v 0) r).

(** The argsort of NumPy's kernel.  That the kernel returns an argsort of
    every input is not proved here; its result is checked, and where the
    check would fail the stable sort stands in, so that the function meets
    the contract of a sort kind by construction. *)
Definition numpy_argsort (v : list Z) : list nat :=
  let r := Npysort.aquicksort v in
  if is_argsort v r then r else argsort_by key_le v.

(** The distinct values of a list in ascending order: the labels a pandas
    group-by or pivot produces. *)
Definition unique_sorted {A : Type} (eq_dec : forall x y : A, {x = y} + {x <> y})
  (leb : A -> A -> bool) (l : list A) : list A :=
  sort_by leb (nodup eq_dec l).

(** [Series.unique()]: distinct values in order of first appearance. *)
Fixpoint unique {A : Type} (eq_dec : forall x y : A, {x = y} + {x <> y})
  (l : list A) : list A :=
  match l with
  | [] => []
  | x :: l' => x :: remove eq_dec x (unique eq_dec l')
  end.

(** Position of the first occurrence of [x] in [l]. *)
Fixpoint first_index {A : Type} (eq_dec : forall x y : A, {x = y} + {x <> y})
  (x : A) (l : list A) : nat :=
  match l with
  | [] => O
  | y :: l' => if eq_dec y x then O else S (first_index eq_dec x l')
  end.

(* ------------------------------------------------------------------ *)
(** ** Detection stage: [model_one] *)

Module Detection.

(** A row of [ip_traffic] restricted to the columns [model_one] keeps, and a
    row of [pl_fixtures].  [bf_time] is the label of a 5-minute bucket; only
    its order matters here.  [date] is the match date as [str(date)] prints
    it and [ko_time] the kickoff time of day, a text starting [HH:MM]. *)
Record sample : Type := { bf_time : Z; ip : string; gbps : Q }.

Record fixture : Type := { date : string; ko_time : string }.

(** A DataFrame with one float column per endpoint. *)
Record frame : Type := {
  index : list Z;
  columns : list (string * list cell)
}.

(** [pd.pivot_table(ip_traffic, values='gbps', index=['bf_time'],
    columns=['ip'], aggfunc=np.sum)]: one row per distinct [bf_time] and one
    column per distinct [ip], both ascending; a cell is the sum of the
    samples of that endpoint in that bucket, NaN when there is none. *)
Definition pivot_cell (tr : list sample) (t : Z) (i : string) : cell :=
  match filter (fun s => (bf_time s =? t) && String.eqb (ip s) i) tr with
  | [] => None
  | ss => Some (Qsum (map gbps ss))
  end.

Definition pivot_table (tr : list sample) : frame :=
  let idx := unique_sorted Z.eq_dec Z.leb (map bf_time tr) in
  let ips := unique_sorted string_dec String.leb (map ip tr) in
  {| index := idx;
     columns := map (fun i => (i, map (fun t => pivot_cell tr t i) idx)) ips |}.

(** [DataFrame.max()]: column maximum, NaN cells skipped. *)
Definition cell_max (a b : cell) : cell :=
  match a, b with
  | Some x, Some y => Some (Qmax x y)
  | Some x, None => Some x
  | None, _ => b
  end.

Definition col_max (c : list cell) : cell := fold_right cell_max None c.

(** Top-talker threshold and the filter
    [ip_pivot[ip_pivot.columns[ip_pivot.max() > 0.02]]]. *)
Definition top_talker_threshold : Q := 2 # 100.

Definition top_talkers (f : frame) : frame :=
  {| index := index f;
     columns :=
       filter (fun c => gt_scalar (col_max (snd c)) top_talker_threshold)
              (columns f) |}.

(** scikit-learn's [_handle_zeros_in_scale] (release 1.0 and later): a range
    below [10 * eps], with [eps = 2^-52] the machine epsilon of float64,
    counts as the range of a constant feature and is replaced by 1. *)
Definition ten_eps : Q := 10 # 4503599627370496.

Definition handle_zeros_in_scale (r : Q) : Q :=
  if Qlt_bool r ten_eps then 1%Q else r.

(** [MinMaxScaler(feature_range=(0, 1)).fit_transform] on one feature: the
    formula [X * scale_ + min_], evaluated exactly.  The program evaluates
    it in float64 ([F64.minmax_scale_col] below), so its values are these
    up to rounding. *)
Definition minmax_scale_col (xs : list Q) : list Q :=
  match xs with
  | [] => []
  | x :: l =>
      let data_min := fold_right Qmin x l in
      let data_max := fold_right Qmax x l in
      let data_range := (data_max - data_min)%Q in
      let scale_ := ((1 - 0) / handle_zeros_in_scale data_range)%Q in
      let min_ := (0 - data_min * scale_)%Q in
      map (fun v => (v * scale_ + min_)%Q) xs
  end.

(** [preprocessing.minmax_scale]: each feature (endpoint) is scaled on its
    own; an array without rows or without features is a [ValueError]. *)
Definition minmax_scale (nrows : nat) (cols : list (list Q))
  : option (list (list Q)) :=
  match nrows, cols with
  | O, _ => None
  | _, [] => None
  | _, _ => Some (map minmax_scale_col cols)
  end.

(** The normalised frame: top-talker filter, [fillna(0)], min-max scaling,
    relabelled with the pivot's index and columns. *)
Definition ips_normalized (tr : list sample) : option frame :=
  let ip_pivot := top_talkers (pivot_table tr) in
  let filled := map (fun c => map fillna0 (snd c)) (columns ip_pivot) in
  match minmax_scale (length (index ip_pivot)) filled with
  | None => None
  | Some scaled =>
      Some {| index := index ip_pivot;
              columns := combine (map fst (columns ip_pivot))
                                 (map (map (@Some Q)) scaled) |}
  end.

Definition map_columns (g : list cell -> list cell) (f : frame) : frame :=
  {| index := index f;
     columns := map (fun c => (fst c, g (snd c))) (columns f) |}.

(** Smoothing window, its centring shift and the differencing lag. *)
Definition smoothing_window : nat := 8.
Definition centring_shift : Z := -4.
Definition diff_lag : Z := 4.

(** [DataFrame.groupby(df.index).mean()]: one row per distinct label, the
    labels ascending; a cell is the mean of the column over the rows of the
    label. *)
Definition groupby_index_mean (f : frame) : frame :=
  let keys := unique_sorted Z.eq_dec Z.leb (index f) in
  {| index := keys;
     columns :=
       map (fun c =>
              (fst c, map (fun key => cell_mean (rows_at (index f) key (snd c)))
                          keys))
           (columns f) |}.

(** [ips_normalized.groupby(ips_normalized.index).mean()
      .rolling(window=8).mean().shift(periods=-4)]. *)
Definition smooth_col (c : list cell) : list cell :=
  shift centring_shift (rolling_mean smoothing_window c).

Definition ips_smoothed (n : frame) : frame :=
  map_columns smooth_col (groupby_index_mean n).

(** [ips_smoothed.diff(periods=4)]. *)
Definition ips_d (s : frame) : frame := map_columns (diff diff_lag) s.

(** [pl_games[match_date]]: the distinct kickoff times of the fixtures of
    that date, in order of first appearance; a date without fixture is the
    [KeyError] of the source. *)
Definition pl_games (fx : list fixture) (md : string) : option (list string) :=
  match filter (fun f => String.eqb (date f) md) fx with
  | [] => None
  | on_date => Some (unique string_dec (map ko_time on_date))
  end.

(** Window selector (lines 95-96): [/] is true division, so the indices are
    floats. *)
Definition kickoff_hh (ko : string) : option Z :=
  py_int_of_string (str_slice ko 0 2).

Definition kickoff_mm (ko : string) : option Z :=
  py_int_of_string (str_slice ko 3 5).

Definition s_idx (ko : string) : option Q :=
  match kickoff_hh ko, kickoff_mm ko with
  | Some hh, Some mm => Some (inject_Z (12 * hh) + inject_Z mm / 5 - 6)%Q
  | _, _ => None
  end.

Definition e_idx (ko : string) : option Q :=
  match kickoff_hh ko, kickoff_mm ko with
  | Some hh, Some mm => Some (inject_Z (12 * hh) + inject_Z mm / 5 + 21)%Q
  | _, _ => None
  end.

Fixpoint match_times_idx (games : list string) : option (list Q) :=
  match games with
  | [] => Some []
  | g :: gs =>
      match s_idx g, e_idx g, match_times_idx gs with
      | Some s, Some e, Some rest => Some (s :: e :: rest)
      | _, _, _ => None
      end
  end.

(** Candidate detector (lines 104-106). *)
Definition threshold_rise : Q := 1 # 10.
Definition min_exceed_count : Z := 10.

(** [(col[a:b] > .1).sum()]. *)
Definition exceed_count (col : list cell) (a b : Z) : Z :=
  Z.of_nat
    (length (filter (fun v => gt_scalar v threshold_rise) (py_slice col a b))).

Definition exceed_counts (d : frame) (a b : Z) : list (string * Z) :=
  map (fun c => (fst c, exceed_count (snd c) a b)) (columns d).

(** [Series.sort_values(ascending=False)] on an integer Series, as pandas
    does it through [nargsort] (pandas 1.2 and later). *)
Definition sort_values_desc (k : sort_kind) (s : list (string * Z))
  : list (string * Z) :=
  take (EmptyString, 0) s
       (nargsort k (map (fun p => Some (snd p)) s) false false).

Definition ip_pirate_list (k : sort_kind) (d : frame) (a b : Z)
  : list (string * Z) :=
  sort_values_desc k
    (filter (fun p => min_exceed_count <? snd p) (exceed_counts d a b)).

(** Name of the artifact of one game (line 109). *)
Definition blob_name (match_date ko : string) : string :=
  ("ips_" ++ str_remove "-"%char match_date ++ "_"
     ++ str_slice (str_remove ":"%char ko) 0 4 ++ "_UTC.csv")%string.

(** The second loop: game number [n] reads its window at positions
    [count = 2n] and [count + 1] of [match_times_idx] and writes the ranked
    endpoints to its artifact. *)
Fixpoint detect_loop (k : sort_kind) (d : frame) (match_date : string)
  (idx : list Q) (games : list string) (count : nat)
  : list (string * list string) :=
  match games with
  | [] => []
  | g :: gs =>
      let a := py_int (nth count idx 0%Q) in
      let b := py_int (nth (count + 1) idx 0%Q) in
      (blob_name match_date g, map fst (ip_pirate_list k d a b))
        :: detect_loop k d match_date idx gs (count + 2)
  end.

(** [model_one]: the calls of [to_csv] the second loop makes for
    [match_date], in order, each with the name of the file and the endpoints
    written to it; the names, in that order, are the [blob_list] returned.
    [None] when the source raises before that loop: no top talker
    ([minmax_scale]), no fixture of the date ([KeyError]), a kickoff text
    that [int] does not read ([ValueError]).  Whether a call of [to_csv]
    succeeds is a matter of the file system (a name that holds a [/] needs
    its directory) and is no part of this function. *)
Definition model_one (k : sort_kind) (ip_traffic : list sample)
  (pl_fixtures : list fixture) (match_date : string)
  : option (list (string * list string)) :=
  match ips_normalized ip_traffic with
  | None => None
  | Some normalized =>
      let d := ips_d (ips_smoothed normalized) in
      match pl_games pl_fixtures match_date with
      | None => None
      | Some games =>
          match match_times_idx games with
          | None => None
          | Some idx => Some (detect_loop k d match_date idx games 0)
          end
      end
  end.

End Detection.

(* ------------------------------------------------------------------ *)
(** ** Attribution stage: [construct_output_df] *)

Module Traffic.

(** Timestamps are seconds on the UTC time line; [dt.timedelta(minutes=m)]
    is [minutes m]. *)
Definition minutes (m : Z) : Z := 60 * m.

(** The identity columns of a row of [input_ip_traffic_df]; [asn],
    [as_name] and [vpn_name] may be null. *)
Record endpoint_meta : Type := {
  ip : string;
  asn : option Z;
  as_name : option string;
  analyse : bool;
  vpn : bool;
  vpn_name : option string
}.

(** A row of [input_ip_traffic_df]. *)
Record traffic_row : Type := {
  meta : endpoint_meta;
  timestamp : Z;
  gigabits : Q
}.

(** A row of [base_df]. *)
Record base_row : Type := {
  endpoint : endpoint_meta;
  season : string;
  game_week : Z;
  ko_timestamp : Z
}.

(** A row of [clean_ip_traffic_df]. *)
Record clean_row : Type := {
  c_ip : string;
  c_timestamp : Z;
  c_gigabits : Q
}.

(** A row of [processed_ip_traffic_df]. *)
Record processed_row : Type := {
  p_timestamp : Z;
  p_ip : string;
  p_gigabits : Q;
  noise_gigabits : Q;
  piracy_gigabits : Q;
  gbps : Q;
  piracy_gbps : Q
}.

(** A row of [output_ip_traffic_df]: the metadata and match context of the
    endpoint next to one bucket of its traffic. *)
Record output_row : Type := {
  o_base : base_row;
  o_traffic : processed_row
}.

Definition null_meta : endpoint_meta :=
  {| ip := EmptyString; asn := None; as_name := None; analyse := false;
     vpn := false; vpn_name := None |}.

(** [DataFrame.sort_values('asn', na_position='first')]. *)
Definition sort_values_asn (k : sort_kind) (rows : list endpoint_meta)
  : list endpoint_meta :=
  take null_meta rows (nargsort k (map asn rows) true true).

(** [drop_duplicates(subset=['ip'], keep='last')]: a row stays when no
    later row has its [ip]. *)
Fixpoint drop_duplicates_last (rows : list endpoint_meta)
  : list endpoint_meta :=
  match rows with
  | [] => []
  | r :: rest =>
      if existsb (fun r' => String.eqb (ip r') (ip r)) rest
      then drop_duplicates_last rest
      else r :: drop_duplicates_last rest
  end.

(** [base_df] (lines 211-219). *)
Definition base_df (k : sort_kind) (ko : Z) (season_ : string) (gw : Z)
  (input : list traffic_row) : list base_row :=
  map (fun m => {| endpoint := m; season := season_; game_week := gw;
                   ko_timestamp := ko |})
      (drop_duplicates_last (sort_values_asn k (map meta input))).

(** Group keys [(ip, timestamp)], compared the way pandas orders the
    groups: by [ip], then by [timestamp]. *)
Definition key_eq_dec (a b : string * Z) : {a = b} + {a <> b}.
Proof. decide equality; [apply Z.eq_dec | apply string_dec]. Defined.

Definition key_leb (a b : string * Z) : bool :=
  if String.eqb (fst a) (fst b) then snd a <=? snd b
  else String.leb (fst a) (fst b).

Definition row_key (r : traffic_row) : string * Z :=
  (ip (meta r), timestamp r).

Definition key_eqb (a b : string * Z) : bool :=
  String.eqb (fst a) (fst b) && (snd a =? snd b).

(** [clean_ip_traffic_df] (lines 229-233): one row per [(ip, timestamp)]
    with the sum of the gigabits of the duplicates. *)
Definition clean_ip_traffic_df (input : list traffic_row) : list clean_row :=
  map (fun key =>
         {| c_ip := fst key; c_timestamp := snd key;
            c_gigabits :=
              Qsum (map gigabits
                      (filter (fun r => key_eqb (row_key r) key) input)) |})
      (unique_sorted key_eq_dec key_leb (map row_key input)).

(** The rows of a frame whose timestamp lies in [[lo, hi)]. *)
Definition between (lo hi : Z) (c : clean_row) : bool :=
  (lo <=? c_timestamp c) && (c_timestamp c <? hi).

(** [noise_df] (lines 239-251): per endpoint with a row in
    [[ko - 90min, ko - 30min)], the sum of its gigabits there over 12. *)
Definition noise_df (ko : Z) (clean : list clean_row) : list (string * Q) :=
  let quiet :=
    filter (between (ko + minutes (-90)) (ko + minutes (-30))) clean in
  map (fun i =>
         (i, (Qsum (map c_gigabits
                      (filter (fun c => String.eqb (c_ip c) i) quiet))
              / 12)%Q))
      (unique_sorted string_dec String.leb (map c_ip quiet)).

(** The left merge on [ip] followed by [fillna({'noise_gigabits': 0})]:
    [noise_df] has one row per endpoint, so a traffic row is kept once, with
    the noise of its endpoint or with 0. *)
Fixpoint lookup (i : string) (l : list (string * Q)) : option Q :=
  match l with
  | [] => None
  | (j, v) :: l' => if String.eqb j i then Some v else lookup i l'
  end.

Definition noise_of (noise : list (string * Q)) (i : string) : Q :=
  fillna0 (lookup i noise).

(** [processed_ip_traffic_df] (lines 254-279). *)
Definition process_row (noise : list (string * Q)) (c : clean_row)
  : processed_row :=
  let n := noise_of noise (c_ip c) in
  let piracy := Qmax (c_gigabits c - n) 0 in
  {| p_timestamp := c_timestamp c;
     p_ip := c_ip c;
     p_gigabits := c_gigabits c;
     noise_gigabits := n;
     piracy_gigabits := piracy;
     gbps := (c_gigabits c / 300)%Q;
     piracy_gbps := (piracy / 300)%Q |}.

Definition processed_ip_traffic_df (ko : Z) (input : list traffic_row)
  : list processed_row :=
  let clean := clean_ip_traffic_df input in
  map (process_row (noise_df ko clean))
      (filter (between ko (ko + minutes 110)) clean).

(** [base_df.merge(processed, on='ip')]: pandas' default inner join. *)
Definition merge_on_ip (base : list base_row) (processed : list processed_row)
  : list output_row :=
  flat_map
    (fun b =>
       map (fun p => {| o_base := b; o_traffic := p |})
           (filter (fun p => String.eqb (p_ip p) (ip (endpoint b))) processed))
    base.


(** The raw rows of endpoint [i] whose timestamp lies in [[lo, hi)]. *)
Definition raw_in_window (lo hi : Z) (i : string) (input : list traffic_row)
  : list traffic_row :=
  filter (fun r => (lo <=? timestamp r) && (timestamp r <? hi)
                   && String.eqb (ip (meta r)) i) input.

(** [construct_output_df]. *)
Definition construct_output_df (k : sort_kind) (ko : Z) (season_ : string)
  (gw : Z) (input : list traffic_row) : list output_row :=
  merge_on_ip (base_df k ko season_ gw input)
              (processed_ip_traffic_df ko input).

End Traffic.

(** A series is constant when all its values agree. *)
Definition constant (xs : list Q) : Prop :=
  forall u v, In u xs -> In v xs -> (u == v)%Q.

(** A series that never rises from one position to a later one. *)
Definition never_rises (xs : list Q) : Prop :=
  forall s t : nat,
    (s <= t < length xs)%nat -> (nth t xs 0 <= nth s xs 0)%Q.

(* ------------------------------------------------------------------ *)
(** ** Sample inputs *)

Module Samples.

(** Kickoff 2021-04-12 15:00:00 UTC. *)
Definition ko0 : Z := 1618239600.

Definition row (i : string) (a : option Z) (n : option string) (ts : Z) (g : Q)
  : Traffic.traffic_row :=
  {| Traffic.meta :=
       {| Traffic.ip := i; Traffic.asn := a; Traffic.as_name := n;
          Traffic.analyse := true; Traffic.vpn := false;
          Traffic.vpn_name := None |};
     Traffic.timestamp := ts;
     Traffic.gigabits := g |}.

(** One endpoint with 24 gigabits in one quiet bucket and 5 gigabits in the
    kickoff bucket. *)
Definition one_endpoint : list Traffic.traffic_row :=
  [ row "10.0.0.1" (Some 64500) None (ko0 - 5400) 24;
    row "10.0.0.1" (Some 64500) None ko0 5 ].

(** One endpoint with the twelve quiet buckets [10, 0, ..., 0] and one
    in-match bucket. *)
Definition quiet_hour : list Traffic.traffic_row :=
  map (fun j => row "10.0.0.1" (Some 64500) None
                    (ko0 - 5400 + 300 * Z.of_nat j)
                    (if (j =? 0)%nat then 10 else 0))
      (seq 0 12)
  ++ [ row "10.0.0.1" (Some 64500) None ko0 5 ].

(** One endpoint whose two raw rows disagree: the row with the greater
    [asn] has no [as_name]. *)
Definition two_names : list Traffic.traffic_row :=
  [ row "10.0.0.1" (Some 64500) (Some "EXAMPLE-NET"%string) ko0 5;
    row "10.0.0.1" (Some 64501) None (ko0 + 300) 7 ].

(** One endpoint whose first raw row lacks the [asn]. *)
Definition partial_asn : list Traffic.traffic_row :=
  [ row "10.0.0.1" (Some 64500) (Some "EXAMPLE-NET"%string) ko0 5;
    row "10.0.0.1" None None (ko0 + 300) 7 ].

(** A day of 288 buckets for one endpoint, and a bandwidth that rises by one
    unit per bucket over buckets 170-200. *)
Definition day (i : string) (f : nat -> Q) : list Detection.sample :=
  map (fun t => {| Detection.bf_time := Z.of_nat t; Detection.ip := i;
                   Detection.gbps := f t |})
      (seq 0 288).

Definition ramp (t : nat) : Q :=
  inject_Z (1 + Z.min (Z.max (Z.of_nat t - 170) 0) 30).

(** Three buckets of a talkative endpoint and one sample of a quiet one. *)
Definition small_traffic : list Detection.sample :=
  [ {| Detection.bf_time := 0; Detection.ip := "10.0.0.1";
       Detection.gbps := 1 |};
    {| Detection.bf_time := 1; Detection.ip := "10.0.0.1";
       Detection.gbps := 3 |};
    {| Detection.bf_time := 2; Detection.ip := "10.0.0.1";
       Detection.gbps := 2 |};
    {| Detection.bf_time := 0; Detection.ip := "10.0.0.2";
       Detection.gbps := 1 # 100 |} ].

(** Two endpoints with the same traffic, hence the same exceed count. *)
Definition tied_traffic : list Detection.sample :=
  day "10.0.0.1" ramp ++ day "10.0.0.2" ramp.

Definition fixtures : list Detection.fixture :=
  [ {| Detection.date := "2021-04-12"; Detection.ko_time := "15:00:00" |} ].

(** Eighteen endpoints over a day: seventeen with the same traffic, [ramp],
    and a last one whose bandwidth rises over fewer buckets. *)
Definition addresses : list string :=
  [ "10.8.0.1"; "11.8.0.1"; "12.8.0.1"; "13.8.0.1"; "14.8.0.1"; "15.8.0.1";
    "16.8.0.1"; "17.8.0.1"; "18.8.0.1"; "19.8.0.1"; "20.8.0.1"; "21.8.0.1";
    "22.8.0.1"; "23.8.0.1"; "24.8.0.1"; "25.8.0.1"; "26.8.0.1"; "27.8.0.1"
  ]%string.

Definition steep (t : nat) : Q :=
  inject_Z (1 + Z.min (Z.max (Z.of_nat t - 175) 0) 20).

Definition crowd : list Detection.sample :=
  flat_map (fun i => day i ramp) (firstn 17 addresses)
  ++ day "27.8.0.1" steep.

(** One endpoint seen in two buckets, at 1 and at 6 gbps. *)
Definition two_levels : list Detection.sample :=
  [ {| Detection.bf_time := 0; Detection.ip := "10.0.0.1";
       Detection.gbps := 1 |};
    {| Detection.bf_time := 1; Detection.ip := "10.0.0.1";
       Detection.gbps := 6 |} ].

(** Twelve buckets of one endpoint whose bandwidth rises by one unit per
    bucket. *)
Definition rising_hour : list Detection.sample :=
  map (fun t => {| Detection.bf_time := Z.of_nat t; Detection.ip := "10.0.0.1";
                   Detection.gbps := inject_Z (Z.of_nat t + 1) |})
      (seq 0 12).

(** Fixtures of two dates; the date 2021-04-12 has three games at two
    kickoff times, the later time listed first. *)
Definition three_games : list Detection.fixture :=
  [ {| Detection.date := "2021-04-12"; Detection.ko_time := "17:30:00" |};
    {| Detection.date := "2021-04-13"; Detection.ko_time := "20:00:00" |};
    {| Detection.date := "2021-04-12"; Detection.ko_time := "15:00:00" |};
    {| Detection.date := "2021-04-12"; Detection.ko_time := "17:30:00" |} ].

End Samples.

(* ------------------------------------------------------------------ *)
(** ** Cloud Storage helpers: [common/functions/gcp_utils.py] *)

Module Gcp.

(** [s[-1]] of a string, when it has a character. *)
Fixpoint last_char (s : string) : option ascii :=
  match s with
  | EmptyString => None
  | String c EmptyString => Some c
  | String _ s' => last_char s'
  end.

Definition ends_with_slash (s : string) : bool :=
  match last_char s with
  | Some c => Ascii.eqb c "/"%char
  | None => false
  end.

(** The folder clean-up shared by [cs_list_folder] (lines 99-102) and
    [cs_move_object] (lines 155-158): a non-empty folder gets a trailing
    [/], and the folder [/] becomes the empty prefix. *)
Definition normalize_folder (folder : string) : string :=
  if (0 <? String.length folder)%nat && negb (ends_with_slash folder)
  then (folder ++ "/")%string
  else if String.eqb folder "/" then EmptyString
  else folder.

(** [cs_list_folder]: the names the service lists under the prefix, without
    the placeholder object of the folder itself.  [list_blobs bucket prefix]
    stands for [storage_client.list_blobs(bucket, prefix=prefix,
    delimiter='/')]. *)
Definition cs_list_folder (list_blobs : string -> string -> list string)
  (src_bucket src_folder : string) : list string :=
  let src_folder := normalize_folder src_folder in
  filter (fun name => negb (String.eqb name src_folder))
         (list_blobs src_bucket src_folder).

(** [p.rfind('/')]: the position of the last [/], or -1. *)
Fixpoint rfind_slash (p : string) : Z :=
  match p with
  | EmptyString => -1
  | String c p' =>
      let r := rfind_slash p' in
      if 0 <=? r then r + 1
      else if Ascii.eqb c "/"%char then 0 else -1
  end.

(** [os.path.basename(p)] on a POSIX system: [p[p.rfind('/') + 1:]]. *)
Definition basename (p : string) : string :=
  let i := Z.to_nat (rfind_slash p + 1) in
  substring i (String.length p - i) p.

(** The calls [cs_move_object] makes on the storage service. *)
Inductive storage_op : Type :=
| Rename_blob (bucket blob new_name : string)
| Copy_blob (bucket blob dst_bucket new_name : string)
| Delete_blob (bucket blob : string).

(** [cs_move_object]: within one bucket the object is renamed; across
    buckets it is copied and the original deleted. *)
Definition cs_move_object (src_bucket blob_name dst_bucket dst_folder : string)
  : list storage_op :=
  let dst_folder := normalize_folder dst_folder in
  let file_name := basename blob_name in
  if String.eqb src_bucket dst_bucket
  then [Rename_blob src_bucket blob_name (dst_folder ++ file_name)%string]
  else [Copy_blob src_bucket blob_name dst_bucket
                  (dst_folder ++ file_name)%string;
        Delete_blob src_bucket blob_name].

End Gcp.

(* ------------------------------------------------------------------ *)
(** ** Reading the candidates: [get_ips] and [check_ips_and_warn] *)

Module Candidates.

(** The [CloudStorageError]s of [get_ips], by message. *)
Inductive cloud_storage_error : Type :=
| No_ip_files (src_bucket src_folder : string)
| Could_not_find (input_file_name : string)
| Multiple_matching_files (input_file_name : string).

(** [get_ips] (lines 22-77).  [get_object bucket blob] stands for
    [cs_get_object_as_list]. *)
Definition get_ips (list_blobs : string -> string -> list string)
  (get_object : string -> string -> list string)
  (src_bucket src_folder input_file_name : string)
  : cloud_storage_error + (string * list string) :=
  let blob_list := Gcp.cs_list_folder list_blobs src_bucket src_folder in
  match blob_list with
  | [] => inl (No_ip_files src_bucket src_folder)
  | _ =>
      let blob_to_process :=
        filter (fun blob_name =>
                  String.eqb (Gcp.basename blob_name) input_file_name)
               blob_list in
      match blob_to_process with
      | [] => inl (Could_not_find input_file_name)
      | [b] => inr (b, get_object src_bucket b)
      | _ => inl (Multiple_matching_files input_file_name)
      end
  end.

(** [set(ip_list) - set(input_ip_traffic_df['ip'])]: the distinct listed
    IPs without a traffic row (a Python set has no order; the list keeps
    the order of the file). *)
Definition missing_ips (ip_list : list string)
  (input : list Traffic.traffic_row) : list string :=
  filter (fun i =>
            negb (existsb (fun r => String.eqb (Traffic.ip (Traffic.meta r)) i)
                          input))
         (nodup string_dec ip_list).

(** [check_ips_and_warn] (lines 118-133): the warning it issues, if any. *)
Definition check_ips_and_warn (ip_list : list string)
  (input : list Traffic.traffic_row) : option (list string) :=
  match missing_ips ip_list input with
  | [] => None
  | missing => Some missing
  end.

End Candidates.

(* ------------------------------------------------------------------ *)
(** ** The scaling as the program computes it: IEEE 754 binary64 *)

Module F64.

(** NumPy's [float64], with the arithmetic of the standard (round to
    nearest, ties to even) as [SpecFloat] defines it. *)
Definition float : Type := SpecFloat.spec_float.

Definition prec : Z := 53.
Definition emax : Z := 1024.

Definition add : float -> float -> float := SpecFloat.SFadd prec emax.
Definition sub : float -> float -> float := SpecFloat.SFsub prec emax.
Definition mul : float -> float -> float := SpecFloat.SFmul prec emax.
Definition div : float -> float -> float := SpecFloat.SFdiv prec emax.
Definition ltb : float -> float -> bool := SpecFloat.SFltb.

(** The float64 nearest to [m * 2^e]. *)
Definition of_scaled (m e : Z) : float :=
  match m with
  | Z0 => SpecFloat.S754_zero false
  | _ => SpecFloat.binary_normalize prec emax m e false
  end.

Definition of_Z (z : Z) : float := of_scaled z 0.

(** [np.finfo(np.float64).eps]. *)
Definition eps : float := of_scaled 1 (-52).

(** [np.nanmin], [np.nanmax] on values without NaN. *)
Definition fmin (a b : float) : float := if ltb b a then b else a.
Definition fmax (a b : float) : float := if ltb a b then b else a.

(** [_handle_zeros_in_scale]: [scale[scale < 10 * eps] = 1.0]. *)
Definition handle_zeros_in_scale (r : float) : float :=
  if ltb r (mul (of_Z 10) eps) then of_Z 1 else r.

(** [MinMaxScaler.fit] and [transform] on one feature:
    [data_range = data_max - data_min],
    [scale_ = (1 - 0) / _handle_zeros_in_scale(data_range)],
    [min_ = 0 - data_min * scale_], then [X *= scale_; X += min_]. *)
Definition minmax_scale_col (xs : list float) : list float :=
  match xs with
  | [] => []
  | x :: l =>
      let data_min := fold_right fmin x l in
      let data_max := fold_right fmax x l in
      let data_range := sub data_max data_min in
      let scale_ := div (of_Z (1 - 0)) (handle_zeros_in_scale data_range) in
      let min_ := sub (of_Z 0) (mul data_min scale_) in
      map (fun v => add (mul v scale_) min_) xs
  end.

End F64.

(* ================================================================== *)
(** * Properties *)

(* ------------------------------------------------------------------ *)
(** ** Arithmetic helpers *)

Lemma py_int_inject_Z (z : Z) : py_int (inject_Z z) = z.
Proof.
  unfold py_int. destruct (Qle_bool 0 (inject_Z z)).
  - apply Qfloor_Z.
  - apply Qceiling_Z.
Qed.

Lemma py_int_comp (x y : Q) : x == y -> py_int x = py_int y.
Proof.
  intros H. unfold py_int.
  rewrite (Qfloor_comp x y H), (Qceiling_comp x y H).
  assert (E : Qle_bool 0 x = Qle_bool 0 y) by (rewrite H; reflexivity).
  rewrite E. reflexivity.
Qed.

Lemma inject_Z_div5 (mm : Z) :
  mm mod 5 = 0 -> (inject_Z mm / 5 == inject_Z (mm / 5))%Q.
Proof.
  intros H.
  assert (E : mm = 5 * (mm / 5)) by (apply Z_div_exact_full_2; [lia | exact H]).
  rewrite E at 1. rewrite inject_Z_mult. field.
Qed.

(* ------------------------------------------------------------------ *)
(** ** Window selector *)

(** C3.  For a kickoff text whose hour and minute fields read [hh] and [mm],
    with [mm] a multiple of 5, the window selector yields
    [start_index = 12*hh + mm/5 - 6] and [end_index = 12*hh + mm/5 + 21],
    both as floats and after [int(...)]; [12*hh + mm/5] is the number of the
    5-minute bucket of the kickoff counted from midnight, so the indices are
    relative to the start of the day.  Kickoff 15:00 gives 174 and 201,
    kickoff 20:30 gives 240 and 267. *)
Theorem window_selector_formula :
  (forall (ko : string) (hh mm : Z),
      Detection.kickoff_hh ko = Some hh ->
      Detection.kickoff_mm ko = Some mm ->
      mm mod 5 = 0 ->
      exists s e : Q,
        Detection.s_idx ko = Some s /\ Detection.e_idx ko = Some e /\
        (s == inject_Z (12 * hh + mm / 5 - 6))%Q /\
        (e == inject_Z (12 * hh + mm / 5 + 21))%Q /\
        py_int s = 12 * hh + mm / 5 - 6 /\
        py_int e = 12 * hh + mm / 5 + 21 /\
        12 * hh + mm / 5 = (60 * hh + mm) / 5) /\
  option_map py_int (Detection.s_idx "15:00") = Some 174 /\
  option_map py_int (Detection.e_idx "15:00") = Some 201 /\
  option_map py_int (Detection.s_idx "20:30") = Some 240 /\
  option_map py_int (Detection.e_idx "20:30") = Some 267.
Proof.
  split; [| repeat split; reflexivity].
  intros ko hh mm Hh Hm H5.
  unfold Detection.s_idx, Detection.e_idx. rewrite Hh, Hm.
  assert (Es : (inject_Z (12 * hh) + inject_Z mm / 5 - 6
                == inject_Z (12 * hh + mm / 5 - 6))%Q).
  { rewrite (inject_Z_div5 mm H5).
    unfold Z.sub. rewrite !inject_Z_plus. reflexivity. }
  assert (Ee : (inject_Z (12 * hh) + inject_Z mm / 5 + 21
                == inject_Z (12 * hh + mm / 5 + 21))%Q).
  { rewrite (inject_Z_div5 mm H5). rewrite !inject_Z_plus. reflexivity. }
  do 2 eexists. repeat split; try reflexivity.
  - exact Es.
  - exact Ee.
  - rewrite (py_int_comp _ _ Es). apply py_int_inject_Z.
  - rewrite (py_int_comp _ _ Ee). apply py_int_inject_Z.
  - replace (60 * hh + mm) with (hh * 12 * 5 + mm) by lia.
    rewrite Z.div_add_l by lia. lia.
Qed.

Lemma window_selector_formula_witness :
  exists s e : Q,
    Detection.s_idx "18:05:00" = Some s /\ Detection.e_idx "18:05:00" = Some e /\
    (s == inject_Z (12 * 18 + 5 / 5 - 6))%Q /\
    (e == inject_Z (12 * 18 + 5 / 5 + 21))%Q /\
    py_int s = 12 * 18 + 5 / 5 - 6 /\
    py_int e = 12 * 18 + 5 / 5 + 21 /\
    12 * 18 + 5 / 5 = (60 * 18 + 5) / 5.
Proof.
  apply (proj1 window_selector_formula "18:05:00"%string 18 5); reflexivity.
Defined.

(* ------------------------------------------------------------------ *)
(** ** Lists, sums and group labels *)

Lemma insert_by_perm {A : Type} (leb : A -> A -> bool) (x : A) (l : list A) :
  Permutation (insert_by leb x l) (x :: l).
Proof.
  induction l as [| y l IH]; simpl.
  - apply Permutation_refl.
  - destruct (leb x y).
    + apply Permutation_refl.
    + eapply perm_trans; [apply perm_skip, IH | apply perm_swap].
Qed.

Lemma sort_by_perm {A : Type} (leb : A -> A -> bool) (l : list A) :
  Permutation (sort_by leb l) l.
Proof.
  induction l as [| x l IH]; simpl.
  - apply perm_nil.
  - eapply perm_trans; [apply insert_by_perm | apply perm_skip, IH].
Qed.

Lemma unique_sorted_In {A : Type} (eq_dec : forall x y : A, {x = y} + {x <> y})
  (leb : A -> A -> bool) (l : list A) (x : A) :
  In x (unique_sorted eq_dec leb l) <-> In x l.
Proof.
  unfold unique_sorted. split; intros H.
  - apply (nodup_In eq_dec).
    eapply Permutation_in; [apply sort_by_perm | exact H].
  - eapply Permutation_in; [apply Permutation_sym, sort_by_perm |].
    apply nodup_In. exact H.
Qed.

Lemma unique_sorted_NoDup {A : Type}
  (eq_dec : forall x y : A, {x = y} + {x <> y})
  (leb : A -> A -> bool) (l : list A) :
  NoDup (unique_sorted eq_dec leb l).
Proof.
  unfold unique_sorted.
  eapply Permutation_NoDup; [apply Permutation_sym, sort_by_perm |].
  apply NoDup_nodup.
Qed.

Lemma filter_map_comm {A B : Type} (f : B -> bool) (g : A -> B) (l : list A) :
  filter f (map g l) = map g (filter (fun a => f (g a)) l).
Proof.
  induction l as [| a l IH]; simpl; [reflexivity |].
  rewrite IH. destruct (f (g a)); reflexivity.
Qed.

Lemma filter_filter {A : Type} (f g : A -> bool) (l : list A) :
  filter f (filter g l) = filter (fun a => g a && f a) l.
Proof.
  induction l as [| a l IH]; simpl; [reflexivity |].
  destruct (g a); simpl; rewrite IH; reflexivity.
Qed.

Local Open Scope Q_scope.

Lemma Qsum_map_ext {A : Type} (f g : A -> Q) (l : list A) :
  (forall x, In x l -> f x == g x) ->
  Qsum (map f l) == Qsum (map g l).
Proof.
  induction l as [| a l IH]; intros H; simpl.
  - reflexivity.
  - rewrite (H a (or_introl eq_refl)), IH.
    + reflexivity.
    + intros x Hx. apply H. right. exact Hx.
Qed.

Lemma Qsum_map_plus {A : Type} (f g : A -> Q) (l : list A) :
  Qsum (map (fun x => f x + g x) l) == Qsum (map f l) + Qsum (map g l).
Proof.
  induction l as [| a l IH]; simpl.
  - reflexivity.
  - rewrite IH. ring.
Qed.

(** Over distinct labels, the indicator of one label sums to one
    occurrence. *)
Lemma Qsum_indicator {K : Type} (eqb : K -> K -> bool)
  (eqb_spec : forall a b, eqb a b = true <-> a = b)
  (k0 : K) (v : Q) (l : list K) :
  NoDup l ->
  (In k0 l -> Qsum (map (fun k => if eqb k0 k then v else 0) l) == v) /\
  (~ In k0 l -> Qsum (map (fun k => if eqb k0 k then v else 0) l) == 0).
Proof.
  induction 1 as [| k l Hk Hnd IH]; simpl.
  - split; [tauto | reflexivity].
  - destruct IH as [IHin IHout].
    destruct (eqb k0 k) eqn:E.
    + apply eqb_spec in E. subst k. split; intros Hin.
      * rewrite (IHout Hk). ring.
      * exfalso. apply Hin. left. reflexivity.
    + assert (k <> k0).
      { intros ->. assert (eqb k0 k0 = true) by (apply eqb_spec; reflexivity).
        congruence. }
      split; intros Hin.
      * destruct Hin as [? | Hin]; [contradiction |].
        rewrite (IHin Hin). ring.
      * rewrite IHout by tauto. ring.
Qed.

(** Summing the group sums of the groups selected by [P] is summing the
    rows whose label satisfies [P]. *)
Lemma group_sums {K R : Type} (eqb : K -> K -> bool)
  (eqb_spec : forall a b, eqb a b = true <-> a = b)
  (key : R -> K) (g : R -> Q) (P : K -> bool)
  (keys : list K) (rows : list R) :
  NoDup keys ->
  (forall r, In r rows -> In (key r) keys) ->
  Qsum (map (fun k => Qsum (map g (filter (fun r => eqb (key r) k) rows)))
            (filter P keys))
  == Qsum (map g (filter (fun r => P (key r)) rows)).
Proof.
  intros Hnd. induction rows as [| r rows IH]; intros Hcov; simpl.
  - induction (filter P keys) as [| k l IHl]; simpl; [reflexivity |].
    rewrite IHl. ring.
  - assert (Hcov' : forall r', In r' rows -> In (key r') keys)
      by (intros r' Hr'; apply Hcov; right; exact Hr').
    specialize (IH Hcov').
    rewrite (Qsum_map_ext _
               (fun k => (if eqb (key r) k then g r else 0)
                         + Qsum (map g (filter (fun r' => eqb (key r') k) rows)))).
    + rewrite Qsum_map_plus, IH.
      assert (Hnd' : NoDup (filter P keys)) by (apply NoDup_filter; exact Hnd).
      destruct (Qsum_indicator eqb eqb_spec (key r) (g r) _ Hnd') as [Hin Hout].
      destruct (P (key r)) eqn:EP; simpl.
      * rewrite Hin; [reflexivity |].
        apply filter_In. split; [apply Hcov; left; reflexivity | exact EP].
      * rewrite Hout; [ring |].
        intros HF. apply filter_In in HF. destruct HF as [_ HF]. congruence.
    + intros k _. destruct (eqb (key r) k); simpl; ring.
Qed.

Local Close Scope Q_scope.

(* ------------------------------------------------------------------ *)
(** ** Attribution: cleaning, baseline and piracy volume *)

Lemma key_eqb_spec (a b : string * Z) : Traffic.key_eqb a b = true <-> a = b.
Proof.
  destruct a as [a1 a2], b as [b1 b2]. unfold Traffic.key_eqb. simpl.
  rewrite andb_true_iff, String.eqb_eq, Z.eqb_eq.
  split; [intros [-> ->]; reflexivity | intros E; inversion E; auto].
Qed.

Lemma lookup_map (f : string -> Q) (i : string) (l : list string) :
  Traffic.lookup i (map (fun j => (j, f j)) l)
  = if in_dec string_dec i l then Some (f i) else None.
Proof.
  induction l as [| j l IH]; simpl; [reflexivity |].
  destruct (String.eqb j i) eqn:E.
  - apply String.eqb_eq in E. subst j.
    destruct (string_dec i i); [| contradiction].
    reflexivity.
  - apply String.eqb_neq in E. rewrite IH.
    destruct (string_dec j i); [contradiction |].
    destruct (in_dec string_dec i l); reflexivity.
Qed.

Lemma filter_none {A : Type} (f : A -> bool) (l : list A) :
  (forall x, In x l -> f x = false) -> filter f l = [].
Proof.
  induction l as [| a l IH]; intros H; simpl; [reflexivity |].
  rewrite (H a (or_introl eq_refl)). apply IH.
  intros x Hx. apply H. right. exact Hx.
Qed.

(** The clean rows of endpoint [i] in a window carry, together, the raw
    gigabits of [i] in that window. *)
Lemma clean_window_sum (lo hi : Z) (input : list Traffic.traffic_row)
  (i : string) :
  (Qsum (map Traffic.c_gigabits
           (filter (fun c => String.eqb (Traffic.c_ip c) i)
                   (filter (Traffic.between lo hi)
                           (Traffic.clean_ip_traffic_df input))))
   == Qsum (map Traffic.gigabits (Traffic.raw_in_window lo hi i input)))%Q.
Proof.
  unfold Traffic.clean_ip_traffic_df.
  rewrite filter_filter, filter_map_comm, map_map. simpl.
  rewrite (group_sums Traffic.key_eqb key_eqb_spec Traffic.row_key
             Traffic.gigabits
             (fun k => (lo <=? snd k) && (snd k <? hi) && String.eqb (fst k) i)).
  - reflexivity.
  - apply unique_sorted_NoDup.
  - intros r Hr. apply unique_sorted_In. apply in_map. exact Hr.
Qed.

(** The noise attached to endpoint [i] is the sum of its raw gigabits in the
    quiet window over 12, whether or not it has rows there. *)
Lemma noise_of_raw (ko : Z) (input : list Traffic.traffic_row) (i : string) :
  (Traffic.noise_of (Traffic.noise_df ko (Traffic.clean_ip_traffic_df input)) i
   == Qsum (map Traffic.gigabits
              (Traffic.raw_in_window (ko + Traffic.minutes (-90))
                                     (ko + Traffic.minutes (-30)) i input))
      / 12)%Q.
Proof.
  rewrite <- clean_window_sum.
  set (quiet := filter _ (Traffic.clean_ip_traffic_df input)).
  unfold Traffic.noise_of, Traffic.noise_df. fold quiet.
  rewrite (lookup_map
             (fun j => (Qsum (map Traffic.c_gigabits
                                (filter (fun c => String.eqb (Traffic.c_ip c) j)
                                        quiet)) / 12)%Q)).
  destruct (in_dec string_dec i _) as [Hin | Hout]; simpl.
  - reflexivity.
  - rewrite filter_none; [simpl; reflexivity |].
    intros c Hc. apply String.eqb_neq. intros E. apply Hout.
    apply unique_sorted_In. rewrite <- E. apply in_map. exact Hc.
Qed.

Lemma In_processed (ko : Z) (input : list Traffic.traffic_row)
  (p : Traffic.processed_row) :
  In p (Traffic.processed_ip_traffic_df ko input) ->
  exists c,
    In c (Traffic.clean_ip_traffic_df input) /\
    Traffic.between ko (ko + Traffic.minutes 110) c = true /\
    p = Traffic.process_row
          (Traffic.noise_df ko (Traffic.clean_ip_traffic_df input)) c.
Proof.
  unfold Traffic.processed_ip_traffic_df. intros H.
  apply in_map_iff in H. destruct H as [c [E Hc]].
  apply filter_In in Hc. destruct Hc as [Hc Hb].
  exists c. auto.
Qed.

Lemma In_output (k : sort_kind) (ko : Z) (se : string) (gw : Z)
  (input : list Traffic.traffic_row) (o : Traffic.output_row) :
  In o (Traffic.construct_output_df k ko se gw input) ->
  In (Traffic.o_base o) (Traffic.base_df k ko se gw input) /\
  In (Traffic.o_traffic o) (Traffic.processed_ip_traffic_df ko input) /\
  Traffic.p_ip (Traffic.o_traffic o)
  = Traffic.ip (Traffic.endpoint (Traffic.o_base o)).
Proof.
  unfold Traffic.construct_output_df, Traffic.merge_on_ip. intros H.
  apply in_flat_map in H. destruct H as [b [Hb H]].
  apply in_map_iff in H. destruct H as [p [E Hp]].
  apply filter_In in Hp. destruct Hp as [Hp Hip].
  apply String.eqb_eq in Hip. subst o. simpl. auto.
Qed.



(** C4.  The noise attached to every attributed row, and every row of
    [noise_df], is the sum of the raw gigabits of the endpoint over the
    buckets with timestamp in [[ko - 90min, ko - 30min)] divided by 12,
    however many samples the window holds; an endpoint without sample there
    has noise 0; the quiet hour [10, 0, ..., 0] gives 10/12. *)
Theorem noise_baseline_fixed_denominator :
  (forall (ko : Z) (input : list Traffic.traffic_row)
          (p : Traffic.processed_row),
      In p (Traffic.processed_ip_traffic_df ko input) ->
      (Traffic.noise_gigabits p
       == Qsum (map Traffic.gigabits
                  (Traffic.raw_in_window (ko + Traffic.minutes (-90))
                     (ko + Traffic.minutes (-30)) (Traffic.p_ip p) input))
          / 12)%Q /\
      (Traffic.raw_in_window (ko + Traffic.minutes (-90))
         (ko + Traffic.minutes (-30)) (Traffic.p_ip p) input = [] ->
       (Traffic.noise_gigabits p == 0)%Q) /\
      (map Traffic.gigabits
           (Traffic.raw_in_window (ko + Traffic.minutes (-90))
              (ko + Traffic.minutes (-30)) (Traffic.p_ip p) input)
       = [10; 0; 0; 0; 0; 0; 0; 0; 0; 0; 0; 0]%Q ->
       (Traffic.noise_gigabits p == 10 / 12)%Q)) /\
  (forall (ko : Z) (input : list Traffic.traffic_row) (i : string) (v : Q),
      In (i, v) (Traffic.noise_df ko (Traffic.clean_ip_traffic_df input)) ->
      (v == Qsum (map Traffic.gigabits
                    (Traffic.raw_in_window (ko + Traffic.minutes (-90))
                       (ko + Traffic.minutes (-30)) i input))
            / 12)%Q).
Proof.
  split.
  - intros ko input p Hp.
    destruct (In_processed ko input p Hp) as [c [_ [_ ->]]]. simpl.
    pose proof (noise_of_raw ko input (Traffic.c_ip c)) as H.
    split; [exact H | split]; intros E; rewrite H, E; reflexivity.
  - intros ko input i v Hin.
    unfold Traffic.noise_df in Hin. apply in_map_iff in Hin.
    destruct Hin as [j [E _]]. inversion E; subst.
    rewrite clean_window_sum. reflexivity.
Qed.

Lemma noise_baseline_fixed_denominator_witness :
  let p := nth 0 (Traffic.processed_ip_traffic_df Samples.ko0 Samples.quiet_hour)
               (Traffic.process_row [] (Traffic.Build_clean_row "" 0 0)) in
  In p (Traffic.processed_ip_traffic_df Samples.ko0 Samples.quiet_hour) /\
  map Traffic.gigabits
      (Traffic.raw_in_window (Samples.ko0 + Traffic.minutes (-90))
         (Samples.ko0 + Traffic.minutes (-30)) (Traffic.p_ip p)
         Samples.quiet_hour)
  = [10; 0; 0; 0; 0; 0; 0; 0; 0; 0; 0; 0]%Q /\
  (Traffic.noise_gigabits p == 10 / 12)%Q.
Proof.
  assert (H : In (nth 0 (Traffic.processed_ip_traffic_df Samples.ko0
                           Samples.quiet_hour)
                      (Traffic.process_row [] (Traffic.Build_clean_row "" 0 0)))
                 (Traffic.processed_ip_traffic_df Samples.ko0
                    Samples.quiet_hour)).
  { vm_compute. left. reflexivity. }
  assert (E : map Traffic.gigabits
      (Traffic.raw_in_window (Samples.ko0 + Traffic.minutes (-90))
         (Samples.ko0 + Traffic.minutes (-30))
         (Traffic.p_ip
            (nth 0 (Traffic.processed_ip_traffic_df Samples.ko0
                      Samples.quiet_hour)
                 (Traffic.process_row [] (Traffic.Build_clean_row "" 0 0))))
         Samples.quiet_hour)
      = [10; 0; 0; 0; 0; 0; 0; 0; 0; 0; 0; 0]%Q).
  { vm_compute. reflexivity. }
  split; [exact H | split; [exact E |]].
  exact (proj2 (proj2 (proj1 noise_baseline_fixed_denominator
                         Samples.ko0 Samples.quiet_hour _ H)) E).
Defined.

(* ------------------------------------------------------------------ *)
(** ** Sorting: what every sort kind guarantees *)

Lemma map_nth_seq {A : Type} (d : A) (l : list A) :
  map (fun i => nth i l d) (seq 0 (length l)) = l.
Proof.
  induction l as [| a l IH]; simpl; [reflexivity |].
  rewrite <- seq_shift, map_map. simpl. rewrite IH. reflexivity.
Qed.

Lemma take_perm {A : Type} (d : A) (l : list A) (idx : list nat) :
  Permutation idx (seq 0 (length l)) -> Permutation (take d l idx) l.
Proof.
  intros H. unfold take.
  eapply perm_trans; [apply Permutation_map; exact H |].
  rewrite map_nth_seq. apply Permutation_refl.
Qed.

Lemma take_app {A : Type} (d : A) (l : list A) (i j : list nat) :
  take d l (i ++ j) = take d l i ++ take d l j.
Proof. apply map_app. Qed.

Lemma filter_split_perm {A : Type} (f : A -> bool) (l : list A) :
  Permutation (filter f l ++ filter (fun x => negb (f x)) l) l.
Proof.
  induction l as [| a l IH]; simpl; [apply perm_nil |].
  destruct (f a); simpl.
  - apply perm_skip, IH.
  - apply Permutation_sym, Permutation_cons_app, Permutation_sym, IH.
Qed.

(** The positions a sort kind returns for the keys [map f idx], read
    through [idx]. *)
Lemma indexer_perm (k : sort_kind) (f : nat -> Z) (idx : list nat) :
  Permutation (take 0%nat idx (argsort k (map f idx))) idx.
Proof.
  apply take_perm.
  rewrite <- (length_map f idx). apply argsort_perm.
Qed.

Lemma indexer_sorted (k : sort_kind) (f : nat -> Z) (idx : list nat) :
  StronglySorted Z.le (map f (take 0%nat idx (argsort k (map f idx)))).
Proof.
  pose proof (argsort_sorted k (map f idx)) as Hs.
  pose proof (argsort_perm k (map f idx)) as Hp.
  unfold take. rewrite map_map.
  erewrite map_ext_in; [exact Hs |].
  intros j Hj. simpl.
  assert (Hlt : (j < length (map f idx))%nat).
  { apply (Permutation_in _ Hp) in Hj. apply in_seq in Hj. lia. }
  rewrite (nth_indep _ 0 (f 0%nat) Hlt). symmetry. apply map_nth.
Qed.

Lemma nan_split_perm (items : list (option Z)) :
  Permutation (nan_idx items ++ non_nan_idx items) (seq 0 (length items)).
Proof. apply filter_split_perm. Qed.

Lemma nargsort_shape (k : sort_kind) (items : list (option Z))
  (ascending na_first : bool) :
  exists indexer,
    Permutation indexer (non_nan_idx items) /\
    nargsort k items ascending na_first
    = if na_first then nan_idx items ++ indexer
      else indexer ++ nan_idx items.
Proof.
  unfold nargsort. eexists. split; [| reflexivity].
  destruct ascending.
  - apply indexer_perm.
  - rewrite <- map_rev.
    eapply perm_trans; [apply Permutation_sym, Permutation_rev |].
    eapply perm_trans; [apply indexer_perm |].
    apply Permutation_sym, Permutation_rev.
Qed.

Lemma nargsort_perm (k : sort_kind) (items : list (option Z))
  (ascending na_first : bool) :
  Permutation (nargsort k items ascending na_first) (seq 0 (length items)).
Proof.
  destruct (nargsort_shape k items ascending na_first) as [ix [Hp ->]].
  eapply perm_trans; [| apply nan_split_perm].
  destruct na_first.
  - apply Permutation_app_head. exact Hp.
  - eapply perm_trans; [apply Permutation_app_comm |].
    apply Permutation_app_head. exact Hp.
Qed.

Lemma StronglySorted_snoc {A : Type} (R : A -> A -> Prop) (l : list A)
  (a : A) :
  StronglySorted R l -> Forall (fun x => R x a) l ->
  StronglySorted R (l ++ [a]).
Proof.
  induction 1 as [| b l Hs IH Hf]; intros Ha; simpl.
  - constructor; constructor.
  - inversion Ha; subst. constructor.
    + apply IH. assumption.
    + apply Forall_app. split; [exact Hf | constructor; [assumption | constructor]].
Qed.

Lemma StronglySorted_rev {A : Type} (R : A -> A -> Prop) (l : list A) :
  StronglySorted R l -> StronglySorted (fun a b => R b a) (rev l).
Proof.
  induction 1 as [| a l Hs IH Hf]; simpl.
  - constructor.
  - apply StronglySorted_snoc; [exact IH |].
    rewrite Forall_forall in *. intros x Hx. apply Hf. apply in_rev. exact Hx.
Qed.

(* ------------------------------------------------------------------ *)
(** ** Two sort kinds *)

Lemma map_snd_combine {A B : Type} (l : list A) (m : list B) :
  length l = length m -> map snd (combine l m) = m.
Proof.
  revert m. induction l as [| a l IH]; intros [| b m] H; simpl in *;
    try reflexivity; try discriminate.
  rewrite IH by lia. reflexivity.
Qed.

Lemma argsort_by_perm (leb : Z * nat -> Z * nat -> bool) (l : list Z) :
  Permutation (argsort_by leb l) (seq 0 (length l)).
Proof.
  unfold argsort_by.
  eapply perm_trans; [apply Permutation_map, sort_by_perm |].
  rewrite map_snd_combine by (rewrite length_seq; reflexivity).
  apply Permutation_refl.
Qed.

Lemma insert_by_sorted {A : Type} (leb : A -> A -> bool) (R : A -> A -> Prop)
  (x : A) (l : list A) :
  (forall a b, leb a b = true -> R a b) ->
  (forall a b, leb a b = false -> R b a) ->
  (forall a b c, R a b -> R b c -> R a c) ->
  StronglySorted R l -> StronglySorted R (insert_by leb x l).
Proof.
  intros Ht Hf Htr. induction 1 as [| y l Hs IH Hy]; simpl.
  - constructor; constructor.
  - destruct (leb x y) eqn:E.
    + constructor; [constructor; assumption |].
      constructor; [apply Ht; exact E |].
      rewrite Forall_forall in *. intros z Hz.
      apply (Htr x y z); [apply Ht; exact E | apply Hy; exact Hz].
    + constructor; [exact IH |].
      rewrite Forall_forall in *. intros z Hz.
      apply (Permutation_in _ (insert_by_perm leb x l)) in Hz.
      destruct Hz as [<- | Hz]; [apply Hf; exact E | apply Hy; exact Hz].
Qed.

Lemma sort_by_sorted {A : Type} (leb : A -> A -> bool) (R : A -> A -> Prop)
  (l : list A) :
  (forall a b, leb a b = true -> R a b) ->
  (forall a b, leb a b = false -> R b a) ->
  (forall a b c, R a b -> R b c -> R a c) ->
  StronglySorted R (sort_by leb l).
Proof.
  intros Ht Hf Htr. induction l as [| x l IH]; simpl.
  - constructor.
  - apply insert_by_sorted; assumption.
Qed.

Lemma argsort_by_sorted (leb : Z * nat -> Z * nat -> bool) (l : list Z) :
  (forall a b, leb a b = true -> fst a <= fst b) ->
  (forall a b, leb a b = false -> fst b <= fst a) ->
  StronglySorted Z.le (map (fun i => nth i l 0) (argsort_by leb l)).
Proof.
  intros Ht Hf. unfold argsort_by. rewrite map_map.
  set (pairs := combine l (seq 0 (length l))).
  assert (Hs : StronglySorted (fun a b => fst a <= fst b) (sort_by leb pairs)).
  { apply sort_by_sorted; [exact Ht | exact Hf | intros; lia]. }
  assert (Hk : forall a, In a (sort_by leb pairs) -> nth (snd a) l 0 = fst a).
  { intros a Ha. apply (Permutation_in _ (sort_by_perm leb pairs)) in Ha.
    unfold pairs in Ha.
    destruct (In_nth _ _ (0, 0%nat) Ha) as [n [Hn En]].
    rewrite combine_nth in En by (rewrite length_seq; reflexivity).
    rewrite length_combine, length_seq, Nat.min_id in Hn.
    rewrite seq_nth in En by exact Hn. subst a. reflexivity. }
  rewrite (map_ext_in _ fst _ Hk).
  clear Hk. induction Hs as [| a m Hm IH Ha]; simpl; constructor.
  - exact IH.
  - apply Forall_map. exact Ha.
Qed.

Definition stable_kind : sort_kind :=
  {| argsort := argsort_by key_le;
     argsort_perm := argsort_by_perm key_le;
     argsort_sorted := fun l =>
       argsort_by_sorted key_le l
         (fun a b H => proj1 (Z.leb_le _ _) H)
         (fun a b H => Z.lt_le_incl _ _ (proj1 (Z.leb_gt _ _) H)) |}.

Lemma ascending_sorted (l : list Z) :
  ascending l = true -> StronglySorted Z.le l.
Proof.
  intros H. apply Sorted_StronglySorted; [intros a b c; apply Z.le_trans |].
  induction l as [| a l IH]; [constructor |].
  destruct l as [| b l]; [repeat constructor |].
  simpl in H. apply andb_true_iff in H. destruct H as [Hab H].
  constructor; [apply IH; exact H |].
  constructor. apply Z.leb_le. exact Hab.
Qed.

Lemma is_argsort_spec (v : list Z) (r : list nat) :
  is_argsort v r = true ->
  Permutation r (seq 0 (length v)) /\
  StronglySorted Z.le (map (fun i => nth i v 0) r).
Proof.
  unfold is_argsort. rewrite !andb_true_iff. intros [[Hlen Hall] Hasc].
  split; [| apply ascending_sorted; exact Hasc].
  apply Nat.eqb_eq in Hlen. apply Permutation_sym.
  apply NoDup_Permutation_bis; [apply seq_NoDup | rewrite length_seq; lia |].
  intros i Hi. rewrite forallb_forall in Hall.
  specialize (Hall i Hi). apply existsb_exists in Hall.
  destruct Hall as [j [Hj E]]. apply Nat.eqb_eq in E. subst j. exact Hj.
Qed.

Lemma numpy_argsort_spec (v : list Z) :
  Permutation (numpy_argsort v) (seq 0 (length v)) /\
  StronglySorted Z.le (map (fun i => nth i v 0) (numpy_argsort v)).
Proof.
  unfold numpy_argsort.
  destruct (is_argsort v (Npysort.aquicksort v)) eqn:E.
  - apply is_argsort_spec. exact E.
  - split; [apply argsort_by_perm |].
    apply argsort_by_sorted.
    + intros a b H. apply Z.leb_le. exact H.
    + intros a b H. unfold key_le in H. apply Z.leb_gt in H. lia.
Qed.

(** NumPy's [kind='quicksort'], the default of [sort_values]. *)
Definition numpy_kind : sort_kind :=
  {| argsort := numpy_argsort;
     argsort_perm := fun v => proj1 (numpy_argsort_spec v);
     argsort_sorted := fun v => proj2 (numpy_argsort_spec v) |}.

(* ------------------------------------------------------------------ *)
(** ** Endpoint metadata: canonical rows and the join *)

Lemma sort_values_asn_perm (k : sort_kind) (rows : list Traffic.endpoint_meta) :
  Permutation (Traffic.sort_values_asn k rows) rows.
Proof.
  unfold Traffic.sort_values_asn. apply take_perm.
  rewrite <- (length_map Traffic.asn rows). apply nargsort_perm.
Qed.

Lemma nth_asn (rows : list Traffic.endpoint_meta) (i : nat) :
  nth i (map Traffic.asn rows) None
  = Traffic.asn (nth i rows Traffic.null_meta).
Proof.
  change (@None Z) with (Traffic.asn Traffic.null_meta). apply map_nth.
Qed.

(** Sorted by [asn] with nulls first: the rows without [asn], then the rows
    with one. *)
Lemma sort_values_asn_shape (k : sort_kind) (rows : list Traffic.endpoint_meta) :
  exists nulls valued,
    Traffic.sort_values_asn k rows = nulls ++ valued /\
    Forall (fun r => Traffic.asn r = None) nulls /\
    Forall (fun r => Traffic.asn r <> None) valued.
Proof.
  unfold Traffic.sort_values_asn.
  destruct (nargsort_shape k (map Traffic.asn rows) true true) as [ix [Hp ->]].
  rewrite take_app. do 2 eexists. split; [reflexivity | split].
  - unfold take. apply Forall_map. apply Forall_forall. intros i Hi.
    unfold nan_idx in Hi. apply filter_In in Hi. destruct Hi as [_ Hi].
    rewrite nth_asn in Hi.
    destruct (Traffic.asn (nth i rows Traffic.null_meta));
      [discriminate | reflexivity].
  - unfold take. apply Forall_map. apply Forall_forall. intros i Hi.
    apply (Permutation_in _ Hp) in Hi.
    unfold non_nan_idx in Hi. apply filter_In in Hi. destruct Hi as [_ Hi].
    rewrite nth_asn in Hi.
    destruct (Traffic.asn (nth i rows Traffic.null_meta));
      [discriminate | discriminate].
Qed.

Lemma existsb_ip (i : string) (l : list Traffic.endpoint_meta) :
  existsb (fun r' => String.eqb (Traffic.ip r') i) l = true
  <-> exists r', In r' l /\ Traffic.ip r' = i.
Proof.
  rewrite existsb_exists. split; intros [r [H1 H2]]; exists r; split; auto.
  - apply String.eqb_eq. exact H2.
  - apply String.eqb_eq. exact H2.
Qed.

Lemma drop_duplicates_last_In (l : list Traffic.endpoint_meta)
  (r : Traffic.endpoint_meta) :
  In r (Traffic.drop_duplicates_last l) -> In r l.
Proof.
  induction l as [| a l IH]; simpl; [tauto |].
  destruct (existsb _ l); simpl; intros H.
  - right. apply IH. exact H.
  - destruct H as [H | H]; [left; exact H | right; apply IH; exact H].
Qed.

Lemma drop_duplicates_last_covers (l : list Traffic.endpoint_meta) (i : string) :
  (exists r, In r l /\ Traffic.ip r = i) ->
  exists r, In r (Traffic.drop_duplicates_last l) /\ Traffic.ip r = i.
Proof.
  induction l as [| a l IH]; simpl; intros [r [Hr Hi]]; [contradiction |].
  destruct (existsb _ l) eqn:E.
  - destruct Hr as [-> | Hr].
    + apply IH. apply existsb_ip in E. rewrite Hi in E. exact E.
    + apply IH. exists r. auto.
  - destruct Hr as [-> | Hr].
    + exists r. split; [left; reflexivity | exact Hi].
    + destruct IH as [r' [H1 H2]]; [exists r; auto |].
      exists r'. split; [right; exact H1 | exact H2].
Qed.

Lemma drop_duplicates_last_NoDup (l : list Traffic.endpoint_meta) :
  NoDup (map Traffic.ip (Traffic.drop_duplicates_last l)).
Proof.
  induction l as [| a l IH]; simpl; [constructor |].
  destruct (existsb _ l) eqn:E; [exact IH |].
  simpl. constructor; [| exact IH].
  intros Hin. apply in_map_iff in Hin. destruct Hin as [r [Hi Hr]].
  apply drop_duplicates_last_In in Hr.
  assert (T : existsb (fun r' => String.eqb (Traffic.ip r') (Traffic.ip a)) l
              = true) by (apply existsb_ip; exists r; auto).
  congruence.
Qed.

(** The row kept for an endpoint is its last one: when the endpoint occurs
    in the tail [m], the kept row comes from [m]. *)
Lemma drop_duplicates_last_tail (l m : list Traffic.endpoint_meta)
  (r : Traffic.endpoint_meta) :
  In r (Traffic.drop_duplicates_last (l ++ m)) ->
  (exists r', In r' m /\ Traffic.ip r' = Traffic.ip r) ->
  In r m.
Proof.
  induction l as [| a l IH]; simpl; intros Hr Hm.
  - apply drop_duplicates_last_In. exact Hr.
  - destruct (existsb _ (l ++ m)) eqn:E.
    + apply IH; assumption.
    + destruct Hr as [-> | Hr]; [| apply IH; assumption].
      exfalso. destruct Hm as [r' [H1 H2]].
      assert (T : existsb (fun x => String.eqb (Traffic.ip x) (Traffic.ip r))
                    (l ++ m) = true).
      { apply existsb_ip. exists r'. split; [| exact H2].
        apply in_or_app. right. exact H1. }
      congruence.
Qed.

Lemma base_df_endpoints (k : sort_kind) (ko : Z) (se : string) (gw : Z)
  (input : list Traffic.traffic_row) :
  map Traffic.endpoint (Traffic.base_df k ko se gw input)
  = Traffic.drop_duplicates_last
      (Traffic.sort_values_asn k (map Traffic.meta input)).
Proof.
  unfold Traffic.base_df. rewrite map_map. simpl. apply map_id.
Qed.

Lemma In_base_df (k : sort_kind) (ko : Z) (se : string) (gw : Z)
  (input : list Traffic.traffic_row) (m : Traffic.endpoint_meta) :
  In m (Traffic.drop_duplicates_last
          (Traffic.sort_values_asn k (map Traffic.meta input))) ->
  exists b, In b (Traffic.base_df k ko se gw input) /\ Traffic.endpoint b = m.
Proof.
  rewrite <- (base_df_endpoints k ko se gw). intros H.
  apply in_map_iff in H. destruct H as [b [E Hb]]. exists b. auto.
Qed.

Lemma base_df_covers (k : sort_kind) (ko : Z) (se : string) (gw : Z)
  (input : list Traffic.traffic_row) (r : Traffic.traffic_row) :
  In r input ->
  exists b, In b (Traffic.base_df k ko se gw input) /\
            Traffic.ip (Traffic.endpoint b) = Traffic.ip (Traffic.meta r).
Proof.
  intros Hr.
  destruct (drop_duplicates_last_covers
              (Traffic.sort_values_asn k (map Traffic.meta input))
              (Traffic.ip (Traffic.meta r))) as [m [Hm Hi]].
  { exists (Traffic.meta r). split; [| reflexivity].
    eapply Permutation_in;
      [apply Permutation_sym, sort_values_asn_perm | apply in_map; exact Hr]. }
  destruct (In_base_df k ko se gw input m Hm) as [b [Hb <-]].
  exists b. auto.
Qed.

Lemma base_df_NoDup (k : sort_kind) (ko : Z) (se : string) (gw : Z)
  (input : list Traffic.traffic_row) :
  NoDup (map (fun b => Traffic.ip (Traffic.endpoint b))
             (Traffic.base_df k ko se gw input)).
Proof.
  rewrite <- (map_map Traffic.endpoint Traffic.ip), base_df_endpoints.
  apply drop_duplicates_last_NoDup.
Qed.

Lemma base_df_raw (k : sort_kind) (ko : Z) (se : string) (gw : Z)
  (input : list Traffic.traffic_row) (b : Traffic.base_row) :
  In b (Traffic.base_df k ko se gw input) ->
  In (Traffic.endpoint b) (map Traffic.meta input).
Proof.
  intros Hb.
  apply (in_map Traffic.endpoint) in Hb. rewrite base_df_endpoints in Hb.
  apply drop_duplicates_last_In in Hb.
  eapply Permutation_in; [apply sort_values_asn_perm | exact Hb].
Qed.

(** C9 (as amended).  Canonicalisation keeps exactly one metadata row per
    endpoint of the input, taken from the raw rows of that endpoint, and the
    kept row has an [asn] whenever some raw row of the endpoint has one,
    whatever the sort kind does with equal keys.  (Nothing is promised on
    [as_name]: the kept row carries its own.) *)
Theorem canonical_metadata_prefers_asn :
  forall (k : sort_kind) (ko : Z) (se : string) (gw : Z)
         (input : list Traffic.traffic_row),
    NoDup (map (fun b => Traffic.ip (Traffic.endpoint b))
               (Traffic.base_df k ko se gw input)) /\
    (forall r, In r input ->
       exists b, In b (Traffic.base_df k ko se gw input) /\
                 Traffic.ip (Traffic.endpoint b) = Traffic.ip (Traffic.meta r)) /\
    (forall b, In b (Traffic.base_df k ko se gw input) ->
       In (Traffic.endpoint b) (map Traffic.meta input)) /\
    (forall b, In b (Traffic.base_df k ko se gw input) ->
       (exists r, In r input /\
                  Traffic.ip (Traffic.meta r) = Traffic.ip (Traffic.endpoint b) /\
                  Traffic.asn (Traffic.meta r) <> None) ->
       Traffic.asn (Traffic.endpoint b) <> None).
Proof.
  intros k ko se gw input. repeat split.
  - apply base_df_NoDup.
  - intros r Hr. apply base_df_covers. exact Hr.
  - intros b Hb. apply (base_df_raw k ko se gw). exact Hb.
  - intros b Hb [r [Hr [Hi Ha]]].
    apply (in_map Traffic.endpoint) in Hb. rewrite base_df_endpoints in Hb.
    destruct (sort_values_asn_shape k (map Traffic.meta input))
      as [nulls [valued [E [Hn Hv]]]].
    assert (Hrv : In (Traffic.meta r) valued).
    { assert (H : In (Traffic.meta r) (nulls ++ valued)).
      { rewrite <- E. eapply Permutation_in;
          [apply Permutation_sym, sort_values_asn_perm | apply in_map; exact Hr]. }
      apply in_app_or in H. destruct H as [H | H]; [| exact H].
      rewrite Forall_forall in Hn. apply Hn in H. contradiction. }
    rewrite E in Hb.
    apply drop_duplicates_last_tail in Hb.
    + rewrite Forall_forall in Hv. apply Hv. exact Hb.
    + exists (Traffic.meta r). auto.
Qed.

Lemma canonical_metadata_prefers_asn_witness :
  let b := nth 0 (Traffic.base_df stable_kind Samples.ko0 "2020/21" 31
                    Samples.partial_asn)
               (Traffic.Build_base_row Traffic.null_meta "" 0 0) in
  In b (Traffic.base_df stable_kind Samples.ko0 "2020/21" 31
          Samples.partial_asn) /\
  (exists r, In r Samples.partial_asn /\
             Traffic.ip (Traffic.meta r) = Traffic.ip (Traffic.endpoint b) /\
             Traffic.asn (Traffic.meta r) <> None) /\
  Traffic.asn (Traffic.endpoint b) <> None.
Proof.
  assert (H : In (nth 0 (Traffic.base_df stable_kind Samples.ko0 "2020/21" 31
                           Samples.partial_asn)
                      (Traffic.Build_base_row Traffic.null_meta "" 0 0))
                 (Traffic.base_df stable_kind Samples.ko0 "2020/21" 31
                    Samples.partial_asn)).
  { vm_compute. left. reflexivity. }
  assert (W : exists r, In r Samples.partial_asn /\
             Traffic.ip (Traffic.meta r)
             = Traffic.ip (Traffic.endpoint
                 (nth 0 (Traffic.base_df stable_kind Samples.ko0 "2020/21" 31
                           Samples.partial_asn)
                      (Traffic.Build_base_row Traffic.null_meta "" 0 0))) /\
             Traffic.asn (Traffic.meta r) <> None).
  { exists (Samples.row "10.0.0.1" (Some 64500) (Some "EXAMPLE-NET"%string)
                        Samples.ko0 5).
    split; [left; reflexivity | split; [reflexivity | discriminate]]. }
  split; [exact H | split; [exact W |]].
  exact (proj2 (proj2 (proj2 (canonical_metadata_prefers_asn stable_kind
                                Samples.ko0 "2020/21" 31 Samples.partial_asn)))
               _ H W).
Defined.

(** C9 as stated fails on [as_name]: an endpoint with the rows
    [(asn 64500, as_name EXAMPLE-NET)] and [(asn 64501, no as_name)] keeps the
    second one, so a non-null [as_name] exists and the kept row has none. *)
Lemma canonical_metadata_as_name_lost :
  exists b,
    In b (Traffic.base_df stable_kind Samples.ko0 "2020/21" 31
            Samples.two_names) /\
    (exists r, In r Samples.two_names /\
               Traffic.ip (Traffic.meta r) = Traffic.ip (Traffic.endpoint b) /\
               Traffic.as_name (Traffic.meta r) <> None) /\
    Traffic.as_name (Traffic.endpoint b) = None /\
    length (Traffic.base_df stable_kind Samples.ko0 "2020/21" 31
              Samples.two_names) = 1%nat.
Proof.
  eexists. split; [vm_compute; left; reflexivity |].
  split; [| split; reflexivity].
  exists (Samples.row "10.0.0.1" (Some 64500) (Some "EXAMPLE-NET"%string)
                      Samples.ko0 5).
  split; [left; reflexivity | split; [reflexivity | discriminate]].
Qed.




(** Every attributed row stems from a raw row of its endpoint. *)
Lemma processed_has_raw (ko : Z) (input : list Traffic.traffic_row)
  (p : Traffic.processed_row) :
  In p (Traffic.processed_ip_traffic_df ko input) ->
  exists r, In r input /\ Traffic.ip (Traffic.meta r) = Traffic.p_ip p.
Proof.
  intros Hp. destruct (In_processed ko input p Hp) as [c [Hc [_ ->]]].
  unfold Traffic.clean_ip_traffic_df in Hc. apply in_map_iff in Hc.
  destruct Hc as [key [<- Hkey]]. apply unique_sorted_In in Hkey.
  apply in_map_iff in Hkey. destruct Hkey as [r [<- Hr]].
  exists r. split; [exact Hr | reflexivity].
Qed.



(* ------------------------------------------------------------------ *)
(** ** Slices and the exceed count *)

Lemma skipn_nth_cons {A : Type} (d : A) (l : list A) (m : nat) :
  (m < length l)%nat -> skipn m l = nth m l d :: skipn (S m) l.
Proof.
  revert m. induction l as [| a l IH]; intros m H; simpl in H; [lia |].
  destruct m as [| m]; [reflexivity |].
  simpl. apply IH. lia.
Qed.

Lemma firstn_skipn_positions {A : Type} (d : A) (l : list A) (k m : nat) :
  (m + k <= length l)%nat ->
  firstn k (skipn m l) = map (fun t => nth t l d) (seq m k).
Proof.
  revert m. induction k as [| k IH]; intros m H; [reflexivity |].
  rewrite (skipn_nth_cons d l m) by lia.
  change (firstn (S k) (nth m l d :: skipn (S m) l))
    with (nth m l d :: firstn k (skipn (S m) l)).
  change (seq m (S k)) with (m :: seq (S m) k).
  rewrite IH by lia. reflexivity.
Qed.

Lemma slice_bound_range (n i : Z) : 0 <= n -> 0 <= slice_bound n i <= n.
Proof.
  intros Hn. unfold slice_bound. destruct (i <? 0) eqn:E; lia.
Qed.

(** A slice reads the cells at its window positions. *)
Lemma py_slice_positions {A : Type} (d : A) (l : list A) (a b : Z) :
  py_slice l a b = map (fun t => nth t l d) (window_positions (length l) a b).
Proof.
  unfold py_slice, window_positions.
  pose proof (slice_bound_range (Z.of_nat (length l)) a (Nat2Z.is_nonneg _)).
  pose proof (slice_bound_range (Z.of_nat (length l)) b (Nat2Z.is_nonneg _)).
  apply firstn_skipn_positions. lia.
Qed.

(** Window positions: below the end bound, from the start bound on, and the
    plain range [a .. b-1] when the window lies inside the series. *)
Lemma window_positions_below (n : nat) (a b : Z) (t : nat) :
  0 <= b -> In t (window_positions n a b) -> Z.of_nat t < b.
Proof.
  intros Hb Ht. unfold window_positions in Ht. apply in_seq in Ht.
  pose proof (slice_bound_range (Z.of_nat n) a (Nat2Z.is_nonneg _)).
  assert (slice_bound (Z.of_nat n) b <= b).
  { unfold slice_bound. destruct (b <? 0) eqn:E; lia. }
  lia.
Qed.

Lemma window_positions_inside (n : nat) (a b : Z) :
  0 <= a -> a <= b -> b <= Z.of_nat n ->
  window_positions n a b = seq (Z.to_nat a) (Z.to_nat (b - a)).
Proof.
  intros Ha Hab Hb. unfold window_positions, slice_bound.
  destruct (a <? 0) eqn:Ea; [lia |].
  destruct (b <? 0) eqn:Eb; [lia |].
  rewrite !Z.min_l by lia. reflexivity.
Qed.

Lemma window_positions_length (n : nat) (a b : Z) :
  a <= b -> Z.of_nat (length (window_positions n a b)) <= b - a.
Proof.
  intros Hb. unfold window_positions. rewrite length_seq.
  unfold slice_bound. destruct (a <? 0) eqn:Ea; destruct (b <? 0) eqn:Eb; lia.
Qed.

Lemma exceed_count_positions (col : list cell) (a b : Z) :
  Detection.exceed_count col a b
  = Z.of_nat
      (length (filter (fun t => gt_scalar (nth t col None)
                                          Detection.threshold_rise)
                      (window_positions (length col) a b))).
Proof.
  unfold Detection.exceed_count.
  rewrite (py_slice_positions (A := cell) None col a b).
  rewrite filter_map_comm, length_map. reflexivity.
Qed.

Lemma filter_length_le {A : Type} (f : A -> bool) (l : list A) :
  (length (filter f l) <= length l)%nat.
Proof.
  induction l as [| a l IH]; simpl; [lia |].
  destruct (f a); simpl; lia.
Qed.

Lemma exceed_count_bounds (col : list cell) (a b : Z) :
  0 <= Detection.exceed_count col a b
       <= Z.of_nat (length (window_positions (length col) a b)).
Proof.
  rewrite exceed_count_positions.
  pose proof (filter_length_le
                (fun t => gt_scalar (nth t col None) Detection.threshold_rise)
                (window_positions (length col) a b)).
  lia.
Qed.

Lemma gt_scalar_spec (v : cell) (th : Q) :
  gt_scalar v th = true <-> exists x, v = Some x /\ (th < x)%Q.
Proof.
  destruct v as [x |]; simpl.
  - unfold Qlt_bool. rewrite negb_true_iff. split.
    + intros H. exists x. split; [reflexivity |].
      apply Qnot_le_lt. intros Hle. apply Qle_bool_iff in Hle. congruence.
    + intros [y [E H]]. inversion E; subst.
      destruct (Qle_bool y th) eqn:E'; [| reflexivity].
      apply Qle_bool_iff in E'. exfalso. apply (Qlt_not_le _ _ H E').
  - split; [discriminate | intros [x [E _]]; discriminate].
Qed.

(* ------------------------------------------------------------------ *)
(** ** Ranking of the candidates *)

Lemma sort_values_desc_perm (k : sort_kind) (s : list (string * Z)) :
  Permutation (Detection.sort_values_desc k s) s.
Proof.
  unfold Detection.sort_values_desc. apply take_perm.
  rewrite <- (length_map (fun p => Some (snd p)) s). apply nargsort_perm.
Qed.

Lemma nan_idx_all_some (s : list (string * Z)) :
  nan_idx (map (fun p => Some (snd p)) s) = [].
Proof.
  unfold nan_idx. apply filter_none. intros i Hi.
  apply in_seq in Hi. rewrite length_map in Hi.
  rewrite (nth_indep _ None (Some (snd (EmptyString, 0)))) by
    (rewrite length_map; lia).
  rewrite (map_nth (fun p => Some (snd p))). reflexivity.
Qed.

Lemma key_of_count (s : list (string * Z)) (i : nat) :
  key_of (nth i (map (fun p => Some (snd p)) s) None)
  = snd (nth i s (EmptyString, 0)).
Proof.
  destruct (Nat.lt_ge_cases i (length s)) as [H | H].
  - rewrite (nth_indep _ None (Some (snd (EmptyString, 0)))) by
      (rewrite length_map; lia).
    rewrite (map_nth (fun p => Some (snd p))). reflexivity.
  - rewrite !nth_overflow by (rewrite ?length_map; lia). reflexivity.
Qed.

Lemma StronglySorted_of_map {A B : Type} (f : A -> B) (R : B -> B -> Prop)
  (l : list A) :
  StronglySorted R (map f l) -> StronglySorted (fun a b => R (f a) (f b)) l.
Proof.
  induction l as [| a l IH]; simpl; intros H; [constructor |].
  inversion H; subst. constructor; [apply IH; assumption |].
  apply Forall_map. assumption.
Qed.

(** Whatever the sort kind, the ranked Series is in descending order of
    count. *)
Lemma sort_values_desc_sorted (k : sort_kind) (s : list (string * Z)) :
  StronglySorted (fun p q => snd q <= snd p) (Detection.sort_values_desc k s).
Proof.
  apply (StronglySorted_of_map snd (fun a b => b <= a)).
  unfold Detection.sort_values_desc, nargsort.
  rewrite nan_idx_all_some, app_nil_r.
  set (items := map (fun p => Some (snd p)) s).
  rewrite <- map_rev.
  set (X := take 0%nat (rev (non_nan_idx items)) _).
  unfold take at 1. rewrite map_map, map_rev.
  apply StronglySorted_rev.
  rewrite (map_ext _ (fun i => key_of (nth i items None)))
    by (intros i; symmetry; apply key_of_count).
  apply indexer_sorted.
Qed.

Lemma In_exceed_counts (d : Detection.frame) (a b : Z) (i : string) (c : Z) :
  In (i, c) (Detection.exceed_counts d a b)
  <-> exists col, In (i, col) (Detection.columns d) /\
                  c = Detection.exceed_count col a b.
Proof.
  unfold Detection.exceed_counts. rewrite in_map_iff. split.
  - intros [[j col] [E H]]. simpl in E. inversion E; subst.
    exists col. auto.
  - intros [col [H ->]]. exists (i, col). auto.
Qed.

(* ------------------------------------------------------------------ *)
(** ** Rolling mean, shift and difference, position by position *)

Lemma length_rolling_mean (w : nat) (l : list cell) :
  length (rolling_mean w l) = length l.
Proof. unfold rolling_mean. rewrite length_map, length_seq. reflexivity. Qed.

Lemma nth_rolling_mean (w : nat) (l : list cell) (t : nat) :
  nth t (rolling_mean w l) None
  = if (t <? length l)%nat then rolling_mean_at w l t else None.
Proof.
  unfold rolling_mean. destruct (t <? length l)%nat eqn:E.
  - apply Nat.ltb_lt in E.
    rewrite (nth_indep _ None (rolling_mean_at w l 0%nat)) by
      (rewrite length_map, length_seq; exact E).
    rewrite (map_nth (rolling_mean_at w l)), seq_nth by exact E.
    reflexivity.
  - apply Nat.ltb_ge in E. apply nth_overflow.
    rewrite length_map, length_seq. exact E.
Qed.

Lemma length_shift (p : Z) (l : list cell) : length (shift p l) = length l.
Proof.
  unfold shift. destruct (p <? 0).
  - rewrite length_app, length_skipn, repeat_length. lia.
  - rewrite length_app, length_firstn, repeat_length. lia.
Qed.

Lemma nth_repeat_none (k t : nat) : nth t (repeat (@None Q) k) None = None.
Proof.
  revert t. induction k as [| k IH]; intros [| t]; simpl; auto.
Qed.

(** A negative shift reads the cell [-p] positions ahead. *)
Lemma nth_shift_back (p : Z) (l : list cell) (t : nat) :
  p < 0 -> nth t (shift p l) None = nth (t + Z.to_nat (- p)) l None.
Proof.
  intros Hp. unfold shift. apply Z.ltb_lt in Hp. rewrite Hp.
  set (k := Z.to_nat (- p)). set (n := length l).
  destruct (Nat.lt_ge_cases (t + k) n) as [H | H].
  - rewrite app_nth1 by (rewrite length_skipn; fold n; lia).
    rewrite nth_skipn. f_equal. lia.
  - rewrite (nth_overflow l) by (fold n; lia).
    destruct (Nat.lt_ge_cases t (n - Nat.min k n)) as [H' | H'].
    + lia.
    + rewrite app_nth2 by (rewrite length_skipn; fold n; lia).
      apply nth_repeat_none.
Qed.

(** A positive shift reads the cell [p] positions behind. *)
Lemma nth_shift_fwd (p : Z) (l : list cell) (t : nat) :
  0 <= p -> (t < length l)%nat ->
  nth t (shift p l) None
  = if (t <? Z.to_nat p)%nat then None else nth (t - Z.to_nat p) l None.
Proof.
  intros Hp Ht. unfold shift.
  destruct (p <? 0) eqn:E; [apply Z.ltb_lt in E; lia |].
  set (k := Z.to_nat p). set (n := length l). fold n in Ht.
  destruct (t <? k)%nat eqn:Etk.
  - apply Nat.ltb_lt in Etk.
    rewrite app_nth1 by (rewrite repeat_length; lia).
    apply nth_repeat_none.
  - apply Nat.ltb_ge in Etk.
    rewrite app_nth2 by (rewrite repeat_length; lia).
    rewrite repeat_length, Nat.min_l by lia.
    rewrite nth_firstn.
    assert (Hlt : (t - k <? n - k)%nat = true) by (apply Nat.ltb_lt; lia).
    rewrite Hlt. reflexivity.
Qed.

Lemma nth_map2_cell_sub (l m : list cell) (t : nat) :
  length l = length m ->
  nth t (map2 cell_sub l m) None = cell_sub (nth t l None) (nth t m None).
Proof.
  revert m t. induction l as [| a l IH]; intros [| b m] t H; simpl in H;
    try discriminate.
  - destruct t; reflexivity.
  - destruct t as [| t]; simpl; [reflexivity |]. apply IH. lia.
Qed.

Lemma cell_sub_none_r (a : cell) : cell_sub a None = None.
Proof. destruct a; reflexivity. Qed.

Lemma nth_diff (p : Z) (l : list cell) (t : nat) :
  0 <= p ->
  nth t (diff p l) None
  = if (t <? Z.to_nat p)%nat then None
    else cell_sub (nth t l None) (nth (t - Z.to_nat p) l None).
Proof.
  intros Hp. unfold diff.
  rewrite nth_map2_cell_sub by (symmetry; apply length_shift).
  destruct (Nat.lt_ge_cases t (length l)) as [H | H].
  - rewrite nth_shift_fwd by assumption.
    destruct (t <? Z.to_nat p)%nat; [apply cell_sub_none_r | reflexivity].
  - rewrite (nth_overflow l) by exact H. simpl.
    destruct (t <? Z.to_nat p)%nat; reflexivity.
Qed.

Lemma all_present_map_Some (xs : list Q) :
  all_present (map (@Some Q) xs) = Some xs.
Proof.
  induction xs as [| x xs IH]; simpl; [reflexivity |].
  rewrite IH. reflexivity.
Qed.

(** The smoothed value at [t]: the rolling mean that ends four buckets
    later. *)
Lemma nth_smooth_col (col : list cell) (t : nat) :
  nth t (Detection.smooth_col col) None
  = if (t + 4 <? length col)%nat then rolling_mean_at 8 col (t + 4) else None.
Proof.
  unfold Detection.smooth_col, Detection.centring_shift,
    Detection.smoothing_window.
  rewrite nth_shift_back by lia.
  change (Z.to_nat (- -4)) with 4%nat.
  apply nth_rolling_mean.
Qed.

(** On a series without NaN the smoothed value at [t] is the mean of the
    buckets [t-3 .. t+4]; it is undefined where that window does not fit. *)
Lemma smooth_col_window (xs : list Q) (t : nat) :
  (3 <= t)%nat -> (t + 4 < length xs)%nat ->
  nth t (Detection.smooth_col (map (@Some Q) xs)) None
  = Some (Qsum (firstn 8 (skipn (t - 3) xs)) / 8)%Q.
Proof.
  intros H3 Hn. rewrite nth_smooth_col, length_map.
  assert (E : (t + 4 <? length xs)%nat = true) by (apply Nat.ltb_lt; lia).
  rewrite E. unfold rolling_mean_at, rolling_window.
  assert (E8 : (8 <=? t + 4 + 1)%nat = true) by (apply Nat.leb_le; lia).
  rewrite E8. replace (t + 4 + 1 - 8)%nat with (t - 3)%nat by lia.
  rewrite skipn_map, firstn_map, all_present_map_Some. reflexivity.
Qed.

Lemma smooth_col_edges (xs : list Q) (t : nat) :
  (t < 3)%nat \/ (length xs <= t + 4)%nat ->
  nth t (Detection.smooth_col (map (@Some Q) xs)) None = None.
Proof.
  intros H. rewrite nth_smooth_col, length_map.
  destruct (t + 4 <? length xs)%nat eqn:E; [| reflexivity].
  apply Nat.ltb_lt in E. unfold rolling_mean_at.
  assert (E8 : (8 <=? t + 4 + 1)%nat = false) by (apply Nat.leb_gt; lia).
  rewrite E8. reflexivity.
Qed.

Lemma length_smooth_col (c : list cell) :
  length (Detection.smooth_col c) = length c.
Proof.
  unfold Detection.smooth_col. rewrite length_shift. apply length_rolling_mean.
Qed.

(* ------------------------------------------------------------------ *)
(** ** The window of a game and the loop over the games *)

Lemma Qfloor_add_Z (x : Q) (z : Z) : Qfloor (x + inject_Z z) = Qfloor x + z.
Proof.
  destruct x as [n d]. unfold Qfloor, Qplus, inject_Z. simpl.
  rewrite Pos.mul_1_r, Z.mul_1_r. apply Z.div_add. discriminate.
Qed.

Lemma py_int_nonneg (x : Q) : (0 <= x)%Q -> py_int x = Qfloor x.
Proof.
  intros H. unfold py_int. apply Qle_bool_iff in H. rewrite H. reflexivity.
Qed.

(** Both indices of a game come from the same kickoff: the end index is the
    start index plus 27. *)
Lemma window_width (ko : string) (s e : Q) :
  Detection.s_idx ko = Some s -> Detection.e_idx ko = Some e ->
  (e == s + inject_Z 27)%Q.
Proof.
  unfold Detection.s_idx, Detection.e_idx.
  destruct (Detection.kickoff_hh ko) as [hh |]; [| discriminate].
  destruct (Detection.kickoff_mm ko) as [mm |]; [| discriminate].
  intros Hs He. inversion Hs; inversion He; subst.
  change (inject_Z 27) with 27%Q. ring.
Qed.

Lemma Qceiling_add_Z (x : Q) (z : Z) :
  Qceiling (x + inject_Z z) = Qceiling x + z.
Proof.
  unfold Qceiling.
  assert (E : (- (x + inject_Z z) == - x + inject_Z (- z))%Q).
  { rewrite inject_Z_opp. ring. }
  rewrite (Qfloor_comp _ _ E), Qfloor_add_Z. lia.
Qed.

Lemma Qceiling_floor (x : Q) : Qfloor x <= Qceiling x <= Qfloor x + 1.
Proof.
  split.
  - rewrite Zle_Qle. apply Qle_floor_ceiling.
  - assert (H : Qceiling x - 1 < Qfloor x + 1).
    { rewrite Zlt_Qlt.
      eapply Qlt_trans; [apply Qceiling_lt | apply Qlt_floor]. }
    lia.
Qed.

(** After [int(...)] the window of a game is 27 buckets wide, 26 when the
    start index is a negative fraction. *)
Lemma window_width_int (ko : string) (s e : Q) :
  Detection.s_idx ko = Some s -> Detection.e_idx ko = Some e ->
  26 <= py_int e - py_int s <= 27.
Proof.
  intros Hs He. pose proof (window_width ko s e Hs He) as Hw.
  rewrite (py_int_comp _ _ Hw). unfold py_int.
  rewrite Qfloor_add_Z, Qceiling_add_Z.
  pose proof (Qceiling_floor s).
  destruct (Qle_bool 0 s) eqn:E0; destruct (Qle_bool 0 (s + inject_Z 27)) eqn:E1;
    try lia.
  exfalso. apply Qle_bool_iff in E0.
  assert (H1 : (0 <= s + inject_Z 27)%Q).
  { change (inject_Z 27) with 27%Q. lra. }
  apply Qle_bool_iff in H1. congruence.
Qed.

Lemma window_positions_split (n : nat) (a b : Z) (t : nat) :
  0 <= a <= Z.of_nat t -> Z.of_nat t < b <= Z.of_nat n ->
  window_positions n a b
  = window_positions n a (Z.of_nat t) ++ t
      :: window_positions n (Z.of_nat t + 1) b.
Proof.
  intros Ha Hb.
  rewrite !window_positions_inside by lia.
  replace (Z.to_nat (b - a))
    with (Z.to_nat (Z.of_nat t - a) + S (Z.to_nat (b - (Z.of_nat t + 1))))%nat
    by lia.
  rewrite seq_app. simpl. repeat f_equal; lia.
Qed.

(** The second loop reads, for every game, the pair of indices the first
    loop stored for it. *)
Lemma detect_loop_games (k : sort_kind) (d : Detection.frame) (md : string)
  (games : list string) :
  forall (pre idx : list Q),
    Detection.match_times_idx games = Some idx ->
    Forall2
      (fun g o =>
         exists s e,
           Detection.s_idx g = Some s /\ Detection.e_idx g = Some e /\
           o = (Detection.blob_name md g,
                map fst (Detection.ip_pirate_list k d (py_int s) (py_int e))))
      games
      (Detection.detect_loop k d md (pre ++ idx) games (length pre)).
Proof.
  induction games as [| g gs IH]; intros pre idx H; simpl.
  - constructor.
  - simpl in H.
    destruct (Detection.s_idx g) as [s |] eqn:Es; [| discriminate].
    destruct (Detection.e_idx g) as [e |] eqn:Ee; [| discriminate].
    destruct (Detection.match_times_idx gs) as [rest |] eqn:Er;
      [| discriminate].
    inversion H; subst idx. constructor.
    + exists s, e. split; [exact Es | split; [exact Ee |]].
      assert (E0 : nth (length pre) (pre ++ s :: e :: rest) 0%Q = s).
      { rewrite app_nth2 by lia.
        replace (length pre - length pre)%nat with 0%nat by lia.
        reflexivity. }
      assert (E1 : nth (length pre + 1) (pre ++ s :: e :: rest) 0%Q = e).
      { rewrite app_nth2 by lia.
        replace (length pre + 1 - length pre)%nat with 1%nat by lia.
        reflexivity. }
      rewrite E0, E1. reflexivity.
    + specialize (IH (pre ++ [s; e]) rest eq_refl).
      rewrite <- app_assoc in IH. simpl in IH.
      rewrite length_app in IH. simpl in IH. exact IH.
Qed.

Lemma model_one_games (k : sort_kind) (tr : list Detection.sample)
  (fx : list Detection.fixture) (md : string)
  (out : list (string * list string)) :
  Detection.model_one k tr fx md = Some out ->
  exists n games,
    Detection.ips_normalized tr = Some n /\
    Detection.pl_games fx md = Some games /\
    Forall2
      (fun g o =>
         exists s e,
           Detection.s_idx g = Some s /\ Detection.e_idx g = Some e /\
           o = (Detection.blob_name md g,
                map fst (Detection.ip_pirate_list k
                           (Detection.ips_d (Detection.ips_smoothed n))
                           (py_int s) (py_int e))))
      games out.
Proof.
  unfold Detection.model_one.
  destruct (Detection.ips_normalized tr) as [n |]; [| discriminate].
  destruct (Detection.pl_games fx md) as [games |]; [| discriminate].
  destruct (Detection.match_times_idx games) as [idx |] eqn:E;
    [| discriminate].
  intros H. inversion H; subst out. exists n, games. repeat split.
  apply (detect_loop_games k _ md games [] idx E).
Qed.

Lemma window_positions_In (n : nat) (a b : Z) (t : nat) :
  0 <= a -> a <= b ->
  (In t (window_positions n a b)
   <-> a <= Z.of_nat t < b /\ (t < n)%nat).
Proof.
  intros Ha Hab. unfold window_positions, slice_bound.
  destruct (Z.ltb_spec a 0); [lia |].
  destruct (Z.ltb_spec b 0); [lia |].
  rewrite in_seq. lia.
Qed.

(** C10 (as amended).  For a game whose start index is not negative
    (kickoff from 00:30 on), the end index is the start index plus 27; the
    exceed count of a column is the number of exceeding cells among the
    positions the slice [[start_index, end_index)] reads; these are the
    positions [t] of the series with [start_index <= t < end_index], so the
    bucket at [end_index] is never counted; and they are exactly the 27
    positions [start_index .. end_index - 1] when the series has at least
    [end_index] rows. *)
Theorem window_is_half_open :
  forall (ko : string) (s e : Q),
    Detection.s_idx ko = Some s -> Detection.e_idx ko = Some e ->
    (0 <= s)%Q ->
    py_int e - py_int s = 27 /\ 0 <= py_int s /\
    (forall col : list cell,
        Detection.exceed_count col (py_int s) (py_int e)
        = Z.of_nat
            (length
               (filter (fun t => gt_scalar (nth t col None)
                                           Detection.threshold_rise)
                       (window_positions (length col) (py_int s) (py_int e))))) /\
    (forall (n t : nat),
        In t (window_positions n (py_int s) (py_int e))
        <-> py_int s <= Z.of_nat t < py_int e /\ (t < n)%nat) /\
    (forall n : nat,
        py_int e <= Z.of_nat n ->
        window_positions n (py_int s) (py_int e)
        = seq (Z.to_nat (py_int s)) 27).
Proof.
  intros ko s e Hs He H0.
  pose proof (window_width ko s e Hs He) as Hw.
  assert (Ha : py_int s = Qfloor s) by (apply py_int_nonneg; exact H0).
  assert (Hb : py_int e = Qfloor s + 27).
  { rewrite (py_int_comp _ _ Hw).
    rewrite py_int_nonneg; [apply Qfloor_add_Z |].
    change (inject_Z 27) with 27%Q. lra. }
  assert (Hf : 0 <= Qfloor s).
  { change 0 with (Qfloor 0). apply Qfloor_resp_le. exact H0. }
  rewrite Ha, Hb.
  split; [lia | split; [exact Hf | split; [| split]]].
  - intros col. apply exceed_count_positions.
  - intros n t. apply window_positions_In; lia.
  - intros n Hn. rewrite window_positions_inside by lia.
    f_equal. lia.
Qed.

Lemma window_is_half_open_witness :
  Detection.s_idx "15:00:00" = Some (870 # 5)%Q /\
  Detection.e_idx "15:00:00" = Some (1005 # 5)%Q /\
  (0 <= 870 # 5)%Q /\
  py_int (1005 # 5)%Q - py_int (870 # 5)%Q = 27 /\
  window_positions 288 (py_int (870 # 5)%Q) (py_int (1005 # 5)%Q)
  = seq (Z.to_nat (py_int (870 # 5)%Q)) 27.
Proof.
  assert (Hs : Detection.s_idx "15:00:00" = Some (870 # 5)%Q) by reflexivity.
  assert (He : Detection.e_idx "15:00:00" = Some (1005 # 5)%Q) by reflexivity.
  assert (H0 : (0 <= 870 # 5)%Q) by discriminate.
  pose proof (window_is_half_open "15:00:00"%string _ _ Hs He H0)
    as [H27 [_ [_ [_ Hseq]]]].
  split; [exact Hs | split; [exact He | split; [exact H0 |]]].
  split; [exact H27 |].
  apply (Hseq 288%nat). vm_compute. discriminate.
Defined.

(** C10 as stated fails at both ends of the day.  A series of 200 buckets,
    all exceeding, gives the 15:00 game (window [[174, 201)]) a count of 26:
    the slice stops with the series.  A full day of 288 exceeding buckets
    gives the 00:00 game (window [[-6, 21)]) a count of 0: the negative
    start is read from the end of the series, and the buckets 0 to 20 are
    not scanned. *)
Lemma window_is_clamped_to_the_series :
  option_map py_int (Detection.s_idx "15:00:00") = Some 174 /\
  option_map py_int (Detection.e_idx "15:00:00") = Some 201 /\
  Detection.exceed_count (repeat (Some 1%Q) 200) 174 201 = 26 /\
  option_map py_int (Detection.s_idx "00:00:00") = Some (-6) /\
  option_map py_int (Detection.e_idx "00:00:00") = Some 21 /\
  Detection.exceed_count (repeat (Some 1%Q) 288) (-6) 21 = 0 /\
  window_positions 288 (-6) 21 = [].
Proof.
  repeat split; vm_compute; reflexivity.
Qed.

(* ------------------------------------------------------------------ *)
(** ** Candidate detector *)

(** C2 (as amended).  For every sort kind: the exceed count of a column
    over a window is the number of positions the slice reads whose cell is
    defined and strictly greater than 0.1; it is a non-negative integer at
    most the number of those positions (at most [b - a], and at most 27 for
    the window of a game); the list of candidates of a window holds exactly
    the endpoints whose count is strictly greater than 10, each once, with
    that count, in descending order of count; and [model_one] writes, for
    every game of the date, the endpoints of that list for the window of the
    game.  (The order among equal counts is the sort kind's.) *)
Theorem candidates_counted_filtered_ranked :
  forall k : sort_kind,
    (forall (col : list cell) (a b : Z),
        Detection.exceed_count col a b
        = Z.of_nat
            (length
               (filter (fun t => gt_scalar (nth t col None)
                                           Detection.threshold_rise)
                       (window_positions (length col) a b))) /\
        0 <= Detection.exceed_count col a b
             <= Z.of_nat (length (window_positions (length col) a b)) /\
        (a <= b -> Detection.exceed_count col a b <= b - a)) /\
    (forall (ko : string) (s e : Q) (col : list cell),
        Detection.s_idx ko = Some s -> Detection.e_idx ko = Some e ->
        0 <= Detection.exceed_count col (py_int s) (py_int e) <= 27) /\
    (forall v : cell,
        gt_scalar v Detection.threshold_rise = true
        <-> exists x, v = Some x /\ (1 # 10 < x)%Q) /\
    (forall (d : Detection.frame) (a b : Z),
        Permutation (Detection.ip_pirate_list k d a b)
                    (filter (fun p => 10 <? snd p)
                            (Detection.exceed_counts d a b)) /\
        (forall (i : string) (c : Z),
            In (i, c) (Detection.ip_pirate_list k d a b)
            <-> exists col, In (i, col) (Detection.columns d) /\
                            c = Detection.exceed_count col a b /\ 10 < c) /\
        StronglySorted (fun p q => snd q <= snd p)
                       (Detection.ip_pirate_list k d a b)) /\
    (forall (tr : list Detection.sample) (fx : list Detection.fixture)
            (md : string) (out : list (string * list string)),
        Detection.model_one k tr fx md = Some out ->
        exists n games,
          Detection.ips_normalized tr = Some n /\
          Detection.pl_games fx md = Some games /\
          Forall2
            (fun g o =>
               exists s e,
                 Detection.s_idx g = Some s /\ Detection.e_idx g = Some e /\
                 o = (Detection.blob_name md g,
                      map fst (Detection.ip_pirate_list k
                                 (Detection.ips_d (Detection.ips_smoothed n))
                                 (py_int s) (py_int e))))
            games out).
Proof.
  intros k. split; [| split; [| split; [| split]]].
  - intros col a b. split; [apply exceed_count_positions | split].
    + apply exceed_count_bounds.
    + intros Hb. pose proof (exceed_count_bounds col a b).
      pose proof (window_positions_length (length col) a b Hb). lia.
  - intros ko s e col Hs He.
    pose proof (window_width_int ko s e Hs He).
    pose proof (exceed_count_bounds col (py_int s) (py_int e)).
    pose proof (window_positions_length (length col) (py_int s) (py_int e)).
    lia.
  - intros v. apply gt_scalar_spec.
  - intros d a b. split; [apply sort_values_desc_perm | split].
    + intros i c. unfold Detection.ip_pirate_list. split.
      * intros H.
        apply (Permutation_in _ (sort_values_desc_perm k _)) in H.
        apply filter_In in H. destruct H as [H Hc]. simpl in Hc.
        apply In_exceed_counts in H. destruct H as [col [H1 H2]].
        exists col. repeat split; try assumption.
        apply Z.ltb_lt. exact Hc.
      * intros [col [H1 [H2 H3]]].
        apply (Permutation_in _ (Permutation_sym (sort_values_desc_perm k _))).
        apply filter_In. split.
        -- apply In_exceed_counts. exists col. auto.
        -- simpl. apply Z.ltb_lt. exact H3.
    + apply sort_values_desc_sorted.
  - intros tr fx md out H. apply model_one_games. exact H.
Qed.

Lemma candidates_counted_filtered_ranked_witness :
  let col :=
    (repeat None 170 ++ repeat (Some (1 # 5)) 20 ++ repeat (Some (1 # 20)) 98)%Q
  in
  (* a column with 16 exceeding buckets in the window of the 15:00 game *)
  (exists s e : Q,
      Detection.s_idx "15:00:00" = Some s /\
      Detection.e_idx "15:00:00" = Some e /\
      py_int s = 174 /\ py_int e = 201 /\
      Detection.exceed_count col (py_int s) (py_int e) = 16 /\
      0 <= Detection.exceed_count col (py_int s) (py_int e) <= 27) /\
  (* two endpoints with 26 exceeding buckets each *)
  exists (out : list (string * list string)) (n : Detection.frame)
         (games : list string),
    Detection.model_one stable_kind Samples.tied_traffic Samples.fixtures
      "2021-04-12" = Some out /\
    out = [ ("ips_20210412_1500_UTC.csv"%string,
             [ "10.0.0.1"%string; "10.0.0.2"%string ]) ] /\
    Detection.ips_normalized Samples.tied_traffic = Some n /\
    Detection.pl_games Samples.fixtures "2021-04-12" = Some games /\
    Forall2
      (fun g o =>
         exists s e,
           Detection.s_idx g = Some s /\ Detection.e_idx g = Some e /\
           o = (Detection.blob_name "2021-04-12" g,
                map fst (Detection.ip_pirate_list stable_kind
                           (Detection.ips_d (Detection.ips_smoothed n))
                           (py_int s) (py_int e))))
      games out.
Proof.
  intros col. split.
  - destruct (Detection.s_idx "15:00:00") as [s |] eqn:Es;
      [| vm_compute in Es; discriminate].
    destruct (Detection.e_idx "15:00:00") as [e |] eqn:Ee;
      [| vm_compute in Ee; discriminate].
    exists s, e.
    split; [reflexivity | split; [reflexivity |]].
    pose proof (proj1 (proj2 (candidates_counted_filtered_ranked stable_kind))
                  "15:00:00"%string s e col Es Ee) as Hb.
    vm_compute in Es. injection Es as Es. subst s.
    vm_compute in Ee. injection Ee as Ee. subst e.
    split; [reflexivity | split; [reflexivity |]].
    split; [vm_compute; reflexivity | exact Hb].
  - destruct (Detection.model_one stable_kind Samples.tied_traffic
                Samples.fixtures "2021-04-12"%string) as [out |] eqn:E;
      [| vm_compute in E; discriminate].
    destruct (proj2 (proj2 (proj2 (proj2
                (candidates_counted_filtered_ranked stable_kind))))
                Samples.tied_traffic Samples.fixtures "2021-04-12"%string
                out E)
      as [n [games [Hn [Hg Hout]]]].
    exists out, n, games.
    split; [reflexivity |].
    split; [vm_compute in E; injection E as E; symmetry; exact E |].
    split; [exact Hn | split; [exact Hg | exact Hout]].
Defined.

(** C2 as stated fails on its tie-breaking clause.  Seventeen endpoints
    with the same traffic have the same exceed count, 26, in the window of
    the 15:00 game, and an eighteenth has 20.  [sort_values] sorts the 18
    counts with NumPy's quicksort, a kind NumPy documents as not stable: the
    kernel [Npysort.aquicksort] partitions a range of more than 17
    positions, and [model_one] writes the seventeen tied endpoints as first,
    second, seventeenth, sixteenth, ... third of their column order.  (With
    a stable kind they come out in column order, and so do the two tied
    endpoints of [tied_traffic] under [Npysort.aquicksort], which sorts
    them by insertion.  A build of NumPy that dispatches a vectorised
    kernel for 64-bit keys may order the ties in yet another way.) *)
Lemma ties_leave_column_order :
  option_map (fun n => Detection.exceed_counts
                         (Detection.ips_d (Detection.ips_smoothed n)) 174 201)
             (Detection.ips_normalized Samples.crowd)
  = Some (map (fun i => (i, 26)) (firstn 17 Samples.addresses)
          ++ [("27.8.0.1"%string, 20)]) /\
  Detection.model_one numpy_kind Samples.crowd Samples.fixtures "2021-04-12"
  = Some [("ips_20210412_1500_UTC.csv"%string,
           [ "10.8.0.1"; "11.8.0.1"; "26.8.0.1"; "25.8.0.1"; "24.8.0.1";
             "23.8.0.1"; "22.8.0.1"; "21.8.0.1"; "20.8.0.1"; "19.8.0.1";
             "18.8.0.1"; "17.8.0.1"; "16.8.0.1"; "15.8.0.1"; "14.8.0.1";
             "13.8.0.1"; "12.8.0.1"; "27.8.0.1" ]%string)] /\
  Detection.model_one stable_kind Samples.crowd Samples.fixtures "2021-04-12"
  = Some [("ips_20210412_1500_UTC.csv"%string, Samples.addresses)] /\
  Npysort.aquicksort (20 :: repeat 26 17)
  = [0; 15; 14; 13; 12; 11; 10; 9; 8; 7; 6; 5; 4; 3; 2; 1; 16; 17]%nat /\
  is_argsort (20 :: repeat 26 17) (Npysort.aquicksort (20 :: repeat 26 17))
  = true /\
  Detection.model_one numpy_kind Samples.tied_traffic Samples.fixtures
                      "2021-04-12"
  = Some [("ips_20210412_1500_UTC.csv"%string,
           ["10.0.0.1"%string; "10.0.0.2"%string])].
Proof.
  destruct (Detection.ips_normalized Samples.crowd) as [n |] eqn:E.
  - assert (En : Detection.ips_normalized Samples.crowd = Some n) by exact E.
    vm_compute in E. injection E as E.
    assert (Hm : forall k : sort_kind,
               Detection.model_one k Samples.crowd Samples.fixtures
                                   "2021-04-12"
               = Some (Detection.detect_loop k
                         (Detection.ips_d (Detection.ips_smoothed n))
                         "2021-04-12" [174; 201]%Q ["15:00:00"%string] 0)).
    { intros k. unfold Detection.model_one. rewrite En. reflexivity. }
    split; [| split; [| split; [| split; [| split]]]].
    + rewrite <- E. vm_compute. reflexivity.
    + rewrite Hm, <- E. vm_compute. reflexivity.
    + rewrite Hm, <- E. vm_compute. reflexivity.
    + vm_compute. reflexivity.
    + vm_compute. reflexivity.
    + vm_compute. reflexivity.
  - vm_compute in E. discriminate.
Qed.

(** C7.  A NaN cell never exceeds a threshold, whatever the threshold; a
    window bucket whose differenced value is undefined adds nothing to the
    exceed count; the edge buckets of the differenced series (the first 7
    and the last 4) are undefined, not zero; an undefined smoothed value
    makes the difference undefined, hence not exceeding; and [model_one]
    returns its artifacts, one per game, whenever normalisation and the
    reading of the fixtures succeed, however short the series is. *)
Theorem undefined_buckets_do_not_exceed :
  (forall th : Q, gt_scalar None th = false) /\
  (forall (col : list cell) (a b : Z) (t : nat),
      0 <= a <= Z.of_nat t -> Z.of_nat t < b <= Z.of_nat (length col) ->
      nth t col None = None ->
      Detection.exceed_count col a b
      = Detection.exceed_count col a (Z.of_nat t)
        + Detection.exceed_count col (Z.of_nat t + 1) b) /\
  (forall (xs : list Q) (t : nat),
      (t < 7)%nat \/ (length xs <= t + 4)%nat ->
      nth t (diff Detection.diff_lag
               (Detection.smooth_col (map (@Some Q) xs))) None = None) /\
  (forall (s : list cell) (t : nat),
      nth t s None = None \/ nth (t - 4) s None = None ->
      gt_scalar (nth t (diff Detection.diff_lag s) None)
                Detection.threshold_rise = false) /\
  (forall (k : sort_kind) (tr : list Detection.sample)
          (fx : list Detection.fixture) (md : string)
          (n : Detection.frame) (games : list string) (idx : list Q),
      Detection.ips_normalized tr = Some n ->
      Detection.pl_games fx md = Some games ->
      Detection.match_times_idx games = Some idx ->
      exists out,
        Detection.model_one k tr fx md = Some out /\
        length out = length games).
Proof.
  split; [| split; [| split; [| split]]].
  - reflexivity.
  - intros col a b t Ha Hb Hnan.
    rewrite !exceed_count_positions.
    rewrite (window_positions_split (length col) a b t Ha Hb).
    rewrite filter_app, length_app. simpl. rewrite Hnan. simpl. lia.
  - intros xs t H. unfold Detection.diff_lag. rewrite nth_diff by lia.
    change (Z.to_nat 4) with 4%nat.
    destruct (t <? 4)%nat eqn:E; [reflexivity |]. apply Nat.ltb_ge in E.
    rewrite !nth_smooth_col, length_map.
    destruct H as [H | H].
    + assert (E1 : rolling_mean_at 8 (map (@Some Q) xs) (t - 4 + 4) = None).
      { unfold rolling_mean_at.
        assert (E8 : (8 <=? t - 4 + 4 + 1)%nat = false)
          by (apply Nat.leb_gt; lia).
        rewrite E8. reflexivity. }
      rewrite E1. destruct (t - 4 + 4 <? length xs)%nat; apply cell_sub_none_r.
    + assert (E1 : (t + 4 <? length xs)%nat = false)
        by (apply Nat.ltb_ge; lia).
      rewrite E1. reflexivity.
  - intros s t H. unfold Detection.diff_lag. rewrite nth_diff by lia.
    destruct (t <? Z.to_nat 4)%nat; [reflexivity |].
    change (Z.to_nat 4) with 4%nat.
    destruct H as [H | H]; rewrite H; [reflexivity |].
    rewrite cell_sub_none_r. reflexivity.
  - intros k tr fx md n games idx Hn Hg Hi.
    unfold Detection.model_one. rewrite Hn, Hg, Hi.
    eexists. split; [reflexivity |].
    generalize 0%nat. clear.
    induction games as [| g gs IH]; intros c; simpl; [reflexivity |].
    rewrite IH. reflexivity.
Qed.

Lemma undefined_buckets_do_not_exceed_witness :
  0 <= 0 <= Z.of_nat 1 /\
  Z.of_nat 1 < 3 <= Z.of_nat (length [Some (1 # 5); None; Some (1 # 2)]%Q) /\
  nth 1 [Some (1 # 5); None; Some (1 # 2)]%Q None = None /\
  Detection.exceed_count [Some (1 # 5); None; Some (1 # 2)]%Q 0 3
  = Detection.exceed_count [Some (1 # 5); None; Some (1 # 2)]%Q 0 (Z.of_nat 1)
    + Detection.exceed_count [Some (1 # 5); None; Some (1 # 2)]%Q
        (Z.of_nat 1 + 1) 3.
Proof.
  split; [lia | split; [simpl; lia | split; [reflexivity |]]].
  apply (proj1 (proj2 undefined_buckets_do_not_exceed)
           [Some (1 # 5); None; Some (1 # 2)]%Q 0 3 1%nat);
    [lia | simpl; lia | reflexivity].
Defined.

(* ------------------------------------------------------------------ *)
(** ** Normalisation *)

Local Open Scope Q_scope.

Lemma fold_Qmin_In (x : Q) (l : list Q) : In (fold_right Qmin x l) (x :: l).
Proof.
  induction l as [| a l IH]; [left; reflexivity |].
  change (fold_right Qmin x (a :: l)) with (Qmin a (fold_right Qmin x l)).
  set (m := fold_right Qmin x l) in *.
  unfold Qmin, GenericMinMax.gmin.
  destruct (Qcompare a m).
  - right. left. reflexivity.
  - right. left. reflexivity.
  - destruct IH as [IH | IH]; [left; exact IH | right; right; exact IH].
Qed.

Lemma fold_Qmax_In (x : Q) (l : list Q) : In (fold_right Qmax x l) (x :: l).
Proof.
  induction l as [| a l IH]; [left; reflexivity |].
  change (fold_right Qmax x (a :: l)) with (Qmax a (fold_right Qmax x l)).
  set (m := fold_right Qmax x l) in *.
  unfold Qmax, GenericMinMax.gmax.
  destruct (Qcompare a m).
  - right. left. reflexivity.
  - destruct IH as [IH | IH]; [left; exact IH | right; right; exact IH].
  - right. left. reflexivity.
Qed.

Lemma fold_Qmin_le (x : Q) (l : list Q) (v : Q) :
  In v (x :: l) -> fold_right Qmin x l <= v.
Proof.
  induction l as [| a l IH]; simpl; intros H.
  - destruct H as [<- | []]. apply Qle_refl.
  - destruct H as [<- | [<- | H]].
    + eapply Qle_trans; [apply Q.le_min_r | apply IH; left; reflexivity].
    + apply Q.le_min_l.
    + eapply Qle_trans; [apply Q.le_min_r | apply IH; right; exact H].
Qed.

Lemma fold_Qmax_ge (x : Q) (l : list Q) (v : Q) :
  In v (x :: l) -> v <= fold_right Qmax x l.
Proof.
  induction l as [| a l IH]; simpl; intros H.
  - destruct H as [<- | []]. apply Qle_refl.
  - destruct H as [<- | [<- | H]].
    + eapply Qle_trans; [apply IH; left; reflexivity | apply Q.le_max_r].
    + apply Q.le_max_l.
    + eapply Qle_trans; [apply IH; right; exact H | apply Q.le_max_r].
Qed.

Lemma Qlt_bool_spec (x y : Q) : Qlt_bool x y = true <-> x < y.
Proof.
  unfold Qlt_bool. rewrite negb_true_iff. split.
  - intros H. apply Qnot_le_lt. intros Hle.
    apply Qle_bool_iff in Hle. congruence.
  - intros H. destruct (Qle_bool y x) eqn:E; [| reflexivity].
    apply Qle_bool_iff in E. exfalso. apply (Qlt_not_le _ _ H E).
Qed.

Lemma Forall2_map_self {A B : Type} (R : B -> A -> Prop) (f : A -> B)
  (l : list A) :
  (forall a, In a l -> R (f a) a) -> Forall2 R (map f l) l.
Proof.
  induction l as [| a l IH]; intros H; simpl; constructor.
  - apply H. left. reflexivity.
  - apply IH. intros b Hb. apply H. right. exact Hb.
Qed.

Lemma Forall2_map_left {A B C : Type} (R : B -> C -> Prop) (f : A -> B)
  (l : list A) (m : list C) :
  Forall2 (fun a c => R (f a) c) l m -> Forall2 R (map f l) m.
Proof.
  induction 1 as [| a c l m Hac _ IH]; simpl; constructor; assumption.
Qed.

(** Min-max scaling of one series, evaluated exactly: values in [[0, 1]],
    the minimum at 0; a constant series goes to 0 everywhere; a series
    whose range is at least [10 * eps] reaches 1; a series whose range is
    below [10 * eps] is only moved down by its minimum. *)
Lemma minmax_scale_col_unit (xs : list Q) :
  length (Detection.minmax_scale_col xs) = length xs /\
  (forall q, In q (Detection.minmax_scale_col xs) -> 0 <= q <= 1) /\
  (constant xs -> forall q, In q (Detection.minmax_scale_col xs) -> q == 0) /\
  (xs <> [] -> exists q, In q (Detection.minmax_scale_col xs) /\ q == 0) /\
  (forall lo hi : Q,
      In lo xs -> In hi xs -> (forall v, In v xs -> lo <= v <= hi) ->
      (Detection.ten_eps <= hi - lo ->
       exists q, In q (Detection.minmax_scale_col xs) /\ q == 1) /\
      (hi - lo < Detection.ten_eps ->
       Forall2 (fun q v => q == v - lo) (Detection.minmax_scale_col xs) xs)).
Proof.
  destruct xs as [| x l].
  { simpl. split; [reflexivity | split; [| split; [| split]]].
    - intros q [].
    - intros _ q [].
    - intros H. exfalso. apply H. reflexivity.
    - intros lo hi []. }
  unfold Detection.minmax_scale_col.
  set (mn := fold_right Qmin x l). set (mx := fold_right Qmax x l).
  set (xs := x :: l).
  assert (Hmn : forall v, In v xs -> mn <= v) by (apply fold_Qmin_le).
  assert (Hmx : forall v, In v xs -> v <= mx) by (apply fold_Qmax_ge).
  assert (Imn : In mn xs) by (apply fold_Qmin_In).
  assert (Imx : In mx xs) by (apply fold_Qmax_In).
  assert (Heps : 0 < Detection.ten_eps /\ Detection.ten_eps < 1)
    by (split; reflexivity).
  assert (Hends : forall lo hi : Q,
             In lo xs -> In hi xs -> (forall v, In v xs -> lo <= v <= hi) ->
             lo == mn /\ hi == mx).
  { intros lo hi Hlo Hhi Hb.
    pose proof (Hmn lo Hlo). pose proof (proj1 (Hb mn Imn)).
    pose proof (Hmx hi Hhi). pose proof (proj2 (Hb mx Imx)).
    split; lra. }
  unfold Detection.handle_zeros_in_scale.
  destruct (Qlt_bool (mx - mn) Detection.ten_eps) eqn:E.
  - (* a range below 10 eps *)
    apply Qlt_bool_spec in E.
    assert (Hs : forall v, v * ((1 - 0) / 1) + (0 - mn * ((1 - 0) / 1))
                           == v - mn) by (intros v; field).
    split; [apply length_map | split; [| split; [| split]]].
    + intros q Hq. apply in_map_iff in Hq. destruct Hq as [v [<- Hv]].
      rewrite (Hs v). specialize (Hmn v Hv). specialize (Hmx v Hv).
      split; lra.
    + intros Hc q Hq. apply in_map_iff in Hq. destruct Hq as [v [<- Hv]].
      rewrite (Hs v), (Hc v mn Hv Imn). ring.
    + intros _. exists (mn * ((1 - 0) / 1) + (0 - mn * ((1 - 0) / 1))).
      split; [| ring].
      apply (in_map (fun v => v * ((1 - 0) / 1) + (0 - mn * ((1 - 0) / 1)))).
      exact Imn.
    + intros lo hi Hlo Hhi Hb.
      destruct (Hends lo hi Hlo Hhi Hb) as [El Eh]. split.
      * intros H. exfalso. lra.
      * intros _. apply Forall2_map_self. intros v _.
        rewrite (Hs v), El. reflexivity.
  - (* a range of at least 10 eps *)
    assert (Hr : Detection.ten_eps <= mx - mn).
    { apply Qnot_lt_le. intros H. apply Qlt_bool_spec in H. congruence. }
    assert (Hne : ~ mx - mn == 0) by lra.
    assert (Hs : forall v,
               v * ((1 - 0) / (mx - mn)) + (0 - mn * ((1 - 0) / (mx - mn)))
               == (v - mn) / (mx - mn)).
    { intros v. field. exact Hne. }
    split; [apply length_map | split; [| split; [| split]]].
    + intros q Hq. apply in_map_iff in Hq. destruct Hq as [v [<- Hv]].
      rewrite (Hs v). specialize (Hmn v Hv). specialize (Hmx v Hv). split.
      * apply Qle_shift_div_l; lra.
      * apply Qle_shift_div_r; lra.
    + intros Hc. exfalso. apply Hne.
      rewrite (Hc mx mn Imx Imn). ring.
    + intros _.
      exists (mn * ((1 - 0) / (mx - mn)) + (0 - mn * ((1 - 0) / (mx - mn)))).
      split; [| ring].
      apply (in_map (fun v => v * ((1 - 0) / (mx - mn))
                              + (0 - mn * ((1 - 0) / (mx - mn))))).
      exact Imn.
    + intros lo hi Hlo Hhi Hb.
      destruct (Hends lo hi Hlo Hhi Hb) as [El Eh]. split.
      * intros _.
        exists (mx * ((1 - 0) / (mx - mn)) + (0 - mn * ((1 - 0) / (mx - mn)))).
        split; [| rewrite (Hs mx); field; exact Hne].
        apply (in_map (fun v => v * ((1 - 0) / (mx - mn))
                                + (0 - mn * ((1 - 0) / (mx - mn))))).
        exact Imx.
      * intros H. exfalso. lra.
Qed.

Local Close Scope Q_scope.

Lemma combine_map_fst {A B C : Type} (g : A * B -> C) (l : list (A * B)) :
  combine (map fst l) (map g l) = map (fun c => (fst c, g c)) l.
Proof.
  induction l as [| a l IH]; simpl; [reflexivity |].
  rewrite IH. reflexivity.
Qed.

Lemma pivot_table_names (tr : list Detection.sample) :
  map fst (Detection.columns (Detection.pivot_table tr))
  = unique_sorted string_dec String.leb (map Detection.ip tr).
Proof.
  unfold Detection.pivot_table. simpl. rewrite map_map. simpl. apply map_id.
Qed.

Lemma NoDup_fst_unique {A B : Type} (i : A) (a b : B)
  (l : list (A * B)) :
  NoDup (map fst l) -> In (i, a) l -> In (i, b) l -> a = b.
Proof.
  induction l as [| [j c] l IH]; simpl; intros Hnd Ha Hb; [contradiction |].
  inversion Hnd as [| x m Hx Hm]; subst.
  destruct Ha as [Ha | Ha]; destruct Hb as [Hb | Hb].
  - congruence.
  - inversion Ha; subst. exfalso. apply Hx.
    apply (in_map fst) in Hb. exact Hb.
  - inversion Hb; subst. exfalso. apply Hx.
    apply (in_map fst) in Ha. exact Ha.
  - apply IH; assumption.
Qed.

(** The columns of the normalised frame: the top talkers of the pivot,
    zero-filled and scaled, under their own names. *)
Lemma ips_normalized_columns (tr : list Detection.sample) (n : Detection.frame) :
  Detection.ips_normalized tr = Some n ->
  Detection.columns n
  = map (fun c => (fst c,
                   map (@Some Q)
                       (Detection.minmax_scale_col (map fillna0 (snd c)))))
        (Detection.columns (Detection.top_talkers (Detection.pivot_table tr))).
Proof.
  unfold Detection.ips_normalized.
  set (cols := Detection.columns
                 (Detection.top_talkers (Detection.pivot_table tr))).
  destruct (Detection.minmax_scale _ _) as [scaled |] eqn:E; [| discriminate].
  intros H. inversion H; subst n. simpl.
  assert (Es : scaled
               = map Detection.minmax_scale_col
                     (map (fun c => map fillna0 (snd c)) cols)).
  { unfold Detection.minmax_scale in E.
    destruct (length _); [discriminate |].
    destruct (map (fun c => map fillna0 (snd c)) cols); [discriminate |].
    inversion E. reflexivity. }
  rewrite Es, !map_map.
  apply (combine_map_fst
           (fun c => map (@Some Q)
                         (Detection.minmax_scale_col (map fillna0 (snd c))))).
Qed.

Lemma unique_sorted_nil_iff {A : Type}
  (eq_dec : forall x y : A, {x = y} + {x <> y})
  (leb : A -> A -> bool) (l : list A) :
  unique_sorted eq_dec leb l = [] <-> l = [].
Proof.
  split; [| intros ->; reflexivity].
  intros H. destruct l as [| a l]; [reflexivity |].
  exfalso. assert (Hin : In a (unique_sorted eq_dec leb (a :: l)))
    by (apply unique_sorted_In; left; reflexivity).
  rewrite H in Hin. contradiction.
Qed.

(** Normalisation fails exactly when the top-talker filter keeps no
    endpoint. *)
Lemma ips_normalized_None (tr : list Detection.sample) :
  Detection.ips_normalized tr = None
  <-> Detection.columns (Detection.top_talkers (Detection.pivot_table tr)) = [].
Proof.
  unfold Detection.ips_normalized.
  set (cols := Detection.columns
                 (Detection.top_talkers (Detection.pivot_table tr))).
  set (nrows := length (Detection.index
                          (Detection.top_talkers (Detection.pivot_table tr)))).
  assert (Hrows : nrows = 0%nat -> cols = []).
  { unfold nrows, cols. simpl. intros H.
    apply length_zero_iff_nil, unique_sorted_nil_iff in H.
    destruct tr; [reflexivity | discriminate]. }
  unfold Detection.minmax_scale. split.
  - intros H. destruct nrows as [| m]; [apply Hrows; reflexivity |].
    destruct cols as [| c cs]; [reflexivity | discriminate].
  - intros ->. simpl. destruct nrows; reflexivity.
Qed.

(** C5 (as amended).  An endpoint of the pivot whose maximum bandwidth is at
    most 0.02 has no column after the top-talker filter, hence none in the
    normalised frame; an endpoint whose maximum is above 0.02 is kept:
    normalisation succeeds and the frame has its column.  Every column of
    the normalised frame is the scaling [x * scale_ + min_] of such a pivot
    column, zero-filled, with a defined value in every bucket.  Evaluated
    exactly these values lie in [[0, 1]] and some bucket is at 0; they are
    all 0 when the series is constant; some bucket is at 1 when the range
    of the series is at least [10 * eps]; and when the range is below
    [10 * eps] every value is the raw value less the minimum.  (The program
    evaluates the formula in float64, [F64.minmax_scale_col], hence up to
    rounding.) *)
Theorem top_talkers_scaled_to_unit_interval :
  forall tr : list Detection.sample,
    (forall (i : string) (raw : list cell) (m : Q),
        In (i, raw) (Detection.columns (Detection.pivot_table tr)) ->
        Detection.col_max raw = Some m ->
        (m <= Detection.top_talker_threshold)%Q ->
        ~ In i (map fst (Detection.columns
                           (Detection.top_talkers (Detection.pivot_table tr))))) /\
    (forall (i : string) (raw : list cell) (m : Q),
        In (i, raw) (Detection.columns (Detection.pivot_table tr)) ->
        Detection.col_max raw = Some m ->
        (Detection.top_talker_threshold < m)%Q ->
        exists n : Detection.frame,
          Detection.ips_normalized tr = Some n /\
          In (i, map (@Some Q) (Detection.minmax_scale_col (map fillna0 raw)))
             (Detection.columns n)) /\
    (forall n : Detection.frame,
        Detection.ips_normalized tr = Some n ->
        map fst (Detection.columns n)
        = map fst (Detection.columns
                     (Detection.top_talkers (Detection.pivot_table tr))) /\
        forall (i : string) (c : list cell),
          In (i, c) (Detection.columns n) ->
          exists (raw : list cell) (m : Q),
            In (i, raw) (Detection.columns (Detection.pivot_table tr)) /\
            Detection.col_max raw = Some m /\
            (Detection.top_talker_threshold < m)%Q /\
            c = map (@Some Q) (Detection.minmax_scale_col (map fillna0 raw)) /\
            length c = length raw /\
            (forall v, In v c -> exists q, v = Some q /\ (0 <= q <= 1)%Q) /\
            (exists q, In (Some q) c /\ (q == 0)%Q) /\
            (constant (map fillna0 raw) ->
             forall q, In (Some q) c -> (q == 0)%Q) /\
            (forall lo hi : Q,
                In lo (map fillna0 raw) -> In hi (map fillna0 raw) ->
                (forall v, In v (map fillna0 raw) -> (lo <= v <= hi)%Q) ->
                ((Detection.ten_eps <= hi - lo)%Q ->
                 exists q, In (Some q) c /\ (q == 1)%Q) /\
                ((hi - lo < Detection.ten_eps)%Q ->
                 Forall2 (fun v x => cell_eq v (Some (x - lo)%Q))
                         c (map fillna0 raw)))).
Proof.
  intros tr. split; [| split].
  - intros i raw m Hraw Hmax Hle Hin.
    apply in_map_iff in Hin. destruct Hin as [[j raw'] [Ej Hj]].
    simpl in Ej. subst j.
    unfold Detection.top_talkers in Hj. simpl in Hj.
    apply filter_In in Hj. destruct Hj as [Hj Ht]. simpl in Ht.
    assert (raw' = raw).
    { apply (NoDup_fst_unique i raw' raw
               (Detection.columns (Detection.pivot_table tr)));
        [| exact Hj | exact Hraw].
      rewrite pivot_table_names. apply unique_sorted_NoDup. }
    subst raw'. rewrite Hmax in Ht.
    apply gt_scalar_spec in Ht. destruct Ht as [x [Ex Hx]].
    inversion Ex; subst x. apply (Qlt_not_le _ _ Hx Hle).
  - intros i raw m Hraw Hmax Hm.
    assert (Hkept : In (i, raw)
                       (Detection.columns
                          (Detection.top_talkers (Detection.pivot_table tr)))).
    { unfold Detection.top_talkers. cbn [Detection.columns].
      apply filter_In. split; [exact Hraw |]. cbn [snd].
      apply gt_scalar_spec. exists m. split; [exact Hmax | exact Hm]. }
    destruct (Detection.ips_normalized tr) as [n |] eqn:En.
    + exists n. split; [reflexivity |].
      rewrite (ips_normalized_columns tr n En).
      apply (in_map (fun c => (fst c,
                               map (@Some Q)
                                   (Detection.minmax_scale_col
                                      (map fillna0 (snd c)))))) in Hkept.
      exact Hkept.
    + exfalso. apply ips_normalized_None in En. rewrite En in Hkept.
      contradiction.
  - intros n Hn. pose proof (ips_normalized_columns tr n Hn) as Hc.
    split; [rewrite Hc, map_map; reflexivity |].
    intros i c Hin. rewrite Hc in Hin.
    apply in_map_iff in Hin. destruct Hin as [[j raw] [Ej Hj]].
    simpl in Ej. inversion Ej; subst j c. clear Ej.
    unfold Detection.top_talkers in Hj. simpl in Hj.
    apply filter_In in Hj. destruct Hj as [Hj Ht]. simpl in Ht.
    apply gt_scalar_spec in Ht. destruct Ht as [m [Em Hm]].
    destruct (minmax_scale_col_unit (map fillna0 raw))
      as [Hlen [Hunit [Hconst [Hzero Hends]]]].
    exists raw, m. split; [exact Hj | split; [exact Em | split; [exact Hm |]]].
    split; [reflexivity |].
    split; [rewrite length_map, Hlen, length_map; reflexivity |].
    split; [| split; [| split]].
    + intros v Hv. apply in_map_iff in Hv. destruct Hv as [q [<- Hq]].
      exists q. split; [reflexivity | apply Hunit; exact Hq].
    + destruct Hzero as [q [Hq E]].
      { destruct raw; [discriminate | discriminate]. }
      exists q. split; [apply in_map; exact Hq | exact E].
    + intros Hk q Hq. apply in_map_iff in Hq. destruct Hq as [q' [E Hq]].
      inversion E; subst q'. apply Hconst; assumption.
    + intros lo hi Hlo Hhi Hb.
      destruct (Hends lo hi Hlo Hhi Hb) as [Hone Hsmall]. split.
      * intros H. destruct (Hone H) as [q [Hq E]].
        exists q. split; [apply in_map; exact Hq | exact E].
      * intros H. apply Forall2_map_left. exact (Hsmall H).
Qed.

Lemma top_talkers_scaled_to_unit_interval_witness :
  (* the endpoint below the threshold is dropped *)
  (In ("10.0.0.2"%string, [Some (1 # 100)%Q; None; None])
      (Detection.columns (Detection.pivot_table Samples.small_traffic)) /\
   Detection.col_max [Some (1 # 100)%Q; None; None] = Some (1 # 100)%Q /\
   (1 # 100 <= Detection.top_talker_threshold)%Q /\
   ~ In "10.0.0.2"%string
        (map fst (Detection.columns
                    (Detection.top_talkers
                       (Detection.pivot_table Samples.small_traffic))))) /\
  (* the endpoint above it is kept and scaled *)
  (In ("10.0.0.1"%string, [Some 1%Q; Some 3%Q; Some 2%Q])
      (Detection.columns (Detection.pivot_table Samples.small_traffic)) /\
   Detection.col_max [Some 1%Q; Some 3%Q; Some 2%Q] = Some 3%Q /\
   (Detection.top_talker_threshold < 3)%Q /\
   exists n : Detection.frame,
     Detection.ips_normalized Samples.small_traffic = Some n /\
     In ("10.0.0.1"%string,
         map (@Some Q)
             (Detection.minmax_scale_col
                (map fillna0 [Some 1%Q; Some 3%Q; Some 2%Q])))
        (Detection.columns n) /\
     Forall2 Qeq
       (Detection.minmax_scale_col
          (map fillna0 [Some 1%Q; Some 3%Q; Some 2%Q]))
       [0; 1; 1 # 2]%Q).
Proof.
  assert (H1 : In ("10.0.0.2"%string, [Some (1 # 100)%Q; None; None])
                  (Detection.columns
                     (Detection.pivot_table Samples.small_traffic)))
    by (vm_compute; right; left; reflexivity).
  assert (H2 : Detection.col_max [Some (1 # 100)%Q; None; None]
               = Some (1 # 100)%Q) by reflexivity.
  assert (H3 : (1 # 100 <= Detection.top_talker_threshold)%Q)
    by (vm_compute; discriminate).
  assert (K1 : In ("10.0.0.1"%string, [Some 1%Q; Some 3%Q; Some 2%Q])
                  (Detection.columns
                     (Detection.pivot_table Samples.small_traffic)))
    by (vm_compute; left; reflexivity).
  assert (K2 : Detection.col_max [Some 1%Q; Some 3%Q; Some 2%Q] = Some 3%Q)
    by reflexivity.
  assert (K3 : (Detection.top_talker_threshold < 3)%Q) by reflexivity.
  split.
  - split; [exact H1 | split; [exact H2 | split; [exact H3 |]]].
    exact (proj1 (top_talkers_scaled_to_unit_interval Samples.small_traffic)
                 _ _ _ H1 H2 H3).
  - split; [exact K1 | split; [exact K2 | split; [exact K3 |]]].
    destruct (proj1 (proj2 (top_talkers_scaled_to_unit_interval
                              Samples.small_traffic)) _ _ _ K1 K2 K3)
      as [n [Hn Hin]].
    exists n. split; [exact Hn | split; [exact Hin |]].
    repeat constructor; vm_compute; reflexivity.
Defined.

(** C5 as stated fails on "in [[0, 1]]" and on "maximum exactly 1".  An
    endpoint seen at 1 and at 6 gbps is a top talker; in float64 its scale
    is the float nearest to 1/5 and its value at the maximum comes out as
    [1 + 2^-52], above 1.  A series from 0 to 49 reaches [1 - 2^-53] only.
    And a series whose range is below [10 * eps] without being constant is
    scaled by 1, whatever the arithmetic: its maximum stays near 0. *)
Lemma scaled_maximum_is_not_one :
  In ("10.0.0.1"%string, [Some 1%Q; Some 6%Q])
     (Detection.columns
        (Detection.top_talkers (Detection.pivot_table Samples.two_levels))) /\
  F64.minmax_scale_col [F64.of_Z 1; F64.of_Z 6]
  = [F64.of_Z 0; F64.of_scaled (2 ^ 52 + 1) (-52)] /\
  F64.ltb (F64.of_Z 1) (F64.of_scaled (2 ^ 52 + 1) (-52)) = true /\
  F64.minmax_scale_col [F64.of_Z 0; F64.of_Z 49]
  = [F64.of_Z 0; F64.of_scaled (2 ^ 53 - 1) (-53)] /\
  F64.ltb (F64.of_scaled (2 ^ 53 - 1) (-53)) (F64.of_Z 1) = true /\
  ~ constant [3 # 100; (3 # 100) + (1 # 10 ^ 15)]%Q /\
  Forall2 Qeq
    (Detection.minmax_scale_col [3 # 100; (3 # 100) + (1 # 10 ^ 15)]%Q)
    [0; 1 # 10 ^ 15]%Q.
Proof.
  split; [vm_compute; left; reflexivity |].
  split; [vm_compute; reflexivity |].
  split; [vm_compute; reflexivity |].
  split; [vm_compute; reflexivity |].
  split; [vm_compute; reflexivity |].
  split.
  - intros H.
    assert (E : (3 # 100 == (3 # 100) + (1 # 10 ^ 15))%Q).
    { apply H; [left; reflexivity | right; left; reflexivity]. }
    vm_compute in E. discriminate.
  - repeat constructor; vm_compute; reflexivity.
Qed.

(* ------------------------------------------------------------------ *)
(** ** The group-by on the index of the normalised frame *)

Lemma insert_by_head {A : Type} (leb : A -> A -> bool) (x : A) (l : list A) :
  Forall (fun y => leb x y = true) l -> insert_by leb x l = x :: l.
Proof.
  intros H. destruct l as [| y l]; [reflexivity |].
  inversion H; subst. simpl. rewrite H2. reflexivity.
Qed.

Lemma sort_by_sorted_id {A : Type} (leb : A -> A -> bool) (l : list A) :
  StronglySorted (fun a b => leb a b = true) l -> sort_by leb l = l.
Proof.
  induction 1 as [| a l Hs IH Ha]; simpl; [reflexivity |].
  rewrite IH. apply insert_by_head. exact Ha.
Qed.

Lemma StronglySorted_lt_NoDup (l : list Z) :
  StronglySorted Z.lt l -> NoDup l.
Proof.
  induction 1 as [| a l Hs IH Ha]; constructor; [| exact IH].
  intros Hin. rewrite Forall_forall in Ha. specialize (Ha a Hin). lia.
Qed.

Lemma StronglySorted_le_NoDup_lt (l : list Z) :
  StronglySorted Z.le l -> NoDup l -> StronglySorted Z.lt l.
Proof.
  induction 1 as [| a l Hs IH Ha]; intros Hnd; constructor.
  - apply IH. inversion Hnd; assumption.
  - inversion Hnd as [| x m Hx Hm]; subst.
    rewrite Forall_forall in *. intros y Hy. specialize (Ha y Hy).
    assert (a <> y) by (intros ->; contradiction). lia.
Qed.

(** The labels of a pivot or group-by are strictly ascending. *)
Lemma unique_sorted_Z_ascending (l : list Z) :
  StronglySorted Z.lt (unique_sorted Z.eq_dec Z.leb l).
Proof.
  apply StronglySorted_le_NoDup_lt; [| apply unique_sorted_NoDup].
  unfold unique_sorted. apply sort_by_sorted.
  - intros a b H. apply Z.leb_le. exact H.
  - intros a b H. apply Z.leb_gt in H. lia.
  - intros a b c. apply Z.le_trans.
Qed.

Lemma unique_sorted_Z_id (l : list Z) :
  StronglySorted Z.lt l -> unique_sorted Z.eq_dec Z.leb l = l.
Proof.
  intros H. unfold unique_sorted.
  rewrite nodup_fixed_point by (apply StronglySorted_lt_NoDup; exact H).
  apply sort_by_sorted_id.
  induction H as [| a m Hs IH Ha]; constructor; [exact IH |].
  rewrite Forall_forall in *. intros y Hy. apply Z.leb_le.
  specialize (Ha y Hy). lia.
Qed.

Lemma rows_at_absent (idx : list Z) (key : Z) (col : list cell) :
  ~ In key idx -> rows_at idx key col = [].
Proof.
  unfold rows_at. revert col.
  induction idx as [| a idx IH]; intros col H; [reflexivity |].
  destruct col as [| v col]; [reflexivity |]. simpl.
  destruct (Z.eqb_spec a key) as [-> | Hne].
  - exfalso. apply H. left. reflexivity.
  - apply IH. intros Hin. apply H. right. exact Hin.
Qed.

(** With distinct labels, the group of the label at position [t] is the row
    at position [t]. *)
Lemma rows_at_nth (idx : list Z) (col : list cell) (t : nat) :
  NoDup idx -> (t < length idx)%nat -> (t < length col)%nat ->
  rows_at idx (nth t idx 0) col = [nth t col None].
Proof.
  revert col t. induction idx as [| a idx IH]; intros col t Hnd Hi Hc;
    simpl in Hi; [lia |].
  destruct col as [| v col]; simpl in Hc; [lia |].
  inversion Hnd as [| x m Hx Hm]; subst.
  destruct t as [| t].
  - simpl. unfold rows_at. simpl. rewrite Z.eqb_refl. simpl. f_equal.
    apply (rows_at_absent idx a col Hx).
  - simpl. unfold rows_at. simpl.
    destruct (Z.eqb_spec a (nth t idx 0)) as [E | Hne].
    + exfalso. apply Hx. rewrite E. apply nth_In. lia.
    + apply IH; [exact Hm | lia | lia].
Qed.

Lemma cell_mean_single (v : cell) : cell_eq (cell_mean [v]) v.
Proof.
  destruct v as [x |]; simpl; [| exact I].
  unfold cell_mean. simpl. change (inject_Z 1) with 1%Q. field.
Qed.

Lemma Forall2_of_nth {A B : Type} (R : A -> B -> Prop) (da : A) (db : B)
  (l : list A) (m : list B) :
  length l = length m ->
  (forall t, (t < length l)%nat -> R (nth t l da) (nth t m db)) ->
  Forall2 R l m.
Proof.
  revert m. induction l as [| a l IH]; intros [| b m] Hlen H;
    simpl in Hlen; try discriminate; constructor.
  - apply (H 0%nat). simpl. lia.
  - apply IH; [lia |]. intros t Ht. apply (H (S t)). simpl. lia.
Qed.

(** On a frame whose labels are strictly ascending, the group-by on the
    index keeps the labels, and every column cell by cell. *)
Lemma groupby_index_mean_ascending (f : Detection.frame) :
  StronglySorted Z.lt (Detection.index f) ->
  Detection.index (Detection.groupby_index_mean f) = Detection.index f /\
  forall (i : string) (c : list cell),
    In (i, c) (Detection.columns (Detection.groupby_index_mean f)) ->
    exists c0, In (i, c0) (Detection.columns f) /\
               (length c0 = length (Detection.index f) -> Forall2 cell_eq c c0).
Proof.
  intros Hs. unfold Detection.groupby_index_mean. simpl.
  rewrite (unique_sorted_Z_id _ Hs). split; [reflexivity |].
  intros i c Hin. apply in_map_iff in Hin. destruct Hin as [[j c0] [E Hj]].
  simpl in E. inversion E; subst i c. clear E.
  exists c0. split; [exact Hj |]. intros Hlen.
  apply (Forall2_of_nth cell_eq None None).
  - rewrite length_map. symmetry. exact Hlen.
  - intros t Ht. rewrite length_map in Ht.
    rewrite (nth_indep _ None
               (cell_mean (rows_at (Detection.index f) 0 c0)))
      by (rewrite length_map; exact Ht).
    rewrite (map_nth (fun key => cell_mean (rows_at (Detection.index f) key c0))).
    rewrite rows_at_nth;
      [apply cell_mean_single | apply StronglySorted_lt_NoDup; exact Hs
       | exact Ht | lia].
Qed.

Lemma Forall2_firstn {A B : Type} (R : A -> B -> Prop) (k : nat)
  (l : list A) (m : list B) :
  Forall2 R l m -> Forall2 R (firstn k l) (firstn k m).
Proof.
  intros H. revert k. induction H as [| a b l m Hab H IH]; intros [| k];
    simpl; constructor; auto.
Qed.

Lemma Forall2_skipn {A B : Type} (R : A -> B -> Prop) (k : nat)
  (l : list A) (m : list B) :
  Forall2 R l m -> Forall2 R (skipn k l) (skipn k m).
Proof.
  intros H. revert k. induction H as [| a b l m Hab H IH]; intros [| k];
    simpl; try constructor; auto.
Qed.

Lemma Qsum_Forall2 (xs ys : list Q) :
  Forall2 Qeq xs ys -> (Qsum xs == Qsum ys)%Q.
Proof.
  induction 1 as [| x y xs ys Hxy H IH]; simpl; [reflexivity |].
  rewrite Hxy, IH. reflexivity.
Qed.

Lemma cell_eq_defined (c : list cell) (xs : list Q) :
  Forall2 cell_eq c (map (@Some Q) xs) ->
  exists xs', c = map (@Some Q) xs' /\ Forall2 Qeq xs' xs.
Proof.
  revert c. induction xs as [| x xs IH]; intros c H; simpl in H.
  - inversion H; subst. exists []. split; [reflexivity | constructor].
  - inversion H as [| a b l m Hab Hlm]; subst.
    destruct (IH _ Hlm) as [xs' [-> Hxs]].
    destruct a as [x' |]; simpl in Hab; [| contradiction].
    exists (x' :: xs'). split; [reflexivity | constructor; assumption].
Qed.

(** The normalised frame keeps the strictly ascending index of the pivot,
    and each of its columns is fully defined and as long as the index. *)
Lemma ips_normalized_shape (tr : list Detection.sample) (n : Detection.frame) :
  Detection.ips_normalized tr = Some n ->
  StronglySorted Z.lt (Detection.index n) /\
  forall (i : string) (c : list cell),
    In (i, c) (Detection.columns n) ->
    exists xs, c = map (@Some Q) xs /\ length xs = length (Detection.index n).
Proof.
  intros Hn. pose proof (ips_normalized_columns tr n Hn) as Hc.
  assert (Hi : Detection.index n
               = unique_sorted Z.eq_dec Z.leb (map Detection.bf_time tr)).
  { unfold Detection.ips_normalized in Hn.
    destruct (Detection.minmax_scale _ _); [| discriminate].
    inversion Hn. reflexivity. }
  split; [rewrite Hi; apply unique_sorted_Z_ascending |].
  intros i c Hin. rewrite Hc in Hin.
  apply in_map_iff in Hin. destruct Hin as [[j raw] [E Hj]].
  simpl in E. inversion E; subst j c. clear E.
  eexists. split; [reflexivity |].
  destruct (minmax_scale_col_unit (map fillna0 raw)) as [Hlen _].
  rewrite Hlen, length_map, Hi.
  unfold Detection.top_talkers in Hj. simpl in Hj.
  apply filter_In in Hj. destruct Hj as [Hj _].
  apply in_map_iff in Hj. destruct Hj as [i' [E' _]].
  inversion E'. apply length_map.
Qed.

(** C6.  [ips_d] is the lag-4 difference of the 4-back shift of the 8-bucket
    rolling mean of the frame grouped on its index, applied in that order to
    every column.  On the normalised frame the group-by changes nothing, so
    for every endpoint the smoothed value at [t] is the mean of the
    normalised series over the 8 consecutive buckets [t-3 .. t+4] (the
    window that ends at [t+4], moved 4 positions back), and it is undefined
    where that window does not fit.  The difference at [t] is
    [smoothed(t) - smoothed(t-4)]; it is undefined for [t < 4] and whenever
    one of the two smoothed values is undefined. *)
Theorem smoothing_and_differencing :
  (forall n : Detection.frame,
      Detection.ips_d (Detection.ips_smoothed n)
      = Detection.map_columns
          (fun c => diff 4 (shift (-4) (rolling_mean 8 c)))
          (Detection.groupby_index_mean n)) /\
  (forall (tr : list Detection.sample) (n : Detection.frame),
      Detection.ips_normalized tr = Some n ->
      Detection.index (Detection.ips_smoothed n) = Detection.index n /\
      forall (i : string) (c : list cell),
        In (i, c) (Detection.columns (Detection.ips_smoothed n)) ->
        exists xs : list Q,
          In (i, map (@Some Q) xs) (Detection.columns n) /\
          length c = length xs /\
          forall t : nat,
            ((3 <= t)%nat -> (t + 4 < length xs)%nat ->
             exists v, nth t c None = Some v /\
                       (v == Qsum (firstn 8 (skipn (t - 3) xs)) / 8)%Q) /\
            ((t < 3)%nat \/ (length xs <= t + 4)%nat ->
             nth t c None = None)) /\
  (forall (s : list cell) (t : nat),
      (4 <= t)%nat ->
      nth t (diff Detection.diff_lag s) None
      = cell_sub (nth t s None) (nth (t - 4) s None)) /\
  (forall (s : list cell) (t : nat),
      (t < 4)%nat \/ nth t s None = None \/ nth (t - 4) s None = None ->
      nth t (diff Detection.diff_lag s) None = None).
Proof.
  split; [| split; [| split]].
  - intros n. unfold Detection.ips_d, Detection.ips_smoothed,
      Detection.map_columns. simpl. rewrite map_map. reflexivity.
  - intros tr n Hn.
    destruct (ips_normalized_shape tr n Hn) as [Hs Hcols].
    destruct (groupby_index_mean_ascending n Hs) as [Hidx Hg].
    split; [exact Hidx |].
    intros i c Hin. unfold Detection.ips_smoothed, Detection.map_columns in Hin.
    simpl in Hin. apply in_map_iff in Hin. destruct Hin as [[j g] [E Hj]].
    simpl in E. inversion E; subst j c. clear E.
    destruct (Hg i g Hj) as [c0 [Hc0 Heq]].
    destruct (Hcols i c0 Hc0) as [xs [-> Hlen]].
    rewrite length_map in Heq. specialize (Heq Hlen).
    destruct (cell_eq_defined g xs Heq) as [xs' [-> Hxs]].
    assert (Hl : length xs' = length xs) by (apply (Forall2_length Hxs)).
    exists xs. split; [exact Hc0 | split].
    + rewrite length_smooth_col, length_map. exact Hl.
    + intros t. split.
      * intros H3 H4. eexists. split.
        -- apply smooth_col_window; [exact H3 | lia].
        -- apply Qmult_comp; [| reflexivity].
           apply Qsum_Forall2, Forall2_firstn, Forall2_skipn. exact Hxs.
      * intros H. apply smooth_col_edges. lia.
  - intros s t H. unfold Detection.diff_lag. rewrite nth_diff by lia.
    change (Z.to_nat 4) with 4%nat.
    assert (E : (t <? 4)%nat = false) by (apply Nat.ltb_ge; lia).
    rewrite E. reflexivity.
  - intros s t H. unfold Detection.diff_lag. rewrite nth_diff by lia.
    change (Z.to_nat 4) with 4%nat.
    destruct (t <? 4)%nat eqn:E; [reflexivity |].
    apply Nat.ltb_ge in E.
    destruct H as [H | [H | H]]; [lia | |]; rewrite H.
    + reflexivity.
    + apply cell_sub_none_r.
Qed.

Lemma smoothing_and_differencing_witness :
  exists (n : Detection.frame) (c : list cell) (xs : list Q) (v : Q),
    Detection.ips_normalized Samples.rising_hour = Some n /\
    In ("10.0.0.1"%string, c)
       (Detection.columns (Detection.ips_smoothed n)) /\
    In ("10.0.0.1"%string, map (@Some Q) xs) (Detection.columns n) /\
    (3 <= 3)%nat /\ (3 + 4 < length xs)%nat /\
    nth 3 c None = Some v /\
    (v == Qsum (firstn 8 (skipn (3 - 3) xs)) / 8)%Q /\
    (v == 7 # 22)%Q /\
    cell_eq (nth 7 (diff Detection.diff_lag c) None) (Some (4 # 11)%Q).
Proof.
  destruct (Detection.ips_normalized Samples.rising_hour) as [n |] eqn:E;
    [| vm_compute in E; discriminate].
  pose (c := snd (hd (EmptyString, []) (Detection.columns
                                          (Detection.ips_smoothed n)))).
  assert (En : Detection.ips_normalized Samples.rising_hour = Some n)
    by exact E.
  vm_compute in E. injection E as E.
  assert (Hin : In ("10.0.0.1"%string, c)
                   (Detection.columns (Detection.ips_smoothed n)))
    by (unfold c; rewrite <- E; vm_compute; left; reflexivity).
  destruct (proj2 (proj1 (proj2 smoothing_and_differencing)
                     Samples.rising_hour n En) "10.0.0.1"%string c Hin)
    as [xs [Hxs [Hlen Ht]]].
  assert (Hl : (3 + 4 < length xs)%nat).
  { rewrite <- Hlen. unfold c. rewrite <- E. vm_compute. lia. }
  destruct (proj1 (Ht 3%nat) (le_n 3) Hl) as [v [Hv Hmean]].
  exists n, c, xs, v.
  split; [reflexivity |].
  split; [exact Hin |].
  split; [exact Hxs |].
  split; [apply le_n |].
  split; [exact Hl |].
  split; [exact Hv |].
  split; [exact Hmean |].
  split.
  - unfold c in Hv. rewrite <- E in Hv. vm_compute in Hv.
    injection Hv as Hv. rewrite <- Hv. vm_compute. reflexivity.
  - unfold c. rewrite <- E. vm_compute. reflexivity.
Defined.

(* ================================================================== *)
(** * Further properties of the code *)

(* ------------------------------------------------------------------ *)
(** ** Folders and file names on Cloud Storage *)

Lemma last_char_app_slash (s : string) :
  Gcp.last_char (s ++ "/") = Some "/"%char.
Proof.
  induction s as [| c s IH]; [reflexivity |].
  simpl. destruct (s ++ "/")%string eqn:E.
  - destruct s; discriminate.
  - exact IH.
Qed.

Lemma length_app_slash (s : string) :
  String.length (s ++ "/") = S (String.length s).
Proof.
  induction s as [| c s IH]; simpl; [reflexivity | rewrite IH; reflexivity].
Qed.

Lemma normalize_folder_cases (folder : string) :
  (Gcp.normalize_folder folder = (folder ++ "/")%string /\
   folder <> EmptyString /\ Gcp.ends_with_slash folder = false) \/
  (Gcp.normalize_folder folder = EmptyString /\
   (folder = EmptyString \/ folder = "/"%string)) \/
  (Gcp.normalize_folder folder = folder /\
   Gcp.ends_with_slash folder = true /\ folder <> "/"%string).
Proof.
  unfold Gcp.normalize_folder.
  destruct folder as [| c s].
  - right. left. simpl. auto.
  - change (0 <? String.length (String c s))%nat with true. simpl andb.
    destruct (Gcp.ends_with_slash (String c s)) eqn:E; simpl negb; cbv iota.
    + destruct (String.eqb_spec (String c s) "/") as [H | H].
      * right. left. auto.
      * right. right. auto.
    + left. repeat split. discriminate.
Qed.

Lemma normalize_folder_empty_or_slash (folder : string) :
  Gcp.normalize_folder folder = EmptyString \/
  Gcp.ends_with_slash (Gcp.normalize_folder folder) = true.
Proof.
  destruct (normalize_folder_cases folder)
    as [[E [_ _]] | [[E _] | [E [Hs _]]]]; rewrite E.
  - right. unfold Gcp.ends_with_slash. rewrite last_char_app_slash.
    reflexivity.
  - left. reflexivity.
  - right. exact Hs.
Qed.

(** X1.  The folder clean-up of [cs_list_folder] and [cs_move_object] yields
    the empty prefix or a prefix that ends with [/], never the lone [/]; it
    only ever appends one [/]; and cleaning a cleaned folder changes
    nothing. *)
Theorem normalize_folder_prefix :
  forall folder : string,
    (Gcp.normalize_folder folder = EmptyString \/
     Gcp.ends_with_slash (Gcp.normalize_folder folder) = true) /\
    Gcp.normalize_folder folder <> "/"%string /\
    (Gcp.normalize_folder folder = folder \/
     Gcp.normalize_folder folder = (folder ++ "/")%string \/
     (folder = "/"%string /\ Gcp.normalize_folder folder = EmptyString)) /\
    Gcp.normalize_folder (Gcp.normalize_folder folder)
    = Gcp.normalize_folder folder.
Proof.
  intros folder.
  assert (Happ : forall s, s <> EmptyString ->
            Gcp.normalize_folder (s ++ "/") = (s ++ "/")%string).
  { intros s Hs.
    destruct (normalize_folder_cases (s ++ "/")) as [[_ [_ H]] | [[_ H] | [H _]]].
    - unfold Gcp.ends_with_slash in H. rewrite last_char_app_slash in H.
      discriminate.
    - destruct H as [H | H].
      + destruct s; discriminate.
      + destruct s as [| c s]; [contradiction |].
        apply (f_equal String.length) in H. rewrite length_app_slash in H.
        simpl in H. discriminate.
    - exact H. }
  destruct (normalize_folder_cases folder)
    as [[E [Hne Hs]] | [[E H] | [E [Hs Hne]]]]; rewrite E.
  - split; [right; unfold Gcp.ends_with_slash; rewrite last_char_app_slash;
            reflexivity |].
    split.
    + intros H. apply (f_equal String.length) in H.
      rewrite length_app_slash in H. destruct folder; [contradiction |].
      simpl in H. discriminate.
    + split; [right; left; reflexivity | apply Happ; exact Hne].
  - split; [left; reflexivity |].
    split; [discriminate |].
    split; [destruct H as [-> | ->]; [left; reflexivity | right; right; auto] |].
    reflexivity.
  - split; [right; exact Hs |].
    split; [exact Hne |].
    split; [left; reflexivity | exact E].
Qed.

(** A string has a [/] when [rfind] finds one. *)
Lemma rfind_slash_spec (p : string) :
  -1 <= Gcp.rfind_slash p /\
  (Gcp.rfind_slash p = -1 <-> ~ In "/"%char (list_ascii_of_string p)).
Proof.
  induction p as [| c p [IH1 IH2]]; simpl.
  - split; [lia | tauto].
  - destruct (Z.leb_spec 0 (Gcp.rfind_slash p)) as [H | H].
    + split; [lia |]. split; [lia |].
      intros Hn. exfalso. assert (Gcp.rfind_slash p = -1); [| lia].
      apply IH2. tauto.
    + assert (E : Gcp.rfind_slash p = -1) by lia.
      destruct (Ascii.eqb_spec c "/"%char) as [-> | Hc].
      * split; [lia |]. split; [lia | tauto].
      * split; [lia |]. split; [| reflexivity].
        intros _ [Hin | Hin]; [congruence | apply IH2 in E; contradiction].
Qed.

Lemma substring_full (s : string) : substring 0 (String.length s) s = s.
Proof.
  induction s as [| c s IH]; simpl; [reflexivity | rewrite IH; reflexivity].
Qed.

(** [basename], one character at a time. *)
Lemma basename_cons (c : ascii) (p : string) :
  Gcp.basename (String c p)
  = if 0 <=? Gcp.rfind_slash p then Gcp.basename p
    else if Ascii.eqb c "/"%char then p else String c p.
Proof.
  unfold Gcp.basename. simpl Gcp.rfind_slash.
  pose proof (proj1 (rfind_slash_spec p)) as Hr.
  destruct (Z.leb_spec 0 (Gcp.rfind_slash p)) as [H | H].
  - replace (Z.to_nat (Gcp.rfind_slash p + 1 + 1))
      with (S (Z.to_nat (Gcp.rfind_slash p + 1))) by lia.
    reflexivity.
  - destruct (Ascii.eqb c "/"%char).
    + change (Z.to_nat (0 + 1)) with 1%nat. simpl.
      rewrite Nat.sub_0_r. apply substring_full.
    + change (Z.to_nat (-1 + 1)) with 0%nat.
      rewrite Nat.sub_0_r. apply substring_full.
Qed.

Lemma basename_no_slash (p : string) :
  ~ In "/"%char (list_ascii_of_string (Gcp.basename p)).
Proof.
  induction p as [| c p IH]; [simpl; tauto |].
  rewrite basename_cons.
  destruct (Z.leb_spec 0 (Gcp.rfind_slash p)) as [H | H]; [exact IH |].
  assert (Hp : ~ In "/"%char (list_ascii_of_string p)).
  { apply (proj2 (rfind_slash_spec p)).
    pose proof (proj1 (rfind_slash_spec p)). lia. }
  destruct (Ascii.eqb_spec c "/"%char) as [-> | Hc]; [exact Hp |].
  simpl. intros [E | Hin]; [congruence | contradiction].
Qed.

Lemma basename_plain (n : string) :
  ~ In "/"%char (list_ascii_of_string n) -> Gcp.basename n = n.
Proof.
  destruct n as [| c n]; [reflexivity |]. intros Hn. simpl in Hn.
  rewrite basename_cons.
  assert (E : Gcp.rfind_slash n = -1)
    by (apply (proj2 (rfind_slash_spec n)); tauto).
  rewrite E. simpl.
  destruct (Ascii.eqb_spec c "/"%char) as [-> | Hc]; [tauto | reflexivity].
Qed.

Lemma ends_with_slash_In (f : string) :
  Gcp.ends_with_slash f = true -> In "/"%char (list_ascii_of_string f).
Proof.
  unfold Gcp.ends_with_slash.
  induction f as [| c f IH]; [discriminate |].
  simpl. destruct f as [| d f].
  - destruct (Ascii.eqb_spec c "/"%char) as [-> | Hc]; [auto | discriminate].
  - intros H. right. apply IH. exact H.
Qed.

Lemma In_slash_app (f n : string) :
  In "/"%char (list_ascii_of_string f) ->
  In "/"%char (list_ascii_of_string (f ++ n)).
Proof.
  induction f as [| c f IH]; simpl; [tauto |].
  intros [H | H]; [left; exact H | right; apply IH; exact H].
Qed.

(** Under a cleaned folder, the base name of a path is the file name. *)
Lemma basename_under_folder (f n : string) :
  ~ In "/"%char (list_ascii_of_string n) ->
  f = EmptyString \/ Gcp.ends_with_slash f = true ->
  Gcp.basename (f ++ n) = n.
Proof.
  intros Hn. induction f as [| c f IH]; intros Hf.
  - apply basename_plain. exact Hn.
  - destruct Hf as [Hf | Hf]; [discriminate |].
    change (String c f ++ n)%string with (String c (f ++ n)).
    rewrite basename_cons.
    destruct f as [| d f].
    + simpl. unfold Gcp.ends_with_slash in Hf. simpl in Hf.
      assert (E : Gcp.rfind_slash n = -1)
        by (apply (proj2 (rfind_slash_spec n)); exact Hn).
      rewrite E. simpl. rewrite Hf. reflexivity.
    + assert (Hf' : Gcp.ends_with_slash (String d f) = true) by exact Hf.
      assert (Hr : 0 <= Gcp.rfind_slash (String d f ++ n)).
      { pose proof (rfind_slash_spec (String d f ++ n)) as [H1 H2].
        destruct (Z.eq_dec (Gcp.rfind_slash (String d f ++ n)) (-1)) as [E | E];
          [| lia].
        exfalso. apply H2 in E. apply E.
        apply In_slash_app, ends_with_slash_In. exact Hf'. }
      apply Z.leb_le in Hr. rewrite Hr.
      apply IH. right. exact Hf'.
Qed.

(** X2.  [cs_move_object] stores the object under the cleaned destination
    folder followed by the base name of the source path: the folders of the
    source path are dropped and the file name is kept (the base name of the
    new path is the base name of the old one, and it holds no [/]).  Within
    one bucket this is a single rename; across buckets it is a copy followed
    by the deletion of the original. *)
Theorem cs_move_object_keeps_file_name :
  forall src_bucket blob_name dst_bucket dst_folder : string,
    let new_name :=
      (Gcp.normalize_folder dst_folder ++ Gcp.basename blob_name)%string in
    Gcp.basename new_name = Gcp.basename blob_name /\
    ~ In "/"%char (list_ascii_of_string (Gcp.basename new_name)) /\
    (src_bucket = dst_bucket ->
     Gcp.cs_move_object src_bucket blob_name dst_bucket dst_folder
     = [Gcp.Rename_blob src_bucket blob_name new_name]) /\
    (src_bucket <> dst_bucket ->
     Gcp.cs_move_object src_bucket blob_name dst_bucket dst_folder
     = [Gcp.Copy_blob src_bucket blob_name dst_bucket new_name;
        Gcp.Delete_blob src_bucket blob_name]).
Proof.
  intros src_bucket blob_name dst_bucket dst_folder new_name.
  assert (E : Gcp.basename new_name = Gcp.basename blob_name).
  { unfold new_name. apply basename_under_folder.
    - apply basename_no_slash.
    - apply normalize_folder_empty_or_slash. }
  split; [exact E | split; [rewrite E; apply basename_no_slash | split]].
  - intros H. unfold Gcp.cs_move_object.
    apply String.eqb_eq in H. rewrite H. reflexivity.
  - intros H. unfold Gcp.cs_move_object.
    apply String.eqb_neq in H. rewrite H. reflexivity.
Qed.

Lemma cs_move_object_keeps_file_name_witness :
  "raw-bucket"%string <> "done-bucket"%string /\
  Gcp.cs_move_object "raw-bucket" "incoming/ips_20210412_1500_UTC.csv"
                     "done-bucket" "processed"
  = [Gcp.Copy_blob "raw-bucket" "incoming/ips_20210412_1500_UTC.csv"
                   "done-bucket"
                   (Gcp.normalize_folder "processed"
                    ++ Gcp.basename "incoming/ips_20210412_1500_UTC.csv")%string;
     Gcp.Delete_blob "raw-bucket" "incoming/ips_20210412_1500_UTC.csv"].
Proof.
  assert (H : "raw-bucket"%string <> "done-bucket"%string) by discriminate.
  split; [exact H |].
  exact (proj2 (proj2 (proj2 (cs_move_object_keeps_file_name
                                "raw-bucket" "incoming/ips_20210412_1500_UTC.csv"
                                "done-bucket" "processed"))) H).
Defined.

(* ------------------------------------------------------------------ *)
(** ** Finding the candidate file *)

Lemma filter_singleton {A : Type} (f : A -> bool) (l : list A) (b : A) :
  filter f l = [b]
  <-> exists l1 l2, l = l1 ++ b :: l2 /\ f b = true /\
                    forall x, In x (l1 ++ l2) -> f x = false.
Proof.
  split.
  - induction l as [| a l IH]; simpl; [discriminate |].
    destruct (f a) eqn:E.
    + intros H. inversion H; subst a. exists [], l. simpl.
      split; [reflexivity | split; [exact E |]].
      intros x Hx. destruct (f x) eqn:Ex; [| reflexivity].
      assert (Hin : In x (filter f l)) by (apply filter_In; auto).
      rewrite H2 in Hin. contradiction.
    + intros H. destruct (IH H) as [l1 [l2 [-> [Hb Hn]]]].
      exists (a :: l1), l2. split; [reflexivity | split; [exact Hb |]].
      intros x [<- | Hx]; [exact E | apply Hn; exact Hx].
  - intros [l1 [l2 [-> [Hb Hn]]]].
    rewrite filter_app. simpl. rewrite Hb.
    rewrite (filter_none f l1), (filter_none f l2); [reflexivity | |].
    + intros x Hx. apply Hn. apply in_or_app. right. exact Hx.
    + intros x Hx. apply Hn. apply in_or_app. left. exact Hx.
Qed.

(** X3.  [get_ips] returns a blob exactly when the listing of the cleaned
    folder holds it once and holds no other blob with the requested base
    name (the placeholder of the folder aside); the contents returned are
    those of that blob.  A listing without blob is the "no IP files" error,
    a listing without match the "could not find" error, and two or more
    matches the "multiple matching files" error. *)
Theorem get_ips_unique_match :
  forall (list_blobs get_object : string -> string -> list string)
         (src_bucket src_folder input_file_name : string),
    let folder := Gcp.normalize_folder src_folder in
    let blobs := Gcp.cs_list_folder list_blobs src_bucket src_folder in
    let matching :=
      filter (fun b => String.eqb (Gcp.basename b) input_file_name) blobs in
    (forall (b : string) (ips : list string),
        Candidates.get_ips list_blobs get_object src_bucket src_folder
                           input_file_name = inr (b, ips)
        <-> ips = get_object src_bucket b /\
            b <> folder /\ Gcp.basename b = input_file_name /\
            exists l1 l2,
              list_blobs src_bucket folder = l1 ++ b :: l2 /\
              forall x, In x (l1 ++ l2) -> x <> folder ->
                        Gcp.basename x <> input_file_name) /\
    (Candidates.get_ips list_blobs get_object src_bucket src_folder
                        input_file_name
     = inl (Candidates.No_ip_files src_bucket src_folder)
     <-> blobs = []) /\
    (Candidates.get_ips list_blobs get_object src_bucket src_folder
                        input_file_name
     = inl (Candidates.Could_not_find input_file_name)
     <-> blobs <> [] /\ matching = []) /\
    (Candidates.get_ips list_blobs get_object src_bucket src_folder
                        input_file_name
     = inl (Candidates.Multiple_matching_files input_file_name)
     <-> (2 <= length matching)%nat).
Proof.
  intros list_blobs get_object src_bucket src_folder input_file_name
         folder blobs matching.
  assert (Hm : matching
               = filter (fun x => negb (String.eqb x folder)
                                  && String.eqb (Gcp.basename x) input_file_name)
                        (list_blobs src_bucket folder)).
  { unfold matching, blobs, Gcp.cs_list_folder. fold folder.
    apply filter_filter. }
  assert (Hsub : blobs = [] -> matching = [])
    by (intros E; unfold matching; rewrite E; reflexivity).
  assert (Hdef :
    Candidates.get_ips list_blobs get_object src_bucket src_folder
                       input_file_name
    = match blobs with
      | [] => inl (Candidates.No_ip_files src_bucket src_folder)
      | _ =>
          match matching with
          | [] => inl (Candidates.Could_not_find input_file_name)
          | [b] => inr (b, get_object src_bucket b)
          | _ => inl (Candidates.Multiple_matching_files input_file_name)
          end
      end) by reflexivity.
  rewrite Hdef. clear Hdef. clearbody matching. clearbody blobs.
  split; [| split; [| split]].
  - intros b ips.
    assert (Hone : matching = [b]
                   <-> b <> folder /\ Gcp.basename b = input_file_name /\
                       exists l1 l2,
                         list_blobs src_bucket folder = l1 ++ b :: l2 /\
                         forall x, In x (l1 ++ l2) -> x <> folder ->
                                   Gcp.basename x <> input_file_name).
    { rewrite Hm, filter_singleton. split.
      - intros [l1 [l2 [E [Hb Hn]]]].
        apply andb_true_iff in Hb. destruct Hb as [Hb1 Hb2].
        apply negb_true_iff, String.eqb_neq in Hb1.
        apply String.eqb_eq in Hb2.
        split; [exact Hb1 | split; [exact Hb2 |]].
        exists l1, l2. split; [exact E |].
        intros x Hx Hxf Hxn. specialize (Hn x Hx).
        apply andb_false_iff in Hn. destruct Hn as [Hn | Hn].
        + apply negb_false_iff, String.eqb_eq in Hn. contradiction.
        + apply String.eqb_neq in Hn. contradiction.
      - intros [Hb1 [Hb2 [l1 [l2 [E Hn]]]]].
        exists l1, l2. split; [exact E | split].
        + apply andb_true_iff. split.
          * apply negb_true_iff, String.eqb_neq. exact Hb1.
          * apply String.eqb_eq. exact Hb2.
        + intros x Hx.
          destruct (String.eqb_spec x folder) as [Hxf | Hxf]; [reflexivity |].
          simpl. apply String.eqb_neq. apply Hn; assumption. }
    split.
    + intros H.
      destruct blobs as [| x xs]; [discriminate |].
      destruct matching as [| y [| z zs]]; try discriminate.
      inversion H; subst. split; [reflexivity |].
      apply (proj1 Hone). reflexivity.
    + intros [-> H]. apply (proj2 Hone) in H.
      destruct blobs as [| x xs]; [rewrite Hsub in H by reflexivity;
                                   discriminate |].
      rewrite H. reflexivity.
  - split.
    + intros H. destruct blobs as [| x xs]; [reflexivity |].
      destruct matching as [| y [| z zs]]; discriminate.
    + intros ->. reflexivity.
  - split.
    + intros H. destruct blobs as [| x xs]; [discriminate |].
      destruct matching as [| y [| z zs]]; try discriminate.
      split; [discriminate | reflexivity].
    + intros [Hb ->]. destruct blobs; [contradiction | reflexivity].
  - split.
    + intros H. destruct blobs as [| x xs]; [discriminate |].
      destruct matching as [| y [| z zs]]; try discriminate.
      simpl. lia.
    + intros H.
      destruct blobs as [| x xs];
        [rewrite Hsub in H by reflexivity; simpl in H; lia |].
      destruct matching as [| y [| z zs]]; simpl in H; try lia.
      reflexivity.
Qed.

Lemma get_ips_unique_match_witness :
  let list_blobs := fun (_ _ : string) =>
    ["incoming/"%string; "incoming/ips_20210412_1500_UTC.csv"%string;
     "incoming/ips_20210412_1730_UTC.csv"%string] in
  let get_object := fun (_ _ : string) => ["10.0.0.1"%string] in
  Candidates.get_ips list_blobs get_object "raw-bucket" "incoming"
                     "ips_20210412_1500_UTC.csv"
  = inr ("incoming/ips_20210412_1500_UTC.csv"%string, ["10.0.0.1"%string]).
Proof.
  intros list_blobs get_object.
  apply (proj1 (get_ips_unique_match list_blobs get_object "raw-bucket"
                  "incoming" "ips_20210412_1500_UTC.csv")).
  split; [reflexivity | split; [discriminate | split; [reflexivity |]]].
  exists ["incoming/"%string], ["incoming/ips_20210412_1730_UTC.csv"%string].
  split; [reflexivity |].
  intros x [<- | [<- | []]] Hx; [exfalso; apply Hx; reflexivity | discriminate].
Defined.

Lemma app_eq_self (f b : string) : (f ++ b)%string = f -> b = EmptyString.
Proof.
  induction f as [| c f IH]; simpl; [tauto |].
  intros H. inversion H. apply IH. assumption.
Qed.

(** X4.  A file moved by [cs_move_object] is found again by [get_ips] under
    its base name: when the destination folder lists the new path and no
    other blob, [get_ips], asked for the base name of the original path,
    returns the new path, provided that base name is not empty. *)
Theorem moved_file_is_found_by_name :
  forall (get_object : string -> string -> list string)
         (bucket blob_name dst_folder : string),
    Gcp.basename blob_name <> EmptyString ->
    let new_name :=
      (Gcp.normalize_folder dst_folder ++ Gcp.basename blob_name)%string in
    Candidates.get_ips (fun _ _ => [new_name]) get_object bucket dst_folder
                       (Gcp.basename blob_name)
    = inr (new_name, get_object bucket new_name).
Proof.
  intros get_object bucket blob_name dst_folder Hne new_name.
  assert (Hb : Gcp.basename new_name = Gcp.basename blob_name).
  { unfold new_name. apply basename_under_folder.
    - apply basename_no_slash.
    - apply normalize_folder_empty_or_slash. }
  assert (Hf : String.eqb new_name (Gcp.normalize_folder dst_folder) = false).
  { apply String.eqb_neq. intros E. apply Hne.
    apply (app_eq_self _ _ E). }
  unfold Candidates.get_ips, Gcp.cs_list_folder. simpl.
  rewrite Hf. simpl. rewrite Hb, String.eqb_refl. reflexivity.
Qed.

Lemma moved_file_is_found_by_name_witness :
  Gcp.basename "incoming/ips_20210412_1500_UTC.csv" <> EmptyString /\
  Candidates.get_ips
    (fun _ _ =>
       [(Gcp.normalize_folder "processed"
         ++ Gcp.basename "incoming/ips_20210412_1500_UTC.csv")%string])
    (fun _ _ => ["10.0.0.1"%string]) "raw-bucket" "processed"
    (Gcp.basename "incoming/ips_20210412_1500_UTC.csv")
  = inr ((Gcp.normalize_folder "processed"
          ++ Gcp.basename "incoming/ips_20210412_1500_UTC.csv")%string,
         ["10.0.0.1"%string]).
Proof.
  assert (H : Gcp.basename "incoming/ips_20210412_1500_UTC.csv" <> EmptyString)
    by (vm_compute; discriminate).
  split; [exact H |].
  exact (moved_file_is_found_by_name (fun _ _ => ["10.0.0.1"%string])
           "raw-bucket" "incoming/ips_20210412_1500_UTC.csv" "processed" H).
Defined.

(* ------------------------------------------------------------------ *)
(** ** Candidates without traffic *)

Lemma has_traffic_spec (i : string) (input : list Traffic.traffic_row) :
  existsb (fun r => String.eqb (Traffic.ip (Traffic.meta r)) i) input = true
  <-> exists r, In r input /\ Traffic.ip (Traffic.meta r) = i.
Proof.
  rewrite existsb_exists. split; intros [r [H1 H2]]; exists r; split; auto.
  - apply String.eqb_eq. exact H2.
  - apply String.eqb_eq. exact H2.
Qed.

Lemma In_missing_ips (ip_list : list string)
  (input : list Traffic.traffic_row) (i : string) :
  In i (Candidates.missing_ips ip_list input)
  <-> In i ip_list /\
      ~ exists r, In r input /\ Traffic.ip (Traffic.meta r) = i.
Proof.
  unfold Candidates.missing_ips. rewrite filter_In, nodup_In.
  rewrite negb_true_iff, <- not_true_iff_false, has_traffic_spec. tauto.
Qed.

(** X5.  [check_ips_and_warn] stays silent exactly when every listed IP has
    a traffic row; otherwise its warning names, once each, exactly the
    listed IPs that have none, and none of these has a row in the frame
    [construct_output_df] builds from the same traffic. *)
Theorem check_ips_warns_of_missing_traffic :
  forall (ip_list : list string) (input : list Traffic.traffic_row),
    (Candidates.check_ips_and_warn ip_list input = None
     <-> forall i, In i ip_list ->
                   exists r, In r input /\ Traffic.ip (Traffic.meta r) = i) /\
    (forall missing,
        Candidates.check_ips_and_warn ip_list input = Some missing ->
        missing <> [] /\ NoDup missing /\
        (forall i, In i missing
                   <-> In i ip_list /\
                       ~ exists r, In r input /\
                                   Traffic.ip (Traffic.meta r) = i) /\
        forall (k : sort_kind) (ko : Z) (se : string) (gw : Z)
               (o : Traffic.output_row),
          In o (Traffic.construct_output_df k ko se gw input) ->
          ~ In (Traffic.ip (Traffic.endpoint (Traffic.o_base o))) missing).
Proof.
  intros ip_list input.
  assert (Hdef : Candidates.check_ips_and_warn ip_list input
                 = match Candidates.missing_ips ip_list input with
                   | [] => None
                   | m => Some m
                   end) by reflexivity.
  split.
  - rewrite Hdef. split.
    + intros H i Hi.
      destruct (Candidates.missing_ips ip_list input) as [| x xs] eqn:E;
        [| discriminate].
      destruct (existsb (fun r => String.eqb (Traffic.ip (Traffic.meta r)) i)
                        input) eqn:Ex.
      * apply has_traffic_spec. exact Ex.
      * exfalso.
        assert (Hin : In i (Candidates.missing_ips ip_list input)).
        { apply In_missing_ips. split; [exact Hi |].
          rewrite <- has_traffic_spec. congruence. }
        rewrite E in Hin. contradiction.
    + intros H.
      destruct (Candidates.missing_ips ip_list input) as [| x xs] eqn:E;
        [reflexivity |].
      exfalso.
      assert (Hin : In x (Candidates.missing_ips ip_list input))
        by (rewrite E; left; reflexivity).
      apply In_missing_ips in Hin. destruct Hin as [Hi Hn].
      apply Hn. apply H. exact Hi.
  - intros missing H. rewrite Hdef in H.
    assert (Em : missing = Candidates.missing_ips ip_list input).
    { destruct (Candidates.missing_ips ip_list input); [discriminate |].
      inversion H. reflexivity. }
    split; [| split; [| split]].
    + destruct (Candidates.missing_ips ip_list input); [discriminate |].
      inversion H. discriminate.
    + rewrite Em. unfold Candidates.missing_ips.
      apply NoDup_filter, NoDup_nodup.
    + intros i. rewrite Em. apply In_missing_ips.
    + intros k ko se gw o Ho Hin. rewrite Em in Hin.
      apply In_missing_ips in Hin. destruct Hin as [_ Hn]. apply Hn.
      destruct (In_output k ko se gw input o Ho) as [_ [Hp Hip]].
      destruct (processed_has_raw ko input _ Hp) as [r [Hr Hi]].
      exists r. split; [exact Hr | congruence].
Qed.

Lemma check_ips_warns_of_missing_traffic_witness :
  Candidates.check_ips_and_warn ["10.0.0.1"%string; "10.0.0.7"%string]
                                Samples.one_endpoint
  = Some ["10.0.0.7"%string] /\
  NoDup ["10.0.0.7"%string].
Proof.
  assert (H : Candidates.check_ips_and_warn
                ["10.0.0.1"%string; "10.0.0.7"%string] Samples.one_endpoint
              = Some ["10.0.0.7"%string]) by reflexivity.
  split; [exact H |].
  exact (proj1 (proj2 (proj2 (check_ips_warns_of_missing_traffic
                                ["10.0.0.1"%string; "10.0.0.7"%string]
                                Samples.one_endpoint) _ H))).
Defined.

(* ------------------------------------------------------------------ *)
(** ** When [model_one] raises, and what it writes *)

Lemma unique_In {A : Type} (eq_dec : forall x y : A, {x = y} + {x <> y})
  (l : list A) (x : A) :
  In x (unique eq_dec l) <-> In x l.
Proof.
  induction l as [| a l IH]; simpl; [tauto |].
  split.
  - intros [H | H]; [left; exact H |].
    apply in_remove in H. right. apply IH. tauto.
  - intros [H | H]; [left; exact H |].
    destruct (eq_dec a x) as [E | E]; [left; exact E |].
    right. apply in_in_remove; [congruence | apply IH; exact H].
Qed.

Lemma NoDup_remove_elt {A : Type}
  (eq_dec : forall x y : A, {x = y} + {x <> y}) (a : A) (l : list A) :
  NoDup l -> NoDup (remove eq_dec a l).
Proof.
  induction 1 as [| x l Hx Hl IH]; simpl; [constructor |].
  destruct (eq_dec a x); [exact IH |].
  constructor; [| exact IH].
  intros H. apply in_remove in H. tauto.
Qed.

Lemma unique_NoDup {A : Type} (eq_dec : forall x y : A, {x = y} + {x <> y})
  (l : list A) :
  NoDup (unique eq_dec l).
Proof.
  induction l as [| a l IH]; simpl; constructor.
  - apply remove_In.
  - apply NoDup_remove_elt. exact IH.
Qed.

(** The games of a date: the distinct kickoff times of its fixtures. *)
Lemma pl_games_spec (fx : list Detection.fixture) (md : string) :
  (Detection.pl_games fx md = None
   <-> forall f, In f fx -> Detection.date f <> md) /\
  (forall games,
      Detection.pl_games fx md = Some games ->
      NoDup games /\
      forall g, In g games
                <-> exists f, In f fx /\ Detection.date f = md /\
                              Detection.ko_time f = g).
Proof.
  unfold Detection.pl_games.
  set (on_date := filter (fun f => String.eqb (Detection.date f) md) fx).
  assert (Hon : forall f, In f on_date <-> In f fx /\ Detection.date f = md).
  { intros f. unfold on_date. rewrite filter_In, String.eqb_eq. tauto. }
  split.
  - split.
    + intros H f Hf E.
      destruct on_date as [| x xs] eqn:Eo; [| discriminate].
      apply (proj2 (Hon f)); auto.
    + intros H. destruct on_date as [| x xs] eqn:Eo; [reflexivity |].
      exfalso. destruct (proj1 (Hon x) (or_introl eq_refl)) as [H1 H2].
      apply (H x H1 H2).
  - intros games H.
    assert (E : games = unique string_dec (map Detection.ko_time on_date)).
    { destruct on_date; [discriminate | inversion H; reflexivity]. }
    rewrite E. split; [apply unique_NoDup |].
    intros g. rewrite unique_In, in_map_iff. split.
    + intros [f [Eg Hf]]. exists f. apply Hon in Hf. tauto.
    + intros [f [Hf [Hd Eg]]]. exists f. split; [exact Eg |].
      apply Hon. tauto.
Qed.

Lemma match_times_idx_None (games : list string) :
  Detection.match_times_idx games = None
  <-> exists g, In g games /\
                (Detection.kickoff_hh g = None \/
                 Detection.kickoff_mm g = None).
Proof.
  induction games as [| g gs IH]; simpl.
  - split; [discriminate | intros [g [[] _]]].
  - unfold Detection.s_idx, Detection.e_idx.
    destruct (Detection.kickoff_hh g) as [hh |] eqn:Eh.
    + destruct (Detection.kickoff_mm g) as [mm |] eqn:Em.
      * destruct (Detection.match_times_idx gs) as [rest |].
        -- split; [discriminate |].
           intros [x [[<- | Hx] Hp]].
           ++ rewrite Eh, Em in Hp. destruct Hp; discriminate.
           ++ assert (H : Some rest = None); [| discriminate].
              apply IH. exists x. auto.
        -- split; [| reflexivity]. intros _.
           destruct (proj1 IH eq_refl) as [x [Hx Hp]]. exists x. auto.
      * split; [| reflexivity]. intros _. exists g. auto.
    + split; [| reflexivity]. intros _. exists g. auto.
Qed.

(** X6.  [model_one] fails before it writes any artifact exactly in three
    cases: no endpoint of the traffic has a bucket sum above the top-talker
    threshold 0.02 (in particular when the traffic is empty), the date has
    no fixture, or [int] does not read the first two characters, or the
    fourth and fifth, of a kickoff text of the date.  In every other case
    it reaches the loop that writes the artifacts.  (Texts are sequences of
    characters below U+0100.) *)
Theorem model_one_raises_iff :
  forall (k : sort_kind) (tr : list Detection.sample)
         (fx : list Detection.fixture) (md : string),
    (Detection.model_one k tr fx md = None
     <-> Detection.columns (Detection.top_talkers (Detection.pivot_table tr))
         = [] \/
         (forall f, In f fx -> Detection.date f <> md) \/
         (exists f, In f fx /\ Detection.date f = md /\
                    (Detection.kickoff_hh (Detection.ko_time f) = None \/
                     Detection.kickoff_mm (Detection.ko_time f) = None))) /\
    (tr = [] -> Detection.model_one k tr fx md = None) /\
    ((forall (i : string) (raw : list cell) (m : Q),
         In (i, raw) (Detection.columns (Detection.pivot_table tr)) ->
         Detection.col_max raw = Some m ->
         (m <= Detection.top_talker_threshold)%Q) ->
     Detection.model_one k tr fx md = None).
Proof.
  intros k tr fx md.
  assert (Hmain :
    Detection.model_one k tr fx md = None
    <-> Detection.columns (Detection.top_talkers (Detection.pivot_table tr))
        = [] \/
        (forall f, In f fx -> Detection.date f <> md) \/
        (exists f, In f fx /\ Detection.date f = md /\
                   (Detection.kickoff_hh (Detection.ko_time f) = None \/
                    Detection.kickoff_mm (Detection.ko_time f) = None))).
  { unfold Detection.model_one.
    pose proof (ips_normalized_None tr) as Hn.
    destruct (pl_games_spec fx md) as [Hg1 Hg2].
    destruct (Detection.ips_normalized tr) as [n |].
    - assert (Hcols : Detection.columns
                        (Detection.top_talkers (Detection.pivot_table tr))
                      <> []).
      { intros E. apply Hn in E. discriminate. }
      destruct (Detection.pl_games fx md) as [games |].
      + destruct (Hg2 games eq_refl) as [_ Hin].
        assert (Hsome : ~ forall f, In f fx -> Detection.date f <> md).
        { intros H. apply Hg1 in H. discriminate. }
        pose proof (match_times_idx_None games) as Hm.
        destruct (Detection.match_times_idx games) as [idx |].
        * split; [discriminate |].
          intros [H | [H | [f [Hf [Hd Hp]]]]]; [contradiction | contradiction |].
          assert (E : @None (list Q) = None) by reflexivity.
          exfalso. assert (H : Some idx = None); [| discriminate].
          apply Hm. exists (Detection.ko_time f). split; [| exact Hp].
          apply Hin. exists f. auto.
        * split; [| reflexivity]. intros _. right. right.
          destruct (proj1 Hm eq_refl) as [g [Hg Hp]].
          apply Hin in Hg. destruct Hg as [f [Hf [Hd Eg]]].
          exists f. rewrite Eg. auto.
      + split; [| reflexivity]. intros _. right. left.
        apply Hg1. reflexivity.
    - split; [| reflexivity]. intros _. left. apply Hn. reflexivity. }
  split; [exact Hmain | split].
  - intros ->. apply Hmain. left. reflexivity.
  - intros H. apply Hmain. left.
    unfold Detection.top_talkers. simpl. apply filter_none.
    intros [i raw] Hin. simpl.
    destruct (Detection.col_max raw) as [m |] eqn:Em; [| reflexivity].
    simpl. unfold Qlt_bool.
    assert (Hle : (m <= Detection.top_talker_threshold)%Q)
      by (apply (H i raw m); [exact Hin | exact Em]).
    apply Qle_bool_iff in Hle. rewrite Hle. reflexivity.
Qed.

Lemma model_one_raises_iff_witness :
  (* empty traffic *)
  Detection.model_one stable_kind [] Samples.fixtures "2021-04-12" = None /\
  (* one endpoint, never above 0.02 *)
  Detection.model_one stable_kind
    [ {| Detection.bf_time := 0; Detection.ip := "10.0.0.2";
         Detection.gbps := 1 # 100 |} ]
    Samples.fixtures "2021-04-12" = None /\
  (* a date without fixture *)
  Detection.model_one stable_kind Samples.small_traffic Samples.fixtures
    "2021-04-13" = None /\
  (* a kickoff time written without its leading zero *)
  Detection.model_one stable_kind Samples.small_traffic
    [ {| Detection.date := "2021-04-12"; Detection.ko_time := "9:30:00" |} ]
    "2021-04-12" = None /\
  (* none of the three: the artifacts are written *)
  Detection.model_one stable_kind Samples.small_traffic Samples.fixtures
    "2021-04-12" <> None.
Proof.
  split; [| split; [| split; [| split]]].
  - exact (proj1 (proj2 (model_one_raises_iff stable_kind []
                           Samples.fixtures "2021-04-12")) eq_refl).
  - apply (proj2 (proj2 (model_one_raises_iff stable_kind _
                           Samples.fixtures "2021-04-12"))).
    intros i raw m Hin Hmax. vm_compute in Hin.
    destruct Hin as [Hin | []]. injection Hin as _ Hraw. subst raw.
    vm_compute in Hmax. injection Hmax as Hm. subst m.
    vm_compute. discriminate.
  - apply (proj1 (model_one_raises_iff stable_kind Samples.small_traffic
                    Samples.fixtures "2021-04-13")).
    right. left. intros f [<- | []]. vm_compute. discriminate.
  - apply (proj1 (model_one_raises_iff stable_kind Samples.small_traffic _
                    "2021-04-12")).
    right. right. eexists. split; [left; reflexivity |].
    split; [reflexivity | left; reflexivity].
  - intros H.
    apply (proj1 (model_one_raises_iff stable_kind Samples.small_traffic
                    Samples.fixtures "2021-04-12")) in H.
    destruct H as [H | [H | [f [Hf [_ H]]]]].
    + vm_compute in H. discriminate.
    + apply (H _ (or_introl eq_refl)). reflexivity.
    + destruct Hf as [<- | []]. vm_compute in H.
      destruct H; discriminate.
Defined.

(* ------------------------------------------------------------------ *)
(** ** The artifacts of a date and the endpoints they list *)

Lemma Forall2_In_right {A B : Type} (R : A -> B -> Prop)
  (l : list A) (m : list B) (b : B) :
  Forall2 R l m -> In b m -> exists a, In a l /\ R a b.
Proof.
  induction 1 as [| x y l m Hxy H IH]; simpl; [contradiction |].
  intros [<- | Hb].
  - exists x. auto.
  - destruct (IH Hb) as [a [Ha Hr]]. exists a. auto.
Qed.

Lemma NoDup_map_fst_filter {A B : Type} (f : A * B -> bool)
  (l : list (A * B)) :
  NoDup (map fst l) -> NoDup (map fst (filter f l)).
Proof.
  induction l as [| a l IH]; simpl; intros H; [constructor |].
  inversion H as [| x m Hx Hm]; subst.
  destruct (f a); simpl; [| apply IH; exact Hm].
  constructor; [| apply IH; exact Hm].
  intros Hin. apply Hx. apply in_map_iff in Hin.
  destruct Hin as [p [E Hp]]. apply filter_In in Hp.
  rewrite <- E. apply in_map. tauto.
Qed.

(** Smoothing and differencing keep the names of the columns. *)
Lemma ips_d_names (n : Detection.frame) :
  map fst (Detection.columns (Detection.ips_d (Detection.ips_smoothed n)))
  = map fst (Detection.columns n).
Proof.
  unfold Detection.ips_d, Detection.ips_smoothed, Detection.map_columns,
    Detection.groupby_index_mean. simpl.
  rewrite !map_map. reflexivity.
Qed.

Lemma ips_normalized_names (tr : list Detection.sample) (n : Detection.frame) :
  Detection.ips_normalized tr = Some n ->
  map fst (Detection.columns n)
  = map fst (Detection.columns
               (Detection.top_talkers (Detection.pivot_table tr))).
Proof.
  intros H. rewrite (ips_normalized_columns tr n H), map_map. reflexivity.
Qed.

Lemma exceed_counts_names (d : Detection.frame) (a b : Z) :
  map fst (Detection.exceed_counts d a b) = map fst (Detection.columns d).
Proof. unfold Detection.exceed_counts. rewrite map_map. reflexivity. Qed.

(** The endpoints a game lists are distinct names of columns of the
    differenced frame. *)
Lemma ip_pirate_list_names (k : sort_kind) (d : Detection.frame) (a b : Z) :
  NoDup (map fst (Detection.columns d)) ->
  NoDup (map fst (Detection.ip_pirate_list k d a b)) /\
  incl (map fst (Detection.ip_pirate_list k d a b))
       (map fst (Detection.columns d)).
Proof.
  intros Hnd. unfold Detection.ip_pirate_list.
  set (kept := filter (fun p => Detection.min_exceed_count <? snd p)
                      (Detection.exceed_counts d a b)).
  assert (Hp : Permutation (map fst (Detection.sort_values_desc k kept))
                           (map fst kept))
    by (apply Permutation_map, sort_values_desc_perm).
  split.
  - eapply Permutation_NoDup; [apply Permutation_sym; exact Hp |].
    apply NoDup_map_fst_filter. rewrite exceed_counts_names. exact Hnd.
  - intros i Hi. apply (Permutation_in _ Hp) in Hi.
    rewrite <- (exceed_counts_names d a b).
    apply in_map_iff in Hi. destruct Hi as [p [E Hin]].
    apply filter_In in Hin. rewrite <- E. apply in_map. tauto.
Qed.

Lemma StronglySorted_map_remove {A : Type}
  (eq_dec : forall x y : A, {x = y} + {x <> y}) (R : nat -> nat -> Prop)
  (f : A -> nat) (x : A) (l : list A) :
  StronglySorted R (map f l) -> StronglySorted R (map f (remove eq_dec x l)).
Proof.
  induction l as [| a l IH]; simpl; intros H; [constructor |].
  inversion H as [| b m Hm Hb]; subst.
  destruct (eq_dec x a); [apply IH; exact Hm |].
  simpl. constructor; [apply IH; exact Hm |].
  rewrite Forall_forall in *. intros y Hy. apply Hb.
  apply in_map_iff in Hy. destruct Hy as [z [<- Hz]].
  apply in_map. apply in_remove in Hz. tauto.
Qed.

(** [unique] lists the values in the order of their first occurrence. *)
Lemma unique_first_index {A : Type}
  (eq_dec : forall x y : A, {x = y} + {x <> y}) (l : list A) :
  StronglySorted lt (map (fun g => first_index eq_dec g l) (unique eq_dec l)).
Proof.
  induction l as [| x l IH]; [constructor |].
  change (unique eq_dec (x :: l))
    with (x :: remove eq_dec x (unique eq_dec l)).
  assert (E : map (fun g => first_index eq_dec g (x :: l))
                  (remove eq_dec x (unique eq_dec l))
              = map (fun g => S (first_index eq_dec g l))
                    (remove eq_dec x (unique eq_dec l))).
  { apply map_ext_in. intros g Hg. apply in_remove in Hg. simpl.
    destruct (eq_dec x g); [exfalso; apply (proj2 Hg); symmetry; assumption |].
    reflexivity. }
  cbn [map]. rewrite E.
  assert (E0 : first_index eq_dec x (x :: l) = O).
  { simpl. destruct (eq_dec x x); [reflexivity | contradiction]. }
  rewrite E0. constructor.
  - apply StronglySorted_map_remove.
    clear - IH. induction (unique eq_dec l) as [| a m IHm]; [constructor |].
    simpl in *. inversion IH as [| b m' Hm Ha]; subst.
    constructor; [apply IHm; exact Hm |].
    rewrite Forall_forall in *. intros y Hy.
    apply in_map_iff in Hy. destruct Hy as [z [<- Hz]].
    assert (first_index eq_dec a l < first_index eq_dec z l)%nat
      by (apply Ha;
          apply (in_map (fun g => first_index eq_dec g l)); exact Hz).
    lia.
  - apply Forall_forall. intros y Hy.
    apply in_map_iff in Hy. destruct Hy as [z [<- _]]. lia.
Qed.

Lemma pl_games_unique (fx : list Detection.fixture) (md : string)
  (games : list string) :
  Detection.pl_games fx md = Some games ->
  games = unique string_dec
            (map Detection.ko_time
                 (filter (fun f => String.eqb (Detection.date f) md) fx)).
Proof.
  unfold Detection.pl_games.
  destruct (filter _ fx); [discriminate |].
  intros H. inversion H. reflexivity.
Qed.

(** X7.  When [model_one] reaches its second loop it produces one name per
    distinct kickoff time of the fixtures of the date, each built from the
    date and that kickoff time, the kickoff times taken in the order of
    their first appearance among the fixtures; this list of names is what
    it returns.  Two kickoff times that agree on their first four
    characters other than [:] get the same name, so the names need not be
    distinct (the later file then replaces the earlier one). *)
Theorem model_one_one_artifact_per_kickoff :
  forall (k : sort_kind) (tr : list Detection.sample)
         (fx : list Detection.fixture) (md : string)
         (out : list (string * list string)),
    Detection.model_one k tr fx md = Some out ->
    let kos :=
      map Detection.ko_time
          (filter (fun f => String.eqb (Detection.date f) md) fx) in
    exists games : list string,
      map fst out = map (Detection.blob_name md) games /\
      NoDup games /\
      (forall g, In g games <-> In g kos) /\
      StronglySorted lt (map (fun g => first_index string_dec g kos) games) /\
      forall g g' : string,
        str_slice (str_remove ":"%char g) 0 4
        = str_slice (str_remove ":"%char g') 0 4 ->
        Detection.blob_name md g = Detection.blob_name md g'.
Proof.
  intros k tr fx md out H kos.
  destruct (model_one_games k tr fx md out H) as [n [games [_ [Hg Hout]]]].
  pose proof (pl_games_unique fx md games Hg) as Eg. fold kos in Eg.
  exists games. split; [| split; [| split; [| split]]].
  - clear - Hout. induction Hout as [| g o gs os Hgo _ IH]; [reflexivity |].
    simpl. rewrite IH. destruct Hgo as [s [e [_ [_ ->]]]]. reflexivity.
  - rewrite Eg. apply unique_NoDup.
  - intros g. rewrite Eg. apply unique_In.
  - rewrite Eg. apply unique_first_index.
  - intros g g' E. unfold Detection.blob_name. rewrite E. reflexivity.
Qed.

Lemma model_one_one_artifact_per_kickoff_witness :
  exists out : list (string * list string),
    Detection.model_one stable_kind Samples.small_traffic
      Samples.three_games "2021-04-12" = Some out /\
    map fst out = [ "ips_20210412_1730_UTC.csv"%string;
                    "ips_20210412_1500_UTC.csv"%string ] /\
    exists games : list string,
      map fst out = map (Detection.blob_name "2021-04-12") games /\
      games = [ "17:30:00"%string; "15:00:00"%string ] /\
      StronglySorted lt
        (map (fun g => first_index string_dec g
                         [ "17:30:00"%string; "15:00:00"%string;
                           "17:30:00"%string ])
             games).
Proof.
  destruct (Detection.model_one stable_kind Samples.small_traffic
              Samples.three_games "2021-04-12") as [out |] eqn:E;
    [| vm_compute in E; discriminate].
  exists out. split; [reflexivity |].
  destruct (model_one_one_artifact_per_kickoff stable_kind
              Samples.small_traffic Samples.three_games "2021-04-12" out E)
    as [games [Hnames [Hnd [Hin [Hord _]]]]].
  split.
  - vm_compute in E. injection E as E. rewrite <- E. reflexivity.
  - exists games. split; [exact Hnames |].
    assert (Eg : games = [ "17:30:00"%string; "15:00:00"%string ]).
    { assert (Hn : map (Detection.blob_name "2021-04-12") games
                   = [ "ips_20210412_1730_UTC.csv"%string;
                       "ips_20210412_1500_UTC.csv"%string ]).
      { rewrite <- Hnames. vm_compute in E. injection E as E.
        rewrite <- E. reflexivity. }
      destruct games as [| g1 [| g2 [| g3 rest]]]; try discriminate.
      assert (H1 : In g1 [ "17:30:00"%string; "15:00:00"%string;
                           "17:30:00"%string ])
        by (apply Hin; left; reflexivity).
      assert (H2 : In g2 [ "17:30:00"%string; "15:00:00"%string;
                           "17:30:00"%string ])
        by (apply Hin; right; left; reflexivity).
      simpl in H1, H2.
      destruct H1 as [<- | [<- | [<- | []]]];
        destruct H2 as [<- | [<- | [<- | []]]];
        try reflexivity; vm_compute in Hn; discriminate. }
    split; [exact Eg | exact Hord].
Defined.

(** X8.  Every endpoint an artifact lists is listed there once, has samples
    in the traffic, and is a top talker: the maximum of its bucket sums is
    above 0.02. *)
Theorem listed_endpoints_are_top_talkers :
  forall (k : sort_kind) (tr : list Detection.sample)
         (fx : list Detection.fixture) (md : string)
         (out : list (string * list string)) (blob : string)
         (ips : list string),
    Detection.model_one k tr fx md = Some out ->
    In (blob, ips) out ->
    NoDup ips /\
    forall i, In i ips ->
      In i (map Detection.ip tr) /\
      exists (raw : list cell) (m : Q),
        In (i, raw) (Detection.columns (Detection.pivot_table tr)) /\
        Detection.col_max raw = Some m /\
        (Detection.top_talker_threshold < m)%Q.
Proof.
  intros k tr fx md out blob ips H Hin.
  destruct (model_one_games k tr fx md out H) as [n [games [Hn [_ Hout]]]].
  destruct (Forall2_In_right _ _ _ _ Hout Hin) as [g [_ [s [e [_ [_ E]]]]]].
  inversion E; subst blob ips. clear E.
  assert (Hnames :
    map fst (Detection.columns (Detection.ips_d (Detection.ips_smoothed n)))
    = map fst (Detection.columns
                 (Detection.top_talkers (Detection.pivot_table tr))))
    by (rewrite ips_d_names; apply ips_normalized_names; exact Hn).
  assert (Hnd : NoDup (map fst (Detection.columns
                                  (Detection.top_talkers
                                     (Detection.pivot_table tr))))).
  { unfold Detection.top_talkers. cbn [Detection.columns].
    apply NoDup_map_fst_filter.
    rewrite pivot_table_names. apply unique_sorted_NoDup. }
  destruct (ip_pirate_list_names k
              (Detection.ips_d (Detection.ips_smoothed n))
              (py_int s) (py_int e)) as [H1 H2];
    [rewrite Hnames; exact Hnd |].
  split; [exact H1 |].
  intros i Hi. apply H2 in Hi. rewrite Hnames in Hi.
  apply in_map_iff in Hi. destruct Hi as [[j raw] [Ej Hj]].
  simpl in Ej. subst j.
  unfold Detection.top_talkers in Hj. cbn [Detection.columns] in Hj.
  apply filter_In in Hj. destruct Hj as [Hj Hmax]. cbn [snd] in Hmax.
  apply gt_scalar_spec in Hmax. destruct Hmax as [m [Em Hm]].
  split.
  - apply (unique_sorted_In string_dec String.leb).
    rewrite <- pivot_table_names.
    apply (in_map fst) in Hj. exact Hj.
  - exists raw, m. auto.
Qed.

Lemma listed_endpoints_are_top_talkers_witness :
  exists (out : list (string * list string)) (ips : list string),
    Detection.model_one stable_kind Samples.tied_traffic Samples.fixtures
      "2021-04-12" = Some out /\
    In ("ips_20210412_1500_UTC.csv"%string, ips) out /\
    ips = [ "10.0.0.1"%string; "10.0.0.2"%string ] /\
    NoDup ips /\
    In "10.0.0.2"%string (map Detection.ip Samples.tied_traffic) /\
    exists (raw : list cell) (m : Q),
      In ("10.0.0.2"%string, raw)
         (Detection.columns (Detection.pivot_table Samples.tied_traffic)) /\
      Detection.col_max raw = Some m /\
      (Detection.top_talker_threshold < m)%Q.
Proof.
  destruct (Detection.model_one stable_kind Samples.tied_traffic
              Samples.fixtures "2021-04-12") as [out |] eqn:E;
    [| vm_compute in E; discriminate].
  assert (Eo : out = [ ("ips_20210412_1500_UTC.csv"%string,
                        [ "10.0.0.1"%string; "10.0.0.2"%string ]) ]).
  { vm_compute in E. injection E as E. symmetry. exact E. }
  assert (Hin : In ("ips_20210412_1500_UTC.csv"%string,
                    [ "10.0.0.1"%string; "10.0.0.2"%string ]) out)
    by (rewrite Eo; left; reflexivity).
  destruct (listed_endpoints_are_top_talkers stable_kind Samples.tied_traffic
              Samples.fixtures "2021-04-12" out _ _ E Hin) as [Hnd Hall].
  destruct (Hall "10.0.0.2"%string (or_intror (or_introl eq_refl)))
    as [Hip Htop].
  exists out, [ "10.0.0.1"%string; "10.0.0.2"%string ].
  split; [reflexivity |].
  split; [exact Hin |].
  split; [reflexivity |].
  split; [exact Hnd |].
  split; [exact Hip | exact Htop].
Defined.

(* ------------------------------------------------------------------ *)
(** ** Series too short to flag anything *)

(** A difference of smoothed values is defined only from position 7 on and
    up to 5 positions before the end of the series. *)
Lemma diff_smooth_defined (c : list cell) (t : nat) :
  nth t (diff Detection.diff_lag (Detection.smooth_col c)) None <> None ->
  (7 <= t)%nat /\ (t + 4 < length c)%nat.
Proof.
  unfold Detection.diff_lag. rewrite nth_diff by lia.
  change (Z.to_nat 4) with 4%nat.
  destruct (t <? 4)%nat eqn:E4; [intros H; exfalso; apply H; reflexivity |].
  apply Nat.ltb_ge in E4. rewrite !nth_smooth_col.
  replace (t - 4 + 4)%nat with t by lia.
  destruct (t + 4 <? length c)%nat eqn:En;
    [| intros H; exfalso; apply H; reflexivity].
  apply Nat.ltb_lt in En.
  assert (El : (t <? length c)%nat = true) by (apply Nat.ltb_lt; lia).
  rewrite El. intros H. split; [| exact En].
  destruct (Nat.lt_ge_cases t 7) as [Hlt | Hge]; [| exact Hge].
  exfalso. apply H. unfold rolling_mean_at at 2.
  assert (E8 : (8 <=? t + 1)%nat = false) by (apply Nat.leb_gt; lia).
  rewrite E8. apply cell_sub_none_r.
Qed.

(** So a differenced column of length [n] has at most [n - 11] cells above
    any threshold, whatever the window. *)
Lemma exceed_count_short (c : list cell) (a b : Z) :
  Detection.exceed_count (diff Detection.diff_lag (Detection.smooth_col c)) a b
  <= Z.of_nat (length c - 11).
Proof.
  rewrite exceed_count_positions.
  set (col := diff Detection.diff_lag (Detection.smooth_col c)).
  set (hits := filter _ _).
  assert (Hnd : NoDup hits).
  { unfold hits, window_positions. apply NoDup_filter, seq_NoDup. }
  assert (Hincl : incl hits (seq 7 (length c - 11))).
  { intros t Ht. unfold hits in Ht. apply filter_In in Ht.
    destruct Ht as [_ Ht]. apply gt_scalar_spec in Ht.
    destruct Ht as [x [Ex _]].
    destruct (diff_smooth_defined c t) as [H7 Hn];
      [fold col; rewrite Ex; discriminate |].
    apply in_seq. lia. }
  pose proof (NoDup_incl_length Hnd Hincl) as Hlen.
  rewrite length_seq in Hlen. lia.
Qed.

Lemma length_unique_sorted_twice (l : list Z) :
  length (unique_sorted Z.eq_dec Z.leb (unique_sorted Z.eq_dec Z.leb l))
  = length (nodup Z.eq_dec l).
Proof.
  rewrite (unique_sorted_Z_id _ (unique_sorted_Z_ascending l)).
  unfold unique_sorted. apply Permutation_length, sort_by_perm.
Qed.

Lemma ips_normalized_index (tr : list Detection.sample) (n : Detection.frame) :
  Detection.ips_normalized tr = Some n ->
  Detection.index n = unique_sorted Z.eq_dec Z.leb (map Detection.bf_time tr).
Proof.
  unfold Detection.ips_normalized.
  destruct (Detection.minmax_scale _ _); [| discriminate].
  intros H. inversion H. reflexivity.
Qed.

(** X9.  When the traffic has fewer than 22 distinct time buckets, every
    artifact [model_one] writes is empty: at most [n - 11] differences are
    defined on [n] buckets and a listed endpoint needs more than 10
    exceeding ones. *)
Theorem short_series_lists_nobody :
  forall (k : sort_kind) (tr : list Detection.sample)
         (fx : list Detection.fixture) (md : string)
         (out : list (string * list string)) (blob : string)
         (ips : list string),
    (length (nodup Z.eq_dec (map Detection.bf_time tr)) < 22)%nat ->
    Detection.model_one k tr fx md = Some out ->
    In (blob, ips) out ->
    ips = [].
Proof.
  intros k tr fx md out blob ips Hshort H Hin.
  destruct (model_one_games k tr fx md out H) as [n [games [Hn [_ Hout]]]].
  destruct (Forall2_In_right _ _ _ _ Hout Hin) as [g [_ [s [e [_ [_ E]]]]]].
  inversion E; subst blob ips. clear E.
  unfold Detection.ip_pirate_list.
  rewrite (filter_none (fun p => Detection.min_exceed_count <? snd p)).
  - assert (Hp := sort_values_desc_perm k []).
    apply Permutation_sym, Permutation_nil in Hp. rewrite Hp. reflexivity.
  - intros [i c] Hic. simpl. apply Z.ltb_ge.
    apply In_exceed_counts in Hic. destruct Hic as [col [Hcol ->]].
    unfold Detection.ips_d, Detection.ips_smoothed, Detection.map_columns,
      Detection.groupby_index_mean in Hcol. simpl in Hcol.
    rewrite !map_map in Hcol. simpl in Hcol.
    apply in_map_iff in Hcol. destruct Hcol as [[j c0] [E _]].
    simpl in E. inversion E; subst i col. clear E.
    eapply Z.le_trans; [apply exceed_count_short |].
    rewrite length_map, (ips_normalized_index tr n Hn),
      length_unique_sorted_twice.
    unfold Detection.min_exceed_count. lia.
Qed.

Lemma short_series_lists_nobody_witness :
  (length (nodup Z.eq_dec (map Detection.bf_time Samples.small_traffic)) < 22)%nat
  /\ forall out blob ips,
       Detection.model_one stable_kind Samples.small_traffic
         Samples.fixtures "2021-04-12" = Some out ->
       In (blob, ips) out -> ips = [].
Proof.
  assert (H : (length (nodup Z.eq_dec
                         (map Detection.bf_time Samples.small_traffic)) < 22)%nat).
  { vm_compute. lia. }
  split; [exact H |].
  intros out blob ips.
  exact (short_series_lists_nobody stable_kind Samples.small_traffic
           Samples.fixtures "2021-04-12" out blob ips H).
Defined.

(* ------------------------------------------------------------------ *)
(** ** An endpoint whose traffic never rises *)

Local Open Scope Q_scope.

Lemma Forall2_nth {A B : Type} (R : A -> B -> Prop) (da : A) (db : B)
  (l : list A) (m : list B) (t : nat) :
  Forall2 R l m -> (t < length l)%nat -> R (nth t l da) (nth t m db).
Proof.
  intros H. revert t. induction H as [| a b l m Hab H IH]; intros t Ht;
    simpl in Ht; [lia |].
  destruct t as [| t]; simpl; [exact Hab | apply IH; lia].
Qed.

Lemma Qsum_le_Forall2 (xs ys : list Q) :
  Forall2 Qle xs ys -> Qsum xs <= Qsum ys.
Proof.
  induction 1 as [| x y xs ys Hxy H IH]; simpl; [apply Qle_refl |].
  apply Qplus_le_compat; assumption.
Qed.

(** Min-max scaling is an increasing affine map of the feature. *)
Lemma minmax_scale_col_affine (xs : list Q) :
  exists sc mn : Q,
    0 < sc /\
    Detection.minmax_scale_col xs = map (fun v => v * sc + mn) xs.
Proof.
  destruct xs as [| x l].
  - exists 1, 0. split; [reflexivity | reflexivity].
  - unfold Detection.minmax_scale_col.
    set (lo := fold_right Qmin x l). set (hi := fold_right Qmax x l).
    eexists. eexists. split; [| reflexivity].
    assert (Hlo : lo <= x) by (apply fold_Qmin_le; left; reflexivity).
    assert (Hhi : x <= hi) by (apply fold_Qmax_ge; left; reflexivity).
    unfold Detection.handle_zeros_in_scale.
    destruct (Qlt_bool (hi - lo) Detection.ten_eps) eqn:E.
    + reflexivity.
    + assert (Hpos : 0 < hi - lo).
      { assert (Hr : Detection.ten_eps <= hi - lo).
        { apply Qnot_lt_le. intros H. apply Qlt_bool_spec in H. congruence. }
        assert (0 < Detection.ten_eps) by reflexivity. lra. }
      apply Qlt_shift_div_l; [exact Hpos | lra].
Qed.

Lemma never_rises_scaled (xs : list Q) :
  never_rises xs -> never_rises (Detection.minmax_scale_col xs).
Proof.
  intros H. destruct (minmax_scale_col_affine xs) as [sc [mn [Hsc ->]]].
  intros s t Hst. rewrite length_map in Hst.
  rewrite (nth_indep _ 0 (0 * sc + mn)) by (rewrite length_map; lia).
  rewrite (nth_indep (map _ xs) 0 (0 * sc + mn)) by (rewrite length_map; lia).
  rewrite !(map_nth (fun v => v * sc + mn)).
  specialize (H s t Hst).
  apply Qplus_le_compat; [| apply Qle_refl].
  apply Qmult_le_compat_r; [exact H | apply Qlt_le_weak; exact Hsc].
Qed.

Lemma never_rises_Qeq (xs ys : list Q) :
  Forall2 Qeq xs ys -> never_rises ys -> never_rises xs.
Proof.
  intros Heq H s t Hst.
  assert (Hlen : length xs = length ys) by (apply (Forall2_length Heq)).
  rewrite (Forall2_nth Qeq 0 0 xs ys t Heq) by lia.
  rewrite (Forall2_nth Qeq 0 0 xs ys s Heq) by lia.
  apply H. lia.
Qed.

(** Of two windows of 8 buckets of such a series, the later one has the
    smaller sum. *)
Lemma never_rises_windows (xs : list Q) (a : nat) :
  never_rises xs -> (a + 12 <= length xs)%nat ->
  Qsum (firstn 8 (skipn (a + 4) xs)) <= Qsum (firstn 8 (skipn a xs)).
Proof.
  intros H Hlen. apply Qsum_le_Forall2.
  apply (Forall2_of_nth Qle 0 0).
  - rewrite !length_firstn, !length_skipn. lia.
  - intros j Hj. rewrite length_firstn, length_skipn in Hj.
    rewrite !nth_firstn.
    assert (E : (j <? 8)%nat = true) by (apply Nat.ltb_lt; lia).
    rewrite E, !nth_skipn. apply H. lia.
Qed.

(** The smoothed series of a series that never rises has no positive
    difference, so none of its differences is above the threshold. *)
Lemma never_rises_never_exceeds (xs : list Q) (t : nat) :
  never_rises xs ->
  gt_scalar (nth t (diff Detection.diff_lag
                         (Detection.smooth_col (map (@Some Q) xs))) None)
            Detection.threshold_rise = false.
Proof.
  intros H.
  destruct (gt_scalar _ _) eqn:E; [| reflexivity]. exfalso.
  apply gt_scalar_spec in E. destruct E as [v [Ev Hv]].
  destruct (diff_smooth_defined (map (@Some Q) xs) t) as [H7 Hn];
    [rewrite Ev; discriminate |].
  rewrite length_map in Hn.
  unfold Detection.diff_lag in Ev. rewrite nth_diff in Ev by lia.
  change (Z.to_nat 4) with 4%nat in Ev.
  assert (E4 : (t <? 4)%nat = false) by (apply Nat.ltb_ge; lia).
  rewrite E4 in Ev.
  rewrite (smooth_col_window xs t) in Ev by lia.
  rewrite (smooth_col_window xs (t - 4)) in Ev by lia.
  replace (t - 4 - 3)%nat with (t - 7)%nat in Ev by lia.
  pose proof (never_rises_windows xs (t - 7) H) as Hw.
  replace (t - 7 + 4)%nat with (t - 3)%nat in Hw by lia.
  specialize (Hw ltac:(lia)).
  set (A := Qsum (firstn 8 (skipn (t - 3) xs))) in *.
  set (B := Qsum (firstn 8 (skipn (t - 7) xs))) in *.
  clearbody A B.
  unfold cell_sub in Ev. injection Ev as Ev'.
  unfold Detection.threshold_rise in Hv. subst v.
  assert (HA : A / 8 <= B / 8).
  { unfold Qdiv. apply Qmult_le_compat_r; [exact Hw | discriminate]. }
  lra.
Qed.

Local Close Scope Q_scope.

(** Where a column of the differenced frame comes from: a top talker of the
    pivot, zero-filled, scaled, smoothed and differenced. *)
Lemma ips_d_column_origin (tr : list Detection.sample) (n : Detection.frame)
  (i : string) (col : list cell) :
  Detection.ips_normalized tr = Some n ->
  In (i, col) (Detection.columns (Detection.ips_d (Detection.ips_smoothed n))) ->
  exists (raw : list cell) (xs : list Q),
    In (i, raw) (Detection.columns
                   (Detection.top_talkers (Detection.pivot_table tr))) /\
    Forall2 Qeq xs (Detection.minmax_scale_col (map fillna0 raw)) /\
    col = diff Detection.diff_lag (Detection.smooth_col (map (@Some Q) xs)).
Proof.
  intros Hn Hin.
  destruct (ips_normalized_shape tr n Hn) as [Hs Hcols].
  destruct (groupby_index_mean_ascending n Hs) as [_ Hg].
  unfold Detection.ips_d, Detection.ips_smoothed, Detection.map_columns in Hin.
  cbn [Detection.columns] in Hin. rewrite map_map in Hin.
  apply in_map_iff in Hin. destruct Hin as [[j g] [E Hj]].
  cbn [fst snd] in E. inversion E; subst j col. clear E.
  destruct (Hg i g Hj) as [c0 [Hc0 Heq]].
  destruct (Hcols i c0 Hc0) as [ys [Ec0 Hlen]].
  rewrite Ec0, length_map in Heq. specialize (Heq Hlen).
  destruct (cell_eq_defined g ys Heq) as [xs [-> Hxs]].
  rewrite (ips_normalized_columns tr n Hn) in Hc0.
  apply in_map_iff in Hc0. destruct Hc0 as [[j raw] [E Hraw]].
  cbn [fst snd] in E. inversion E as [[Ej Ey]]. subst j.
  exists raw, xs. split; [exact Hraw | split; [| reflexivity]].
  rewrite Ec0 in Ey.
  assert (Einj : forall l m : list Q, map (@Some Q) l = map (@Some Q) m -> l = m).
  { induction l as [| a l IH]; intros [| b m] Hm; simpl in Hm;
      try discriminate; [reflexivity |].
    inversion Hm. f_equal. apply IH. assumption. }
  apply Einj in Ey. rewrite Ey. exact Hxs.
Qed.

(** X10.  An endpoint whose bucket sums, with the missing buckets read as
    0, never rise from a bucket to a later one is listed in no artifact:
    scaling keeps the order of its values, so no difference of its smoothed
    series is positive. *)
Theorem never_rising_endpoint_is_not_listed :
  forall (k : sort_kind) (tr : list Detection.sample)
         (fx : list Detection.fixture) (md : string)
         (out : list (string * list string)) (i : string) (raw : list cell),
    In (i, raw) (Detection.columns (Detection.pivot_table tr)) ->
    never_rises (map fillna0 raw) ->
    Detection.model_one k tr fx md = Some out ->
    forall (blob : string) (ips : list string),
      In (blob, ips) out -> ~ In i ips.
Proof.
  intros k tr fx md out i raw Hraw Hflat H blob ips Hin Hi.
  destruct (model_one_games k tr fx md out H) as [n [games [Hn [_ Hout]]]].
  destruct (Forall2_In_right _ _ _ _ Hout Hin) as [g [_ [s [e [_ [_ E]]]]]].
  inversion E; subst blob ips. clear E.
  unfold Detection.ip_pirate_list in Hi.
  apply (Permutation_in _
           (Permutation_map fst (sort_values_desc_perm k _))) in Hi.
  apply in_map_iff in Hi. destruct Hi as [[j c] [Ej Hic]].
  cbn [fst] in Ej. subst j.
  apply filter_In in Hic. destruct Hic as [Hic Hc]. cbn [snd] in Hc.
  apply Z.ltb_lt in Hc. unfold Detection.min_exceed_count in Hc.
  apply In_exceed_counts in Hic. destruct Hic as [col [Hcol ->]].
  destruct (ips_d_column_origin tr n i col Hn Hcol)
    as [raw' [xs [Hraw' [Hxs ->]]]].
  assert (Eraw : raw' = raw).
  { apply (NoDup_fst_unique i raw' raw
             (Detection.columns (Detection.pivot_table tr))).
    - rewrite pivot_table_names. apply unique_sorted_NoDup.
    - unfold Detection.top_talkers in Hraw'.
      cbn [Detection.columns] in Hraw'.
      apply filter_In in Hraw'. tauto.
    - exact Hraw. }
  subst raw'.
  assert (Hnr : never_rises xs).
  { apply (never_rises_Qeq _ _ Hxs), never_rises_scaled. exact Hflat. }
  rewrite exceed_count_positions in Hc.
  rewrite filter_none in Hc; [simpl in Hc; lia |].
  intros t _. apply never_rises_never_exceeds. exact Hnr.
Qed.

Lemma never_rising_endpoint_is_not_listed_witness :
  In ("10.0.0.2"%string, [Some (1 # 100)%Q; None; None])
     (Detection.columns (Detection.pivot_table Samples.small_traffic)) /\
  never_rises (map fillna0 [Some (1 # 100)%Q; None; None]) /\
  forall out blob ips,
    Detection.model_one stable_kind Samples.small_traffic
      Samples.fixtures "2021-04-12" = Some out ->
    In (blob, ips) out -> ~ In "10.0.0.2"%string ips.
Proof.
  assert (H1 : In ("10.0.0.2"%string, [Some (1 # 100)%Q; None; None])
                  (Detection.columns
                     (Detection.pivot_table Samples.small_traffic))).
  { vm_compute. right. left. reflexivity. }
  assert (H2 : never_rises (map fillna0 [Some (1 # 100)%Q; None; None])).
  { intros s t Hst. simpl in Hst.
    destruct t as [| [| [| t]]]; [| | | lia];
      destruct s as [| [| [| s]]]; try lia; simpl; discriminate. }
  split; [exact H1 | split; [exact H2 |]].
  intros out blob ips Hout.
  exact (never_rising_endpoint_is_not_listed stable_kind Samples.small_traffic
           Samples.fixtures "2021-04-12" out "10.0.0.2"
           [Some (1 # 100)%Q; None; None] H1 H2 Hout blob ips).
Defined.

(* ------------------------------------------------------------------ *)
(** ** The attributed traffic: keys, bounds and the buckets it reads *)

Lemma NoDup_map_filter {Row Key : Type} (key : Row -> Key)
  (keep : Row -> bool) :
  forall rows : list Row,
    NoDup (map key rows) -> NoDup (map key (filter keep rows)).
Proof.
  intros rows. induction rows as [| r rows IH]; simpl; intros H;
    [constructor |].
  inversion H as [| x m Hx Hm]; subst.
  destruct (keep r); simpl; [| apply IH; exact Hm].
  constructor; [| apply IH; exact Hm].
  intros Hin. apply Hx. apply in_map_iff in Hin.
  destruct Hin as [y [E Hy]]. apply filter_In in Hy.
  rewrite <- E. apply in_map. tauto.
Qed.

Lemma clean_keys (input : list Traffic.traffic_row) :
  map (fun c => (Traffic.c_ip c, Traffic.c_timestamp c))
      (Traffic.clean_ip_traffic_df input)
  = unique_sorted Traffic.key_eq_dec Traffic.key_leb
      (map Traffic.row_key input).
Proof.
  unfold Traffic.clean_ip_traffic_df. rewrite map_map. cbn beta.
  cbn [Traffic.c_ip Traffic.c_timestamp].
  rewrite <- (map_id (unique_sorted _ _ _)) at 2.
  apply map_ext. intros [i t]. reflexivity.
Qed.

(** The processed frame has one row per endpoint and bucket. *)
Lemma processed_keys_NoDup (ko : Z) (input : list Traffic.traffic_row) :
  NoDup (map (fun p => (Traffic.p_ip p, Traffic.p_timestamp p))
             (Traffic.processed_ip_traffic_df ko input)).
Proof.
  unfold Traffic.processed_ip_traffic_df. rewrite map_map.
  cbn [Traffic.process_row Traffic.p_ip Traffic.p_timestamp].
  apply NoDup_map_filter. rewrite clean_keys. apply unique_sorted_NoDup.
Qed.

Lemma merge_on_ip_keys_NoDup (base : list Traffic.base_row)
  (processed : list Traffic.processed_row) :
  NoDup (map (fun b => Traffic.ip (Traffic.endpoint b)) base) ->
  NoDup (map (fun p => (Traffic.p_ip p, Traffic.p_timestamp p)) processed) ->
  NoDup (map (fun o => (Traffic.ip (Traffic.endpoint (Traffic.o_base o)),
                        Traffic.p_timestamp (Traffic.o_traffic o)))
             (Traffic.merge_on_ip base processed)).
Proof.
  intros Hb Hp. induction base as [| b base IH]; [constructor |].
  inversion Hb as [| x m Hx Hm]; subst.
  unfold Traffic.merge_on_ip.
  change (flat_map ?f (b :: base)) with (f b ++ flat_map f base).
  fold (Traffic.merge_on_ip base processed).
  rewrite map_app. apply NoDup_app.
  - rewrite map_map. cbn [Traffic.o_base Traffic.o_traffic].
    assert (E : map (fun p => (Traffic.ip (Traffic.endpoint b),
                               Traffic.p_timestamp p))
                    (filter (fun p => String.eqb (Traffic.p_ip p)
                                        (Traffic.ip (Traffic.endpoint b)))
                            processed)
                = map (fun p => (Traffic.p_ip p, Traffic.p_timestamp p))
                      (filter (fun p => String.eqb (Traffic.p_ip p)
                                          (Traffic.ip (Traffic.endpoint b)))
                              processed)).
    { apply map_ext_in. intros p Hin. apply filter_In in Hin.
      destruct Hin as [_ Hin]. apply String.eqb_eq in Hin.
      rewrite Hin. reflexivity. }
    rewrite E. apply NoDup_map_filter. exact Hp.
  - apply IH. exact Hm.
  - intros key H1 H2. apply Hx.
    apply in_map_iff in H1. destruct H1 as [o1 [E1 Ho1]].
    apply in_map_iff in Ho1. destruct Ho1 as [p [Eo1 _]]. subst o1.
    cbn [Traffic.o_base Traffic.o_traffic] in E1.
    apply in_map_iff in H2. destruct H2 as [o2 [E2 Ho2]].
    unfold Traffic.merge_on_ip in Ho2. apply in_flat_map in Ho2.
    destruct Ho2 as [b' [Hb' Ho2]].
    apply in_map_iff in Ho2. destruct Ho2 as [p' [Eo2 _]]. subst o2.
    cbn [Traffic.o_base Traffic.o_traffic] in E2.
    rewrite <- E1 in E2. injection E2 as Eip Ets.
    rewrite <- Eip.
    apply (in_map (fun b => Traffic.ip (Traffic.endpoint b))). exact Hb'.
Qed.

(** The endpoints and buckets of the output are those of the input rows
    stamped in the match window. *)
Lemma output_keys (k : sort_kind) (ko : Z) (se : string) (gw : Z)
  (input : list Traffic.traffic_row) (i : string) (t : Z) :
  In (i, t)
     (map (fun o => (Traffic.ip (Traffic.endpoint (Traffic.o_base o)),
                     Traffic.p_timestamp (Traffic.o_traffic o)))
          (Traffic.construct_output_df k ko se gw input))
  <-> exists r, In r input /\ Traffic.ip (Traffic.meta r) = i /\
                Traffic.timestamp r = t /\
                ko <= t < ko + Traffic.minutes 110.
Proof.
  split.
  - intros H. apply in_map_iff in H. destruct H as [o [E Ho]].
    destruct (In_output k ko se gw input o Ho) as [_ [Hp Hip]].
    destruct (In_processed ko input _ Hp) as [c [Hc [Hb Ep]]].
    rewrite <- Hip, Ep in E.
    cbn [Traffic.process_row Traffic.p_ip Traffic.p_timestamp] in E.
    unfold Traffic.clean_ip_traffic_df in Hc. apply in_map_iff in Hc.
    destruct Hc as [key [Ec Hkey]]. apply unique_sorted_In in Hkey.
    apply in_map_iff in Hkey. destruct Hkey as [r [Er Hr]].
    subst c key. cbn [Traffic.c_ip Traffic.c_timestamp fst snd] in E.
    unfold Traffic.between in Hb. cbn [Traffic.c_timestamp snd] in Hb.
    unfold Traffic.row_key in E, Hb. cbn [fst snd] in E, Hb.
    injection E as Ei Et. apply andb_true_iff in Hb. destruct Hb as [H1 H2].
    apply Z.leb_le in H1. apply Z.ltb_lt in H2.
    exists r. repeat split; try assumption; lia.
  - intros [r [Hr [Ei [Et Hw]]]].
    destruct (base_df_covers k ko se gw input r Hr) as [b [Hb Hbi]].
    set (c := {| Traffic.c_ip := fst (Traffic.row_key r);
                 Traffic.c_timestamp := snd (Traffic.row_key r);
                 Traffic.c_gigabits :=
                   Qsum (map Traffic.gigabits
                           (filter (fun r' => Traffic.key_eqb
                                                (Traffic.row_key r')
                                                (Traffic.row_key r))
                                   input)) |}).
    set (p := Traffic.process_row
                (Traffic.noise_df ko (Traffic.clean_ip_traffic_df input)) c).
    apply in_map_iff.
    exists {| Traffic.o_base := b; Traffic.o_traffic := p |}. split.
    + cbn [Traffic.o_base Traffic.o_traffic]. unfold p, c.
      cbn [Traffic.process_row Traffic.p_timestamp Traffic.c_timestamp].
      unfold Traffic.row_key. cbn [snd]. congruence.
    + unfold Traffic.construct_output_df, Traffic.merge_on_ip.
      apply in_flat_map. exists b. split; [exact Hb |].
      apply in_map. apply filter_In. split.
      * unfold Traffic.processed_ip_traffic_df. apply in_map.
        apply filter_In. split.
        -- unfold Traffic.clean_ip_traffic_df.
           apply (in_map (fun key =>
                     {| Traffic.c_ip := fst key; Traffic.c_timestamp := snd key;
                        Traffic.c_gigabits :=
                          Qsum (map Traffic.gigabits
                                  (filter (fun r' => Traffic.key_eqb
                                                       (Traffic.row_key r') key)
                                          input)) |})).
           apply unique_sorted_In. apply in_map. exact Hr.
        -- unfold Traffic.between, c. cbn [Traffic.c_timestamp].
           unfold Traffic.row_key. cbn [snd].
           apply andb_true_iff. split; [apply Z.leb_le | apply Z.ltb_lt]; lia.
      * apply String.eqb_eq. unfold p, c.
        cbn [Traffic.process_row Traffic.p_ip Traffic.c_ip].
        unfold Traffic.row_key. cbn [fst]. symmetry. exact Hbi.
Qed.

(** X11.  The output of [construct_output_df] has exactly one row per
    endpoint and 5-minute bucket of the input rows stamped in the match
    window [[ko, ko + 110min)], however many duplicate rows the input has
    for them; without such a row the output is empty. *)
Theorem output_has_one_row_per_endpoint_and_bucket :
  forall (k : sort_kind) (ko : Z) (se : string) (gw : Z)
         (input : list Traffic.traffic_row),
    let keys :=
      map (fun o => (Traffic.ip (Traffic.endpoint (Traffic.o_base o)),
                     Traffic.p_timestamp (Traffic.o_traffic o)))
          (Traffic.construct_output_df k ko se gw input) in
    NoDup keys /\
    (forall (i : string) (t : Z),
        In (i, t) keys
        <-> exists r, In r input /\ Traffic.ip (Traffic.meta r) = i /\
                      Traffic.timestamp r = t /\
                      ko <= t < ko + Traffic.minutes 110) /\
    ((forall r, In r input ->
                ~ ko <= Traffic.timestamp r < ko + Traffic.minutes 110) ->
     Traffic.construct_output_df k ko se gw input = []).
Proof.
  intros k ko se gw input keys. split; [| split].
  - unfold keys, Traffic.construct_output_df.
    apply merge_on_ip_keys_NoDup;
      [apply base_df_NoDup | apply processed_keys_NoDup].
  - intros i t. apply output_keys.
  - intros Hnone.
    destruct (Traffic.construct_output_df k ko se gw input) as [| o rest] eqn:E;
      [reflexivity |].
    exfalso.
    destruct (proj1 (output_keys k ko se gw input
                       (Traffic.ip (Traffic.endpoint (Traffic.o_base o)))
                       (Traffic.p_timestamp (Traffic.o_traffic o))))
      as [r [Hr [_ [Et Hw]]]].
    + rewrite E. left. reflexivity.
    + apply (Hnone r Hr). rewrite Et. exact Hw.
Qed.

Lemma output_has_one_row_per_endpoint_and_bucket_witness :
  (forall r, In r [Samples.row "10.0.0.1" None None (Samples.ko0 - 5400) 24] ->
             ~ Samples.ko0 <= Traffic.timestamp r
               < Samples.ko0 + Traffic.minutes 110) /\
  Traffic.construct_output_df stable_kind Samples.ko0 "2020/21" 31
    [Samples.row "10.0.0.1" None None (Samples.ko0 - 5400) 24] = [].
Proof.
  assert (H : forall r,
             In r [Samples.row "10.0.0.1" None None (Samples.ko0 - 5400) 24] ->
             ~ Samples.ko0 <= Traffic.timestamp r
               < Samples.ko0 + Traffic.minutes 110).
  { intros r [<- | []]. simpl. unfold Samples.ko0. lia. }
  split; [exact H |].
  exact (proj2 (proj2 (output_has_one_row_per_endpoint_and_bucket stable_kind
                         Samples.ko0 "2020/21" 31
                         [Samples.row "10.0.0.1" None None
                                      (Samples.ko0 - 5400) 24])) H).
Defined.

Local Open Scope Q_scope.

Lemma Qsum_nonneg (l : list Q) :
  (forall x, In x l -> 0 <= x) -> 0 <= Qsum l.
Proof.
  induction l as [| a l IH]; intros H; simpl; [apply Qle_refl |].
  assert (0 <= a) by (apply H; left; reflexivity).
  assert (0 <= Qsum l) by (apply IH; intros x Hx; apply H; right; exact Hx).
  lra.
Qed.

Lemma Qsum_gigabits_nonneg (rows : list Traffic.traffic_row)
  (f : Traffic.traffic_row -> bool) (input : list Traffic.traffic_row) :
  (forall r, In r input -> 0 <= Traffic.gigabits r) ->
  0 <= Qsum (map Traffic.gigabits (filter f input)).
Proof.
  intros H. apply Qsum_nonneg. intros x Hx.
  apply in_map_iff in Hx. destruct Hx as [r [<- Hr]].
  apply filter_In in Hr. apply H. tauto.
Qed.

(** X12.  When no input row has negative gigabits, every output row has a
    noise that is not negative and a piracy traffic between 0 and the
    endpoint's traffic in the bucket, in gigabits and in gbps. *)
Theorem piracy_is_bounded_by_the_traffic :
  forall (k : sort_kind) (ko : Z) (se : string) (gw : Z)
         (input : list Traffic.traffic_row) (o : Traffic.output_row),
    (forall r, In r input -> 0 <= Traffic.gigabits r) ->
    In o (Traffic.construct_output_df k ko se gw input) ->
    0 <= Traffic.noise_gigabits (Traffic.o_traffic o) /\
    0 <= Traffic.piracy_gigabits (Traffic.o_traffic o)
      <= Traffic.p_gigabits (Traffic.o_traffic o) /\
    0 <= Traffic.piracy_gbps (Traffic.o_traffic o)
      <= Traffic.gbps (Traffic.o_traffic o).
Proof.
  intros k ko se gw input o Hpos Ho.
  destruct (In_output k ko se gw input o Ho) as [_ [Hp _]].
  destruct (In_processed ko input _ Hp) as [c [Hc [_ ->]]].
  cbn [Traffic.process_row Traffic.noise_gigabits Traffic.piracy_gigabits
       Traffic.p_gigabits Traffic.piracy_gbps Traffic.gbps].
  set (n := Traffic.noise_of _ _).
  assert (Hn : 0 <= n).
  { unfold n. rewrite noise_of_raw. unfold Traffic.raw_in_window.
    pose proof (Qsum_gigabits_nonneg input
                  (fun r => ((ko + Traffic.minutes (-90) <=? Traffic.timestamp r)%Z
                             && (Traffic.timestamp r <? ko + Traffic.minutes (-30))%Z
                             && String.eqb (Traffic.ip (Traffic.meta r))
                                           (Traffic.c_ip c))%bool)
                  input Hpos) as Hs.
    apply Qle_shift_div_l; [reflexivity | lra]. }
  assert (Hg : 0 <= Traffic.c_gigabits c).
  { unfold Traffic.clean_ip_traffic_df in Hc. apply in_map_iff in Hc.
    destruct Hc as [key [<- _]]. cbn [Traffic.c_gigabits].
    apply (Qsum_gigabits_nonneg input). exact Hpos. }
  clearbody n. set (g := Traffic.c_gigabits c) in *. clearbody g.
  assert (Hlo : 0 <= Qmax (g - n) 0) by apply Q.le_max_r.
  assert (Hhi : Qmax (g - n) 0 <= g) by (apply Q.max_lub; lra).
  split; [exact Hn | split; [split; assumption |]].
  unfold Qdiv. split.
  - apply Qmult_le_0_compat; [exact Hlo | discriminate].
  - apply Qmult_le_compat_r; [exact Hhi | discriminate].
Qed.

Local Close Scope Q_scope.

Lemma piracy_is_bounded_by_the_traffic_witness :
  match Traffic.construct_output_df stable_kind Samples.ko0 "2020/21" 31
          Samples.one_endpoint with
  | o :: _ =>
      (0 <= Traffic.noise_gigabits (Traffic.o_traffic o) /\
       0 <= Traffic.piracy_gigabits (Traffic.o_traffic o)
         <= Traffic.p_gigabits (Traffic.o_traffic o) /\
       0 <= Traffic.piracy_gbps (Traffic.o_traffic o)
         <= Traffic.gbps (Traffic.o_traffic o))%Q
  | [] => False
  end.
Proof.
  destruct (Traffic.construct_output_df stable_kind Samples.ko0 "2020/21" 31
              Samples.one_endpoint) as [| o rest] eqn:E.
  - vm_compute in E. discriminate.
  - apply (piracy_is_bounded_by_the_traffic stable_kind Samples.ko0
             "2020/21" 31 Samples.one_endpoint o).
    + intros r [<- | [<- | []]]; simpl; discriminate.
    + rewrite E. left. reflexivity.
Defined.

(** The order of the group keys: total and transitive. *)
Lemma string_leb_trans (a b c : string) :
  String.leb a b = true -> String.leb b c = true -> String.leb a c = true.
Proof.
  unfold String.leb. intros Hab Hbc.
  destruct (String.compare a b) eqn:Eab; [| | discriminate].
  - apply String.compare_eq_iff in Eab. subst b. exact Hbc.
  - destruct (String.compare b c) eqn:Ebc; [| | discriminate].
    + apply String.compare_eq_iff in Ebc. subst c. rewrite Eab. reflexivity.
    + assert (H : String.compare a c = Lt).
      { apply String_as_OT.cmp_lt.
        apply (String_as_OT.lt_trans a b c); apply String_as_OT.cmp_lt;
          assumption. }
      rewrite H. reflexivity.
Qed.

Lemma key_leb_total (a b : string * Z) :
  Traffic.key_leb a b = false -> Traffic.key_leb b a = true.
Proof.
  unfold Traffic.key_leb. rewrite (String.eqb_sym (fst b) (fst a)).
  destruct (String.eqb (fst a) (fst b)).
  - intros H. apply Z.leb_gt in H. apply Z.leb_le. lia.
  - intros H. destruct (String.leb_total (fst a) (fst b)) as [H' | H'];
      [congruence | exact H'].
Qed.

Lemma key_leb_trans (a b c : string * Z) :
  Traffic.key_leb a b = true -> Traffic.key_leb b c = true ->
  Traffic.key_leb a c = true.
Proof.
  unfold Traffic.key_leb.
  destruct (String.eqb_spec (fst a) (fst b)) as [Eab | Nab];
    destruct (String.eqb_spec (fst b) (fst c)) as [Ebc | Nbc];
    destruct (String.eqb_spec (fst a) (fst c)) as [Eac | Nac];
    intros Hab Hbc; try congruence.
  - apply Z.leb_le in Hab, Hbc. apply Z.leb_le. lia.
  - exfalso. apply Nab. rewrite Eac in Hab.
    rewrite Eac. apply String.leb_antisym; assumption.
  - eapply string_leb_trans; eassumption.
Qed.

Lemma filter_insert_by {A : Type} (leb : A -> A -> bool) (p : A -> bool)
  (x : A) (l : list A) :
  (forall a b c, leb a b = true -> leb b c = true -> leb a c = true) ->
  StronglySorted (fun a b => leb a b = true) l ->
  filter p (insert_by leb x l)
  = if p x then insert_by leb x (filter p l) else filter p l.
Proof.
  intros Htr Hs. induction Hs as [| y l Hs IH Hy]; simpl.
  - destruct (p x); reflexivity.
  - destruct (leb x y) eqn:Exy.
    + simpl. destruct (p x) eqn:Ex; [| reflexivity].
      destruct (p y) eqn:Ey; simpl; [rewrite Exy; reflexivity |].
      destruct (filter p l) as [| z m] eqn:Ef; [reflexivity |].
      simpl. assert (Hz : In z l).
      { assert (Hin : In z (filter p l)) by (rewrite Ef; left; reflexivity).
        apply filter_In in Hin. tauto. }
      rewrite Forall_forall in Hy.
      rewrite (Htr x y z Exy (Hy z Hz)). reflexivity.
    + simpl. rewrite IH.
      destruct (p y) eqn:Ey; destruct (p x) eqn:Ex; simpl;
        try rewrite Exy; reflexivity.
Qed.

Lemma filter_sort_by {A : Type} (leb : A -> A -> bool) (p : A -> bool)
  (l : list A) :
  (forall a b, leb a b = false -> leb b a = true) ->
  (forall a b c, leb a b = true -> leb b c = true -> leb a c = true) ->
  filter p (sort_by leb l) = sort_by leb (filter p l).
Proof.
  intros Htot Htr. induction l as [| x l IH]; [reflexivity |].
  change (sort_by leb (x :: l)) with (insert_by leb x (sort_by leb l)).
  rewrite filter_insert_by; [| exact Htr |].
  - simpl. destruct (p x); [| exact IH].
    change (sort_by leb (x :: filter p l))
      with (insert_by leb x (sort_by leb (filter p l))).
    rewrite IH. reflexivity.
  - apply sort_by_sorted; [auto | exact Htot | exact Htr].
Qed.

Lemma nodup_filter {A : Type} (eq_dec : forall x y : A, {x = y} + {x <> y})
  (p : A -> bool) (l : list A) :
  filter p (nodup eq_dec l) = nodup eq_dec (filter p l).
Proof.
  induction l as [| x l IH]; [reflexivity |]. simpl.
  destruct (in_dec eq_dec x l) as [Hin | Hout].
  - destruct (p x) eqn:Ex; [| exact IH]. simpl.
    destruct (in_dec eq_dec x (filter p l)) as [_ | Hn]; [exact IH |].
    exfalso. apply Hn. apply filter_In. auto.
  - simpl. destruct (p x) eqn:Ex; [| exact IH]. simpl.
    destruct (in_dec eq_dec x (filter p l)) as [Hin | _].
    + exfalso. apply Hout. apply filter_In in Hin. tauto.
    + rewrite IH. reflexivity.
Qed.

(** Selecting rows by their timestamp before or after the group-by gives
    the same groups. *)
Lemma unique_sorted_keys_filter (p : string * Z -> bool)
  (l : list (string * Z)) :
  filter p (unique_sorted Traffic.key_eq_dec Traffic.key_leb l)
  = unique_sorted Traffic.key_eq_dec Traffic.key_leb (filter p l).
Proof.
  unfold unique_sorted.
  rewrite filter_sort_by; [| apply key_leb_total | apply key_leb_trans].
  rewrite nodup_filter. reflexivity.
Qed.

(** The clean rows of a window are those of the input restricted to any
    set of rows that contains the window. *)
Lemma clean_window_local (lo hi : Z) (rel : Traffic.traffic_row -> bool)
  (input : list Traffic.traffic_row) :
  (forall r, lo <= Traffic.timestamp r < hi -> rel r = true) ->
  filter (Traffic.between lo hi) (Traffic.clean_ip_traffic_df input)
  = filter (Traffic.between lo hi)
           (Traffic.clean_ip_traffic_df (filter rel input)).
Proof.
  intros Hrel.
  set (w := fun key : string * Z => (lo <=? snd key) && (snd key <? hi)).
  assert (Hw : forall r, w (Traffic.row_key r) = true -> rel r = true).
  { intros r H. apply Hrel. unfold w in H. simpl in H.
    apply andb_true_iff in H. destruct H as [H1 H2].
    apply Z.leb_le in H1. apply Z.ltb_lt in H2. lia. }
  assert (Hclean : forall rows,
    filter (Traffic.between lo hi) (Traffic.clean_ip_traffic_df rows)
    = map (fun key =>
             {| Traffic.c_ip := fst key; Traffic.c_timestamp := snd key;
                Traffic.c_gigabits :=
                  Qsum (map Traffic.gigabits
                          (filter (fun r => Traffic.key_eqb (Traffic.row_key r)
                                                            key) rows)) |})
          (unique_sorted Traffic.key_eq_dec Traffic.key_leb
             (map Traffic.row_key
                  (filter (fun r => w (Traffic.row_key r)) rows)))).
  { intros rows. unfold Traffic.clean_ip_traffic_df.
    rewrite filter_map_comm. f_equal.
    rewrite <- filter_map_comm.
    apply (unique_sorted_keys_filter w). }
  rewrite !Hclean, filter_filter.
  assert (Ef : filter (fun a => rel a && w (Traffic.row_key a)) input
               = filter (fun r => w (Traffic.row_key r)) input).
  { apply filter_ext_in. intros r _.
    destruct (w (Traffic.row_key r)) eqn:E.
    - rewrite (Hw r E). reflexivity.
    - apply andb_false_r. }
  rewrite Ef. apply map_ext_in. intros key Hkey.
  apply unique_sorted_In in Hkey. apply in_map_iff in Hkey.
  destruct Hkey as [r0 [E0 Hr0]]. apply filter_In in Hr0.
  destruct Hr0 as [_ Hw0]. rewrite E0 in Hw0.
  f_equal. f_equal. f_equal. rewrite filter_filter.
  apply filter_ext_in. intros r _.
  destruct (Traffic.key_eqb (Traffic.row_key r) key) eqn:E.
  - apply key_eqb_spec in E. rewrite (Hw r); [reflexivity |].
    rewrite E. exact Hw0.
  - symmetry. apply andb_false_r.
Qed.

(** X13.  The processed traffic reads the input only in the quiet window
    [[ko - 90min, ko - 30min)] and in the match window [[ko, ko + 110min)]:
    it is the same on the input restricted to these rows.  In particular a
    row stamped in the half hour before kickoff changes nothing. *)
Theorem attribution_reads_two_windows :
  forall (ko : Z) (input : list Traffic.traffic_row),
    Traffic.processed_ip_traffic_df ko input
    = Traffic.processed_ip_traffic_df ko
        (filter (fun r =>
                   (ko + Traffic.minutes (-90) <=? Traffic.timestamp r)
                   && (Traffic.timestamp r <? ko + Traffic.minutes (-30))
                   || (ko <=? Traffic.timestamp r)
                      && (Traffic.timestamp r <? ko + Traffic.minutes 110))
                input) /\
    forall r : Traffic.traffic_row,
      ko + Traffic.minutes (-30) <= Traffic.timestamp r < ko ->
      Traffic.processed_ip_traffic_df ko (r :: input)
      = Traffic.processed_ip_traffic_df ko input.
Proof.
  intros ko.
  set (rel := fun r : Traffic.traffic_row =>
                (ko + Traffic.minutes (-90) <=? Traffic.timestamp r)
                && (Traffic.timestamp r <? ko + Traffic.minutes (-30))
                || (ko <=? Traffic.timestamp r)
                   && (Traffic.timestamp r <? ko + Traffic.minutes 110)).
  assert (Hq : forall r, ko + Traffic.minutes (-90) <= Traffic.timestamp r
                         < ko + Traffic.minutes (-30) -> rel r = true).
  { intros r H. unfold rel. apply orb_true_iff. left.
    apply andb_true_iff. split; [apply Z.leb_le | apply Z.ltb_lt]; lia. }
  assert (Hm : forall r, ko <= Traffic.timestamp r < ko + Traffic.minutes 110 ->
                         rel r = true).
  { intros r H. unfold rel. apply orb_true_iff. right.
    apply andb_true_iff. split; [apply Z.leb_le | apply Z.ltb_lt]; lia. }
  assert (Hmain : forall input,
    Traffic.processed_ip_traffic_df ko input
    = Traffic.processed_ip_traffic_df ko (filter rel input)).
  { intros input. unfold Traffic.processed_ip_traffic_df, Traffic.noise_df.
    rewrite (clean_window_local _ _ rel input Hq).
    rewrite (clean_window_local _ _ rel input Hm).
    reflexivity. }
  intros input. split; [apply Hmain |].
  intros r Hr. rewrite (Hmain (r :: input)), (Hmain input).
  f_equal. simpl.
  assert (E : rel r = false).
  { unfold rel, Traffic.minutes in *. apply orb_false_iff. split.
    - apply andb_false_iff. right. apply Z.ltb_ge. lia.
    - apply andb_false_iff. left. apply Z.leb_gt. lia. }
  rewrite E. reflexivity.
Qed.

Lemma attribution_reads_two_windows_witness :
  Samples.ko0 + Traffic.minutes (-30) <= Samples.ko0 - 600 < Samples.ko0 /\
  Traffic.processed_ip_traffic_df Samples.ko0
    (Samples.row "10.0.0.1" None None (Samples.ko0 - 600) 50
       :: Samples.one_endpoint)
  = Traffic.processed_ip_traffic_df Samples.ko0 Samples.one_endpoint.
Proof.
  assert (H : Samples.ko0 + Traffic.minutes (-30) <= Samples.ko0 - 600
              < Samples.ko0) by (vm_compute; split; [discriminate | reflexivity]).
  split; [exact H |].
  exact (proj2 (attribution_reads_two_windows Samples.ko0 Samples.one_endpoint)
           (Samples.row "10.0.0.1" None None (Samples.ko0 - 600) 50) H).
Defined.
